(** * Tomasulo simulator: a shallow embedding of the scheduling engine

    The engine is the TypeScript module with the classes [Instruction],
    [ReservationStation] and [Tomasulo] (the variant that hard-wires
    register 0 and orders memory hazards by issue clock).

    Conventions of the embedding.
    - A JavaScript [number] is an integer of [Z]: every number the engine
      handles is an integer.  Program counters, addresses, counters and
      clocks stay far below 2^53, where doubles are exact.  Operand values
      do not: a result forwarded on the bus is not reduced to 16 bits, so
      the sums, differences and products of Execute are rounded to the
      nearest double ([JS.double]).  A result of magnitude 2^1024 or more,
      which the code holds as [Infinity], has no counterpart here.
    - A string is the sequence of bytes of its UTF-8 encoding.
    - [null] and [undefined] are [None]: the code only ever tests them
      with [== null], [!= null], [=== null] on fields that are never
      [undefined], or with [??].
    - A [Uint16Array] stores [v mod 65536]; a read outside the array is
      [undefined], a write outside the array is ignored.
    - An object reference to a station of [this.RS] is the station's index
      in [this.RS]: stations are only ever appended at configuration time
      and mutated in place, so the index is the identity of the object. *)

From Stdlib Require Import ZArith Lia String Ascii List Bool.
From stdpp Require Import base option list gmap strings.
Local Open Scope Z_scope.

(** ** JavaScript numbers and bit operations *)

Module JS.

(** [ToInt32]: the operands of [&], [|], [~], [<<], [>>] are first
    wrapped to signed 32-bit integers. *)
Definition ToInt32 (z : Z) : Z := (z + 2 ^ 31) mod 2 ^ 32 - 2 ^ 31.

Definition and (a b : Z) : Z := Z.land (ToInt32 a) (ToInt32 b).
Definition or (a b : Z) : Z := Z.lor (ToInt32 a) (ToInt32 b).
Definition not (a : Z) : Z := Z.lnot (ToInt32 a).
Definition shl (a n : Z) : Z := ToInt32 (Z.shiftl (ToInt32 a) (n mod 32)).
Definition sar (a n : Z) : Z := Z.shiftr (ToInt32 a) (n mod 32).

(** Storing a number in a [Uint16Array] element. *)
Definition ToUint16 (z : Z) : Z := z mod 65536.

(** The double nearest to an integer, ties to the even significand: an
    integer below 2^53 in magnitude is a double; a larger one keeps its
    53 leading bits. *)
Definition double (z : Z) : Z :=
  if Z.abs z <? 2 ^ 53 then z
  else
    let e := Z.log2 (Z.abs z) - 52 in
    let q := Z.abs z / 2 ^ e in
    let r := Z.abs z mod 2 ^ e in
    let q := if (2 * r >? 2 ^ e) || ((2 * r =? 2 ^ e) && Z.odd q)
             then q + 1 else q in
    Z.sgn z * (q * 2 ^ e).

(** [a + b], [a - b] and [a * b] on numbers: the exact result, rounded
    once. *)
Definition add (a b : Z) : Z := double (a + b).
Definition sub (a b : Z) : Z := double (a - b).
Definition mul (a b : Z) : Z := double (a * b).

(** [x!] followed by arithmetic: [null] converts to 0. *)
Definition num (x : option Z) : Z := default 0 x.

(** [a < b] where [None] stands for [Infinity]. *)
Definition lt_inf (a b : option Z) : bool :=
  match a, b with
  | Some x, Some y => x <? y
  | Some _, None => true
  | None, _ => false
  end.

(** [a > b] on [number | null] operands: [null] converts to 0. *)
Definition gt_null (a b : option Z) : bool := num b <? num a.

End JS.

(** ** Exceptions

    A method that may [throw] runs on the receiver's state and returns
    either normally or with the thrown message, together with the state
    the receiver has at that point. *)

Inductive Result (A : Type) : Type :=
| Ok (a : A)
| Throw (msg : string).
Arguments Ok {A} a.
Arguments Throw {A} msg.

#[global] Instance Result_eq_dec {A} `{EqDecision A} : EqDecision (Result A).
Proof. solve_decision. Defined.

Definition Exc (S A : Type) : Type := S → Result A * S.

#[global] Instance Exc_ret {S} : MRet (Exc S) := fun A a s => (Ok a, s).
#[global] Instance Exc_bind {S} : MBind (Exc S) := fun A B k m s =>
  match m s with
  | (Ok a, s') => k a s'
  | (Throw msg, s') => (Throw msg, s')
  end.

Definition throw {S A} (msg : string) : Exc S A := fun s => (Throw msg, s).
Definition modify {S} (f : S → S) : Exc S () := fun s => (Ok (), f s).
Definition when {S} (b : bool) (m : Exc S ()) : Exc S () :=
  if b then m else mret ().

(** ** OpCode *)

Inductive OpCode : Set :=
| LOAD | STORE | BEQ | CALL | RET | ADD | SUB | NOR | MUL.

#[global] Instance OpCode_eq_dec : EqDecision OpCode.
Proof. solve_decision. Defined.

Module OpCode.
(** The numeric value of a member of the enum. *)
Definition code (op : OpCode) : Z :=
  match op with
  | LOAD => 0 | STORE => 1 | BEQ => 2 | CALL => 3 | RET => 4
  | ADD => 5 | SUB => 6 | NOR => 7 | MUL => 8
  end.
End OpCode.

(** [x == OpCode.K] for a number [x], as decoded from an instruction. *)
Definition is_op (x : Z) (op : OpCode) : bool := x =? OpCode.code op.

(** ** Instruction *)

Record Instruction : Set := mkInstruction {
  opcode : Z;
  rA : option Z;
  rB : option Z;
  rC : option Z;
  offset : option Z;
  label : option Z
}.

#[global] Instance Instruction_eq_dec : EqDecision Instruction.
Proof. solve_decision. Defined.

(** The argument object of the constructor. *)
Record InstructionInit : Set := mkInit {
  init_opcode : option Z;
  init_rA : option Z;
  init_rB : option Z;
  init_rC : option Z;
  init_offset : option Z;
  init_label : option Z
}.

Module Instruction.

Definition with_opcode (v : Z) (i : Instruction) : Instruction :=
  mkInstruction v (rA i) (rB i) (rC i) (offset i) (label i).
Definition with_rA (v : Z) (i : Instruction) : Instruction :=
  mkInstruction (opcode i) (Some v) (rB i) (rC i) (offset i) (label i).
Definition with_rB (v : Z) (i : Instruction) : Instruction :=
  mkInstruction (opcode i) (rA i) (Some v) (rC i) (offset i) (label i).
Definition with_rC (v : Z) (i : Instruction) : Instruction :=
  mkInstruction (opcode i) (rA i) (rB i) (Some v) (offset i) (label i).
Definition with_offset (v : Z) (i : Instruction) : Instruction :=
  mkInstruction (opcode i) (rA i) (rB i) (rC i) (Some v) (label i).
Definition with_label (v : Z) (i : Instruction) : Instruction :=
  mkInstruction (opcode i) (rA i) (rB i) (rC i) (offset i) (Some v).

Definition validateRegister (reg : Z) : Exc Instruction () :=
  when ((reg <? 0) || (reg >? 7))
    (throw "Invalid register number (must be 0-7)").

Definition setOpcode (op : Z) : Exc Instruction () :=
  modify (with_opcode op).

Definition setrA (r : Z) : Exc Instruction () :=
  validateRegister r ;; modify (with_rA r).

Definition setrB (r : Z) : Exc Instruction () :=
  validateRegister r ;; modify (with_rB r).

Definition setrC (r : Z) : Exc Instruction () :=
  validateRegister r ;; modify (with_rC r).

Definition setOffset (value : Z) : Exc Instruction () :=
  when ((value <? -16) || (value >? 15))
    (throw "Offset must be a 5-bit signed value (-16 to 15)") ;;
  modify (with_offset value).

Definition setLabel (l : Z) : Exc Instruction () :=
  when ((l <? -64) || (l >? 63))
    (throw "Label must be a 7-bit signed value (-64 to 63)") ;;
  modify (with_label l).

(** The object before the constructor body runs: [opcode] is
    initialised to [OpCode.ADD], the other fields are [undefined]. *)
Definition fresh : Instruction :=
  mkInstruction (OpCode.code ADD) None None None None None.

Definition ifdef {S} (x : option Z) (f : Z → Exc S ()) : Exc S () :=
  match x with Some v => f v | None => mret () end.

Definition constructor (init : InstructionInit) : Exc Instruction () :=
  ifdef (init_opcode init) setOpcode ;;
  ifdef (init_rA init) setrA ;;
  ifdef (init_rB init) setrB ;;
  ifdef (init_rC init) setrC ;;
  ifdef (init_offset init) setOffset ;;
  ifdef (init_label init) setLabel.

(** [new Instruction(init)]: the object exists only if the constructor
    returns. *)
Definition new (init : InstructionInit) : Result Instruction :=
  match constructor init fresh with
  | (Ok _, i) => Ok i
  | (Throw msg, _) => Throw msg
  end.

Definition encode (i : Instruction) : Z :=
  let value := 0 in
  let value := JS.or value (JS.shl (JS.and (opcode i) 0xf) 12) in
  let value :=
    if is_op (opcode i) CALL then
      let label := default 0 (label i) in
      let label := if label <? 0 then JS.and (label + 128) 0x7f else label in
      JS.or value (JS.and label 0x7f)
    else if is_op (opcode i) LOAD || is_op (opcode i) STORE
            || is_op (opcode i) BEQ then
      let value := JS.or value (JS.shl (JS.and (default 0 (rA i)) 0x7) 9) in
      let value := JS.or value (JS.shl (JS.and (default 0 (rB i)) 0x7) 6) in
      let offset := default 0 (offset i) in
      let offset :=
        if offset <? 0 then JS.and (offset + 32) 0x1f else offset in
      JS.or value (JS.and offset 0x1f)
    else
      let value := JS.or value (JS.shl (JS.and (default 0 (rA i)) 0x7) 9) in
      let value := JS.or value (JS.shl (JS.and (default 0 (rB i)) 0x7) 6) in
      JS.or value (JS.shl (JS.and (default 0 (rC i)) 0x7) 3)
  in
  JS.and value 0xffff.

Definition decode (encoded : Z) : Result Instruction :=
  let opcode := JS.and (JS.sar encoded 12) 0xf in
  if is_op opcode CALL then
    let label := JS.and encoded 0x7f in
    let label :=
      if negb (JS.and label 0x40 =? 0) then JS.or label 0xffffff80
      else label in
    new (mkInit (Some opcode) None None None None (Some label))
  else if is_op opcode LOAD || is_op opcode STORE || is_op opcode BEQ then
    let rA := JS.and (JS.sar encoded 9) 0x7 in
    let rB := JS.and (JS.sar encoded 6) 0x7 in
    let offset := JS.and encoded 0x1f in
    let offset :=
      if negb (JS.and offset 0x10 =? 0) then JS.or offset 0xffffffe0
      else offset in
    new (mkInit (Some opcode) (Some rA) (Some rB) None (Some offset) None)
  else
    let rA := JS.and (JS.sar encoded 9) 0x7 in
    let rB := JS.and (JS.sar encoded 6) 0x7 in
    let rC := JS.and (JS.sar encoded 3) 0x7 in
    new (mkInit (Some opcode) (Some rA) (Some rB) (Some rC) None None).

(** [clone] rebuilds the object through the constructor, from fields
    that already passed the setters. *)
Definition clone (i : Instruction) : Result Instruction :=
  new (mkInit (Some (opcode i)) (rA i) (rB i) (rC i) (offset i) (label i)).

End Instruction.

(** ** Valid instructions

    An instruction as the assembler builds it: exactly the fields of its
    opcode class are present, each within the range its setter accepts. *)

Definition reg_ok (r : Z) : Prop := 0 ≤ r ≤ 7.

Inductive valid : Instruction → Prop :=
| valid_mem op a b o :
    op = LOAD ∨ op = STORE ∨ op = BEQ →
    reg_ok a → reg_ok b → -16 ≤ o ≤ 15 →
    valid (mkInstruction (OpCode.code op) (Some a) (Some b) None (Some o) None)
| valid_call l :
    -64 ≤ l ≤ 63 →
    valid (mkInstruction (OpCode.code CALL) None None None None (Some l))
| valid_ret :
    valid (mkInstruction (OpCode.code RET) None None None None None)
| valid_alu op a b c :
    op = ADD ∨ op = SUB ∨ op = NOR ∨ op = MUL →
    reg_ok a → reg_ok b → reg_ok c →
    valid (mkInstruction (OpCode.code op) (Some a) (Some b) (Some c) None None).

(** What [decode] rebuilds from the word of a valid instruction: the
    register-format branch of [decode] also serves [RET], and fills the
    three register fields from the (zero) bits of the word. *)
Definition decoded_form (i : Instruction) : Instruction :=
  if is_op (opcode i) RET
  then mkInstruction (opcode i) (Some 0) (Some 0) (Some 0) None None
  else i.

(** Integers [lo, lo+1, ..., lo+n-1]. *)
Definition Zrange (lo : Z) (n : nat) : list Z :=
  map (fun k => lo + Z.of_nat k) (seq 0 n).

Definition regs : list Z := Zrange 0 8.

Definition roundtrips (i : Instruction) : bool :=
  bool_decide (Instruction.decode (Instruction.encode i) = Ok (decoded_form i)).

(** An optional field that, when present, lies in [lo, hi]. *)
Definition in_range (lo hi : Z) (x : option Z) : Prop :=
  match x with Some v => lo ≤ v ≤ hi | None => True end.

(** An optional field that is present and lies outside [lo, hi]. *)
Definition bad (lo hi : Z) (x : option Z) : Prop :=
  ∃ v, x = Some v ∧ (v < lo ∨ hi < v).

(** The sign-extension step of [decode]: [if (v & bit) v = v | ext]. *)
Definition sign_extend (bit ext v : Z) : Z :=
  if negb (JS.and v bit =? 0) then JS.or v ext else v.

(** The shape of a decoded instruction, by opcode class. *)
Inductive decoded : Instruction → Prop :=
| decoded_call op l :
    -64 ≤ l ≤ 63 →
    decoded (mkInstruction op None None None None (Some l))
| decoded_mem op a b o :
    0 ≤ a ≤ 7 → 0 ≤ b ≤ 7 → -16 ≤ o ≤ 15 →
    decoded (mkInstruction op (Some a) (Some b) None (Some o) None)
| decoded_reg op a b c :
    0 ≤ a ≤ 7 → 0 ≤ b ≤ 7 → 0 ≤ c ≤ 7 →
    decoded (mkInstruction op (Some a) (Some b) (Some c) None None).

(** [RET] as the assembler builds it: no operand field. *)
Definition RET_instruction : Instruction :=
  mkInstruction (OpCode.code RET) None None None None None.

(** ** Loose comparison of a station name with the number 0

    The Register-Status Table holds the number [0] or a station name,
    and the engine tests an entry with [entry == 0].  On a string operand
    [==] converts the string to a number: the test succeeds on an entry
    that is a name exactly when the name, trimmed of white space, is
    empty or a numeric literal of value zero. *)

Module StringToNumber.

Definition byte (c : ascii) : Z := Z.of_N (N_of_ascii c).

(** The white space and the line terminators that the conversion strips
    from both ends.  In ASCII: TAB, LF, VT, FF, CR and the space. *)
Definition is_ws (c : ascii) : bool :=
  let n := byte c in
  ((9 <=? n) && (n <=? 13)) || (n =? 32).

(** Beyond ASCII, by the bytes of the UTF-8 encoding: U+00A0 in two
    bytes; in three bytes U+1680, U+2000 to U+200A, U+2028, U+2029,
    U+202F, U+205F, U+3000 and U+FEFF. *)
Definition is_ws2 (a b : Z) : bool := (a =? 194) && (b =? 160).

Definition is_ws3 (a b c : Z) : bool :=
  ((a =? 225) && (b =? 154) && (c =? 128))
  || ((a =? 226) && (b =? 128)
      && (((128 <=? c) && (c <=? 138))
          || (c =? 168) || (c =? 169) || (c =? 175)))
  || ((a =? 226) && (b =? 129) && (c =? 159))
  || ((a =? 227) && (b =? 128) && (c =? 128))
  || ((a =? 239) && (b =? 187) && (c =? 191)).

Definition is_digit (c : ascii) : bool :=
  let n := Z.of_N (N_of_ascii c) in (48 <=? n) && (n <=? 57).

Definition digit_val (c : ascii) : Z := Z.of_N (N_of_ascii c) - 48.

(** Strips the white space at the head of [l]; with [back], [l] is a
    reversed string and the bytes of a character come last byte first. *)
Fixpoint drop_ws (back : bool) (l : list ascii) : list ascii :=
  match l with
  | c1 :: t1 =>
      if is_ws c1 then drop_ws back t1
      else
        match t1 with
        | c2 :: t2 =>
            if (if back then is_ws2 (byte c2) (byte c1)
                else is_ws2 (byte c1) (byte c2))
            then drop_ws back t2
            else
              match t2 with
              | c3 :: t3 =>
                  if (if back then is_ws3 (byte c3) (byte c2) (byte c1)
                      else is_ws3 (byte c1) (byte c2) (byte c3))
                  then drop_ws back t3
                  else l
              | [] => l
              end
        | [] => l
        end
  | [] => []
  end.

Definition trim (l : list ascii) : list ascii :=
  rev (drop_ws true (rev (drop_ws false l))).

Fixpoint span (p : ascii → bool) (l : list ascii)
  : list ascii * list ascii :=
  match l with
  | c :: t => if p c then let '(a, b) := span p t in (c :: a, b)
              else ([], l)
  | [] => ([], [])
  end.

Definition digits_val (l : list ascii) : Z :=
  fold_left (fun acc c => 10 * acc + digit_val c) l 0.

Definition is_nil {A} (l : list A) : bool :=
  match l with [] => true | _ => false end.

Definition strip_sign (l : list ascii) : bool * list ascii :=
  match l with
  | "+"%char :: t => (false, t)
  | "-"%char :: t => (true, t)
  | _ => (false, l)
  end.

(** The exponent part, if the rest of the literal is one. *)
Definition exponent (l : list ascii) : option Z :=
  match l with
  | [] => Some 0
  | c :: t =>
      if (Ascii.eqb c "e" || Ascii.eqb c "E")%char then
        let '(neg, t) := strip_sign t in
        let '(ds, rest) := span is_digit t in
        if is_nil ds || negb (is_nil rest) then None
        else Some (if neg then - digits_val ds else digits_val ds)
      else None
  end.

(** A decimal literal [M * 10^k] converts to zero when [M] is zero or
    the value rounds to zero, that is when it is at most [2^-1075]. *)
Definition decimal_is_zero (l : list ascii) : bool :=
  let '(_, l) := strip_sign l in
  let '(ip, r1) := span is_digit l in
  let '(fp, r2) :=
    match r1 with
    | "."%char :: t => span is_digit t
    | _ => ([], r1)
    end in
  if is_nil ip && is_nil fp then false
  else match exponent r2 with
       | None => false
       | Some e =>
           let m := digits_val (ip ++ fp) in
           let k := e - Z.of_nat (length fp) in
           (m =? 0) || ((k <? 0) && (m * 2 ^ 1075 <=? 10 ^ (- k)))
       end.

(** [0x..], [0o..], [0b..] literals: zero when every digit is [0]. *)
Definition prefixed_is_zero (l : list ascii) : bool :=
  match l with
  | "0"%char :: c :: t =>
      existsb (Ascii.eqb c) ["x"; "X"; "o"; "O"; "b"; "B"]%char
      && negb (is_nil t) && forallb (Ascii.eqb "0"%char) t
  | _ => false
  end.

Definition loose_eq_zero (s : string) : bool :=
  let l := trim (list_ascii_of_string s) in
  is_nil l || prefixed_is_zero l || decimal_is_zero l.

End StringToNumber.

(** ** ReservationStation *)

Record ReservationStation : Set := mkRS {
  name : string;
  unit : OpCode;
  busy : bool;
  Operation : option string;
  Vj : option Z;
  Vk : option Z;
  Qj : option string;
  Qk : option string;
  instruction : option Instruction;
  result : option Z;
  PC_Original : option Z;
  A : option Z;
  cycles_needed : Z;
  cycles_passed : Z;
  cycles_needed_to_compute_address : Z;
  cycles_needed_to_read_write_from_memory : Z
}.

#[global] Instance ReservationStation_eq_dec : EqDecision ReservationStation.
Proof. solve_decision. Defined.

Module ReservationStation.

Definition new (name : string) (unit : OpCode) (cycles_needed : Z)
    (cycles_needed_to_compute_address : Z)
    (cycles_needed_to_read_write_from_memory : Z) : ReservationStation :=
  mkRS name unit false None None None None None None None None None
       cycles_needed 0
       cycles_needed_to_compute_address
       cycles_needed_to_read_write_from_memory.

Definition set_busy (v : bool) (r : ReservationStation) :=
  mkRS (name r) (unit r) v (Operation r) (Vj r) (Vk r) (Qj r) (Qk r)
    (instruction r) (result r) (PC_Original r) (A r) (cycles_needed r)
    (cycles_passed r) (cycles_needed_to_compute_address r)
    (cycles_needed_to_read_write_from_memory r).
Definition set_Operation (v : option string) (r : ReservationStation) :=
  mkRS (name r) (unit r) (busy r) v (Vj r) (Vk r) (Qj r) (Qk r)
    (instruction r) (result r) (PC_Original r) (A r) (cycles_needed r)
    (cycles_passed r) (cycles_needed_to_compute_address r)
    (cycles_needed_to_read_write_from_memory r).
Definition set_Vj (v : option Z) (r : ReservationStation) :=
  mkRS (name r) (unit r) (busy r) (Operation r) v (Vk r) (Qj r) (Qk r)
    (instruction r) (result r) (PC_Original r) (A r) (cycles_needed r)
    (cycles_passed r) (cycles_needed_to_compute_address r)
    (cycles_needed_to_read_write_from_memory r).
Definition set_Vk (v : option Z) (r : ReservationStation) :=
  mkRS (name r) (unit r) (busy r) (Operation r) (Vj r) v (Qj r) (Qk r)
    (instruction r) (result r) (PC_Original r) (A r) (cycles_needed r)
    (cycles_passed r) (cycles_needed_to_compute_address r)
    (cycles_needed_to_read_write_from_memory r).
Definition set_Qj (v : option string) (r : ReservationStation) :=
  mkRS (name r) (unit r) (busy r) (Operation r) (Vj r) (Vk r) v (Qk r)
    (instruction r) (result r) (PC_Original r) (A r) (cycles_needed r)
    (cycles_passed r) (cycles_needed_to_compute_address r)
    (cycles_needed_to_read_write_from_memory r).
Definition set_Qk (v : option string) (r : ReservationStation) :=
  mkRS (name r) (unit r) (busy r) (Operation r) (Vj r) (Vk r) (Qj r) v
    (instruction r) (result r) (PC_Original r) (A r) (cycles_needed r)
    (cycles_passed r) (cycles_needed_to_compute_address r)
    (cycles_needed_to_read_write_from_memory r).
Definition set_instruction (v : option Instruction) (r : ReservationStation) :=
  mkRS (name r) (unit r) (busy r) (Operation r) (Vj r) (Vk r) (Qj r) (Qk r)
    v (result r) (PC_Original r) (A r) (cycles_needed r)
    (cycles_passed r) (cycles_needed_to_compute_address r)
    (cycles_needed_to_read_write_from_memory r).
Definition set_result (v : option Z) (r : ReservationStation) :=
  mkRS (name r) (unit r) (busy r) (Operation r) (Vj r) (Vk r) (Qj r) (Qk r)
    (instruction r) v (PC_Original r) (A r) (cycles_needed r)
    (cycles_passed r) (cycles_needed_to_compute_address r)
    (cycles_needed_to_read_write_from_memory r).
Definition set_PC_Original (v : option Z) (r : ReservationStation) :=
  mkRS (name r) (unit r) (busy r) (Operation r) (Vj r) (Vk r) (Qj r) (Qk r)
    (instruction r) (result r) v (A r) (cycles_needed r)
    (cycles_passed r) (cycles_needed_to_compute_address r)
    (cycles_needed_to_read_write_from_memory r).
Definition set_A (v : option Z) (r : ReservationStation) :=
  mkRS (name r) (unit r) (busy r) (Operation r) (Vj r) (Vk r) (Qj r) (Qk r)
    (instruction r) (result r) (PC_Original r) v (cycles_needed r)
    (cycles_passed r) (cycles_needed_to_compute_address r)
    (cycles_needed_to_read_write_from_memory r).
Definition set_cycles_passed (v : Z) (r : ReservationStation) :=
  mkRS (name r) (unit r) (busy r) (Operation r) (Vj r) (Vk r) (Qj r) (Qk r)
    (instruction r) (result r) (PC_Original r) (A r) (cycles_needed r)
    v (cycles_needed_to_compute_address r)
    (cycles_needed_to_read_write_from_memory r).

(** The block "Now clear all the fields" that ends every completion
    (STORE, BEQ, CALL/RET at Execute, the producers at WriteBack). *)
Definition release (r : ReservationStation) : ReservationStation :=
  set_cycles_passed 0 (set_PC_Original None (set_instruction None
    (set_Operation None (set_result None (set_A None (set_Vk None
      (set_Vj None (set_Qk None (set_Qj None (set_busy false r)))))))))).

(** The fields a taken branch clears in a station issued past it. *)
Definition squash (r : ReservationStation) : ReservationStation :=
  set_Vk None (set_Vj None (set_Qk None (set_Qj None
    (set_instruction None (set_result None (set_busy false r)))))).

(** The copy a completion stores in the WriteBack tracker. *)
Definition copy_for_tracker (r : ReservationStation) (ca cm : Z)
  : ReservationStation :=
  set_PC_Original (PC_Original r)
    (new (name r) (unit r) (cycles_needed r) ca cm).

End ReservationStation.

(** ** Tomasulo

    [Memory] is the 65536-word [Uint16Array], kept as the finite map of
    the words that were written (a word never written reads 0).
    [Registers] is the 8-word [Uint16Array].  [RegisterStatus] is the array
    of 8 entries created by the constructor; an entry is the number [0]
    ([None]) or the name of a station.  It is only indexed by register
    numbers that come out of [Instruction.decode], which lie in [0,7]
    (Lemma [decode_fields]), so no access falls outside the array.

    A history entry refers to its station by reference: by its index in
    [RS] for the Issued and Executed trackers, which store the live
    station object, and by a detached copy for the WriteBack tracker. *)

Record TrackerEntry (R : Type) : Type := mkEntry {
  t_Instruction : Instruction;
  t_clock : Z;
  t_RS : R
}.
Arguments mkEntry {R} _ _ _.
Arguments t_Instruction {R} _.
Arguments t_clock {R} _.
Arguments t_RS {R} _.

Record Tomasulo : Type := mkTomasulo {
  Memory : gmap Z Z;
  Registers : list Z;
  Instructions : list Instruction;
  RS : list ReservationStation;
  CDB : option Z;
  RegisterStatus : list (option string);
  PC : Z;
  IssuedTracker : list (TrackerEntry nat);
  ExecutedTracker : list (TrackerEntry nat);
  WriteBackTracker : list (TrackerEntry ReservationStation);
  clock : Z;
  isBranchPending : bool;
  branchMispredictions : Z;
  branchInstructions : Z;
  IssuedAfterBranch : Z;
  isJumpPending : bool
}.

Module Tomasulo.

Definition set_Memory (v : gmap Z Z) (s : Tomasulo) : Tomasulo :=
  mkTomasulo v (Registers s) (Instructions s) (RS s) (CDB s)
    (RegisterStatus s) (PC s) (IssuedTracker s) (ExecutedTracker s)
    (WriteBackTracker s) (clock s) (isBranchPending s)
    (branchMispredictions s) (branchInstructions s) (IssuedAfterBranch s)
    (isJumpPending s).
Definition set_Registers (v : list Z) (s : Tomasulo) : Tomasulo :=
  mkTomasulo (Memory s) v (Instructions s) (RS s) (CDB s)
    (RegisterStatus s) (PC s) (IssuedTracker s) (ExecutedTracker s)
    (WriteBackTracker s) (clock s) (isBranchPending s)
    (branchMispredictions s) (branchInstructions s) (IssuedAfterBranch s)
    (isJumpPending s).
Definition set_Instructions (v : list Instruction) (s : Tomasulo) : Tomasulo :=
  mkTomasulo (Memory s) (Registers s) v (RS s) (CDB s) (RegisterStatus s)
    (PC s) (IssuedTracker s) (ExecutedTracker s) (WriteBackTracker s)
    (clock s) (isBranchPending s) (branchMispredictions s)
    (branchInstructions s) (IssuedAfterBranch s) (isJumpPending s).
Definition set_RS (v : list ReservationStation) (s : Tomasulo) : Tomasulo :=
  mkTomasulo (Memory s) (Registers s) (Instructions s) v (CDB s)
    (RegisterStatus s) (PC s) (IssuedTracker s) (ExecutedTracker s)
    (WriteBackTracker s) (clock s) (isBranchPending s)
    (branchMispredictions s) (branchInstructions s) (IssuedAfterBranch s)
    (isJumpPending s).
Definition set_CDB (v : option Z) (s : Tomasulo) : Tomasulo :=
  mkTomasulo (Memory s) (Registers s) (Instructions s) (RS s) v
    (RegisterStatus s) (PC s) (IssuedTracker s) (ExecutedTracker s)
    (WriteBackTracker s) (clock s) (isBranchPending s)
    (branchMispredictions s) (branchInstructions s) (IssuedAfterBranch s)
    (isJumpPending s).
Definition set_RegisterStatus (v : list (option string)) (s : Tomasulo) : Tomasulo :=
  mkTomasulo (Memory s) (Registers s) (Instructions s) (RS s) (CDB s) v
    (PC s) (IssuedTracker s) (ExecutedTracker s) (WriteBackTracker s)
    (clock s) (isBranchPending s) (branchMispredictions s)
    (branchInstructions s) (IssuedAfterBranch s) (isJumpPending s).
Definition set_PC (v : Z) (s : Tomasulo) : Tomasulo :=
  mkTomasulo (Memory s) (Registers s) (Instructions s) (RS s) (CDB s)
    (RegisterStatus s) v (IssuedTracker s) (ExecutedTracker s)
    (WriteBackTracker s) (clock s) (isBranchPending s)
    (branchMispredictions s) (branchInstructions s) (IssuedAfterBranch s)
    (isJumpPending s).
Definition set_IssuedTracker (v : list (TrackerEntry nat)) (s : Tomasulo) : Tomasulo :=
  mkTomasulo (Memory s) (Registers s) (Instructions s) (RS s) (CDB s)
    (RegisterStatus s) (PC s) v (ExecutedTracker s) (WriteBackTracker s)
    (clock s) (isBranchPending s) (branchMispredictions s)
    (branchInstructions s) (IssuedAfterBranch s) (isJumpPending s).
Definition set_ExecutedTracker (v : list (TrackerEntry nat)) (s : Tomasulo) : Tomasulo :=
  mkTomasulo (Memory s) (Registers s) (Instructions s) (RS s) (CDB s)
    (RegisterStatus s) (PC s) (IssuedTracker s) v (WriteBackTracker s)
    (clock s) (isBranchPending s) (branchMispredictions s)
    (branchInstructions s) (IssuedAfterBranch s) (isJumpPending s).
Definition set_WriteBackTracker (v : list (TrackerEntry ReservationStation)) (s : Tomasulo) : Tomasulo :=
  mkTomasulo (Memory s) (Registers s) (Instructions s) (RS s) (CDB s)
    (RegisterStatus s) (PC s) (IssuedTracker s) (ExecutedTracker s) v
    (clock s) (isBranchPending s) (branchMispredictions s)
    (branchInstructions s) (IssuedAfterBranch s) (isJumpPending s).
Definition set_clock (v : Z) (s : Tomasulo) : Tomasulo :=
  mkTomasulo (Memory s) (Registers s) (Instructions s) (RS s) (CDB s)
    (RegisterStatus s) (PC s) (IssuedTracker s) (ExecutedTracker s)
    (WriteBackTracker s) v (isBranchPending s) (branchMispredictions s)
    (branchInstructions s) (IssuedAfterBranch s) (isJumpPending s).
Definition set_isBranchPending (v : bool) (s : Tomasulo) : Tomasulo :=
  mkTomasulo (Memory s) (Registers s) (Instructions s) (RS s) (CDB s)
    (RegisterStatus s) (PC s) (IssuedTracker s) (ExecutedTracker s)
    (WriteBackTracker s) (clock s) v (branchMispredictions s)
    (branchInstructions s) (IssuedAfterBranch s) (isJumpPending s).
Definition set_branchMispredictions (v : Z) (s : Tomasulo) : Tomasulo :=
  mkTomasulo (Memory s) (Registers s) (Instructions s) (RS s) (CDB s)
    (RegisterStatus s) (PC s) (IssuedTracker s) (ExecutedTracker s)
    (WriteBackTracker s) (clock s) (isBranchPending s) v
    (branchInstructions s) (IssuedAfterBranch s) (isJumpPending s).
Definition set_branchInstructions (v : Z) (s : Tomasulo) : Tomasulo :=
  mkTomasulo (Memory s) (Registers s) (Instructions s) (RS s) (CDB s)
    (RegisterStatus s) (PC s) (IssuedTracker s) (ExecutedTracker s)
    (WriteBackTracker s) (clock s) (isBranchPending s)
    (branchMispredictions s) v (IssuedAfterBranch s) (isJumpPending s).
Definition set_IssuedAfterBranch (v : Z) (s : Tomasulo) : Tomasulo :=
  mkTomasulo (Memory s) (Registers s) (Instructions s) (RS s) (CDB s)
    (RegisterStatus s) (PC s) (IssuedTracker s) (ExecutedTracker s)
    (WriteBackTracker s) (clock s) (isBranchPending s)
    (branchMispredictions s) (branchInstructions s) v (isJumpPending s).
Definition set_isJumpPending (v : bool) (s : Tomasulo) : Tomasulo :=
  mkTomasulo (Memory s) (Registers s) (Instructions s) (RS s) (CDB s)
    (RegisterStatus s) (PC s) (IssuedTracker s) (ExecutedTracker s)
    (WriteBackTracker s) (clock s) (isBranchPending s)
    (branchMispredictions s) (branchInstructions s) (IssuedAfterBranch s)
    v.

Import ReservationStation.

Definition Memory_length : Z := 65536.

(** [this.Memory[a]]; [None] is the [undefined] of a read outside. *)
Definition mem_get (m : gmap Z Z) (a : Z) : option Z :=
  if (0 <=? a) && (a <? Memory_length) then Some (default 0 (m !! a))
  else None.

(** [this.Memory[a] = v]. *)
Definition mem_put (a v : Z) (m : gmap Z Z) : gmap Z Z :=
  if (0 <=? a) && (a <? Memory_length) then <[a := JS.ToUint16 v]> m
  else m.

(** [this.Registers[r]] for a register field [r] of an instruction. *)
Definition reg_get (regs : list Z) (r : option Z) : option Z :=
  r ≫= fun r => if 0 <=? r then regs !! Z.to_nat r else None.

(** [this.Registers[i] = v]. *)
Definition reg_put (i : nat) (v : Z) (regs : list Z) : list Z :=
  <[i := JS.ToUint16 v]> regs.

(** [this.RegisterStatus[r]]; the outer [None] is [undefined]. *)
Definition status_get (t : list (option string)) (r : option Z)
  : option (option string) :=
  r ≫= fun r => if 0 <=? r then t !! Z.to_nat r else None.

(** [this.RegisterStatus[r] = v]. *)
Definition status_put (r : option Z) (v : option string)
    (t : list (option string)) : list (option string) :=
  match r with
  | Some r => if 0 <=? r then <[Z.to_nat r := v]> t else t
  | None => t
  end.

(** [entry == 0]. *)
Definition eq_zero (e : option (option string)) : bool :=
  match e with
  | Some None => true
  | Some (Some nm) => StringToNumber.loose_eq_zero nm
  | None => false
  end.

(** Operand capture: the value of register [r] if its status entry is
    0, otherwise the entry as a wait-tag.  The pair is ([V], [Q]). *)
Definition capture (s : Tomasulo) (r : option Z)
  : option Z * option string :=
  if eq_zero (status_get (RegisterStatus s) r)
  then (reg_get (Registers s) r, None)
  else (None, mjoin (status_get (RegisterStatus s) r)).

Definition capture_j (s : Tomasulo) (r : option Z)
    (element : ReservationStation) : ReservationStation :=
  set_Qj (capture s r).2 (set_Vj (capture s r).1 element).

Definition capture_k (s : Tomasulo) (r : option Z)
    (element : ReservationStation) : ReservationStation :=
  set_Qk (capture s r).2 (set_Vk (capture s r).1 element).

(** The search [for (const element of this.RS) if (element.busy ==
    false && element.unit == u) { ...; break; }]. *)
Definition allocate (u : OpCode) (s : Tomasulo)
  : option (nat * ReservationStation) :=
  list_find (fun element => busy element = false ∧ unit element = u) (RS s).

Definition push_Issued (instr : Instruction) (k : nat) (s : Tomasulo)
  : Tomasulo :=
  set_IssuedTracker (IssuedTracker s ++ [mkEntry instr (clock s) k]) s.

Definition count_after_branch (s : Tomasulo) : Tomasulo :=
  if isBranchPending s
  then set_IssuedAfterBranch (IssuedAfterBranch s + 1) s else s.

(** [instr.getrA()! == 0 ? 0 : element.name]. *)
Definition rename_target (instr : Instruction)
    (element : ReservationStation) : option string :=
  match rA instr with
  | Some 0 => None
  | _ => Some (name element)
  end.

Definition Issue_LOAD (instr : Instruction) (s : Tomasulo) : Tomasulo :=
  match allocate LOAD s with
  | None => s
  | Some (k, element) =>
      let element := capture_j s (rB instr) element in
      let element := set_busy true element in
      let element := set_Operation (Some "LOAD"%string) element in
      let element := set_instruction (Some instr) element in
      let element := set_PC_Original (Some (PC s)) element in
      let s := set_RegisterStatus
                 (status_put (rA instr) (rename_target instr element)
                    (RegisterStatus s)) s in
      let element := set_A (offset instr) element in
      let s := set_RS (<[k := element]> (RS s)) s in
      let s := push_Issued instr k s in
      let s := set_PC (PC s + 1) s in
      count_after_branch s
  end.

Definition Issue_STORE (instr : Instruction) (s : Tomasulo) : Tomasulo :=
  match allocate STORE s with
  | None => s
  | Some (k, element) =>
      let element := capture_j s (rB instr) element in
      let element := set_busy true element in
      let element := set_A (offset instr) element in
      let element := capture_k s (rA instr) element in
      let s := push_Issued instr k s in
      let element := set_instruction (Some instr) element in
      let element := set_PC_Original (Some (PC s)) element in
      let element := set_Operation (Some "STORE"%string) element in
      let s := set_RS (<[k := element]> (RS s)) s in
      let s := count_after_branch s in
      set_PC (PC s + 1) s
  end.

Definition alu_unit (instr : Instruction) : OpCode :=
  if is_op (opcode instr) MUL then MUL
  else if is_op (opcode instr) NOR then NOR
  else if is_op (opcode instr) ADD then ADD
  else ADD.

Definition alu_operation (instr : Instruction) : string :=
  if is_op (opcode instr) ADD then "ADD"
  else if is_op (opcode instr) SUB then "SUB"
  else if is_op (opcode instr) NOR then "NOR"
  else "MUL".

Definition Issue_ALU (instr : Instruction) (s : Tomasulo) : Tomasulo :=
  match allocate (alu_unit instr) s with
  | None => s
  | Some (k, element) =>
      let element := capture_j s (rB instr) element in
      let element := capture_k s (rC instr) element in
      let s := push_Issued instr k s in
      let element := set_busy true element in
      let element := set_instruction (Some instr) element in
      let element := set_PC_Original (Some (PC s)) element in
      let element := set_Operation (Some (alu_operation instr)) element in
      let s := set_RegisterStatus
                 (status_put (rA instr) (rename_target instr element)
                    (RegisterStatus s)) s in
      let s := set_RS (<[k := element]> (RS s)) s in
      let s := set_PC (PC s + 1) s in
      count_after_branch s
  end.

Definition Issue_BEQ (instr : Instruction) (s : Tomasulo) : Tomasulo :=
  match allocate BEQ s with
  | None => s
  | Some (k, element) =>
      let element := capture_j s (rA instr) element in
      let element := capture_k s (rB instr) element in
      let s := push_Issued instr k s in
      let element := set_A (offset instr) element in
      let s := count_after_branch s in
      let element := set_Operation (Some "BEQ"%string) element in
      let element := set_busy true element in
      let element := set_instruction (Some instr) element in
      let element := set_PC_Original (Some (PC s)) element in
      let s := set_RS (<[k := element]> (RS s)) s in
      let s := set_isBranchPending true s in
      let s := set_branchInstructions (branchInstructions s + 1) s in
      set_PC (PC s + 1) s
  end.

Definition Issue_CALL_RET (instr : Instruction) (s : Tomasulo) : Tomasulo :=
  match allocate CALL s with
  | None => s
  | Some (k, element) =>
      let element := set_busy true element in
      let element :=
        set_A (if is_op (opcode instr) CALL then label instr
               else reg_get (Registers s) (Some 1)) element in
      let element :=
        set_Operation
          (Some (if is_op (opcode instr) CALL then "CALL" else "RET")%string)
          element in
      let s := push_Issued instr k s in
      let element := set_instruction (Some instr) element in
      let element := set_PC_Original (Some (PC s)) element in
      let s := set_RS (<[k := element]> (RS s)) s in
      let s := set_isJumpPending true s in
      let s := set_PC (PC s + 1) s in
      count_after_branch s
  end.

(** [instr.clone()] always returns a copy of an instruction that came
    out of [decode] (Lemma [clone_decode]); the engine model stores the
    instruction itself.  [decode] never throws (Lemma [decode_total]),
    so the [catch] branch is dead; it is kept as written. *)
Definition Issue (s : Tomasulo) : Tomasulo :=
  if isJumpPending s then s
  else
    let instrAddr := PC s in
    if (instrAddr <? 0) || (instrAddr >=? Memory_length) then s
    else
      let encodedInstr := default 0 (mem_get (Memory s) instrAddr) in
      if encodedInstr =? 0 then s
      else
        match Instruction.decode encodedInstr with
        | Throw _ => set_PC (PC s + 1) s
        | Ok instr =>
            if PC s <? 65536 then
              if is_op (opcode instr) LOAD then Issue_LOAD instr s
              else if is_op (opcode instr) STORE then Issue_STORE instr s
              else if is_op (opcode instr) ADD || is_op (opcode instr) SUB
                      || is_op (opcode instr) NOR
                      || is_op (opcode instr) MUL then Issue_ALU instr s
              else if is_op (opcode instr) BEQ then Issue_BEQ instr s
              else if is_op (opcode instr) CALL
                      || is_op (opcode instr) RET then
                Issue_CALL_RET instr s
              else s
            else s
        end.

(** Mutation of the station object at index [k] of [this.RS]. *)
Definition upd (k : nat) (f : ReservationStation → ReservationStation)
    (s : Tomasulo) : Tomasulo :=
  set_RS (alter f k (RS s)) s.

Definition getLatestIssueClock (s : Tomasulo) (k : nat) : option Z :=
  let entries := filter (fun entry => t_RS entry = k) (IssuedTracker s) in
  match entries with
  | [] => None
  | e0 :: _ =>
      Some (foldl (fun latestClock entry =>
                     if t_clock entry >? latestClock then t_clock entry
                     else latestClock)
                  (t_clock e0) entries)
  end.

(** [element.instruction!.clone()] pushed on the Executed tracker with
    the live station.  A busy station always holds its instruction
    (Lemma [reachable_busy_instruction]); on a station without one the
    source would dereference [null], and the model pushes nothing. *)
Definition push_Executed (k : nat) (s : Tomasulo) : Tomasulo :=
  match RS s !! k ≫= instruction with
  | Some instrClone =>
      set_ExecutedTracker
        (ExecutedTracker s ++ [mkEntry instrClone (clock s) k]) s
  | None => s
  end.

(** The tail shared by the completions at Execute (STORE, BEQ, CALL and
    RET): Executed entry, WriteBack entry with a detached copy of the
    station, then the release of the station. *)
Definition complete (k : nat) (ca cm : Z) (s : Tomasulo) : Tomasulo :=
  match RS s !! k with
  | None => s
  | Some element =>
      let s := push_Executed k s in
      let s :=
        match instruction element with
        | Some instrClone =>
            set_WriteBackTracker
              (WriteBackTracker s ++
                 [mkEntry instrClone (clock s)
                    (copy_for_tracker element ca cm)]) s
        | None => s
        end in
      upd k release s
  end.

Definition any_station (p : nat → ReservationStation → bool)
    (s : Tomasulo) : bool :=
  existsb (fun x => x) (imap p (RS s)).

(** The address phase of LOAD and STORE: [element.A = element.Vj! +
    element.A!]. *)
Definition compute_address (k : nat) (s : Tomasulo) : Tomasulo :=
  match RS s !! k with
  | None => s
  | Some element =>
      if busy element
         && (cycles_passed element =? cycles_needed_to_compute_address element)
         && negb (isBranchPending s)
      then upd k (set_A (Some (JS.add (JS.num (Vj element))
                                 (JS.num (A element))))) s
      else s
  end.

Definition hazard_LOAD (k : nat) (element : ReservationStation)
    (s : Tomasulo) : bool :=
  any_station (fun j element2 =>
    bool_decide (unit element2 = STORE)
    && busy element2
    && bool_decide (A element2 = A element)
    && JS.lt_inf (getLatestIssueClock s j) (getLatestIssueClock s k)) s.

Definition hazard_STORE (k : nat) (element : ReservationStation)
    (s : Tomasulo) : bool :=
  any_station (fun j element2 =>
    (bool_decide (unit element2 = LOAD) || bool_decide (unit element2 = STORE))
    && busy element2
    && bool_decide (A element2 = A element)
    && JS.lt_inf (getLatestIssueClock s j) (getLatestIssueClock s k)) s.

Definition execute_LOAD (k : nat) (s : Tomasulo) : Tomasulo :=
  let s := compute_address k s in
  match RS s !! k with
  | None => s
  | Some element =>
      if busy element && (cycles_passed element =? cycles_needed element)
         && negb (isBranchPending s)
      then
        if hazard_LOAD k element s
        then upd k (set_cycles_passed (cycles_needed element - 1)) s
        else
          let s := upd k (set_result (A element ≫= mem_get (Memory s))) s in
          push_Executed k s
      else s
  end.

Definition execute_STORE (k : nat) (s : Tomasulo) : Tomasulo :=
  let s := compute_address k s in
  match RS s !! k with
  | None => s
  | Some element =>
      if busy element && (cycles_passed element =? cycles_needed element)
         && negb (isBranchPending s)
      then
        if hazard_STORE k element s
        then upd k (set_cycles_passed (cycles_needed element - 1)) s
        else
          let s :=
            match A element with
            | Some a => set_Memory (mem_put a (JS.num (Vk element)) (Memory s)) s
            | None => s
            end in
          complete k (cycles_needed_to_compute_address element)
            (cycles_needed_to_read_write_from_memory element) s
      else s
  end.

(** [this.IssuedTracker.splice(start)]: removes the elements from
    [start] to the end; a negative [start] counts from the end. *)
Definition splice_from {T} (start : Z) (l : list T) : list T :=
  let len := Z.of_nat (length l) in
  let start := if start <? 0 then Z.max (len + start) 0
               else Z.min start len in
  take (Z.to_nat start) l.

Definition branch_taken (element : ReservationStation) (s : Tomasulo)
  : Tomasulo :=
  let s := set_PC (JS.num (A element) + JS.num (PC_Original element) + 1) s in
  let s := set_isBranchPending false s in
  let s := set_branchMispredictions (branchMispredictions s + 1) s in
  let s := set_IssuedTracker
             (splice_from
                (Z.of_nat (length (IssuedTracker s)) - IssuedAfterBranch s)
                (IssuedTracker s)) s in
  let s := set_IssuedAfterBranch 0 s in
  set_RS (map (fun rs =>
                 if JS.gt_null (PC_Original rs) (PC_Original element)
                 then squash rs else rs) (RS s)) s.

Definition branch_not_taken (element : ReservationStation) (s : Tomasulo)
  : Tomasulo :=
  let s := set_PC (JS.num (PC_Original element) + 1) s in
  set_isBranchPending false s.

Definition execute_BEQ (k : nat) (s : Tomasulo) : Tomasulo :=
  match RS s !! k with
  | None => s
  | Some element =>
      if busy element && (cycles_passed element =? cycles_needed element)
      then
        let s := if bool_decide (Vj element = Vk element)
                 then branch_taken element s
                 else branch_not_taken element s in
        complete k 0 0 s
      else s
  end.

Definition execute_CALL (k : nat) (s : Tomasulo) : Tomasulo :=
  match RS s !! k with
  | None => s
  | Some element =>
      if busy element && (cycles_passed element =? cycles_needed element)
         && negb (isBranchPending s)
      then
        let s :=
          if bool_decide (Operation element = Some "CALL"%string) then
            let s := set_Registers
                       (reg_put 1 (JS.num (PC_Original element) + 1)
                          (Registers s)) s in
            let s := set_PC (JS.num (A element)) s in
            set_isJumpPending false s
          else s in
        let s :=
          if bool_decide (Operation element = Some "RET"%string) then
            let s := set_PC (JS.num (A element)) s in
            set_isJumpPending false s
          else s in
        complete k 0 0 s
      else s
  end.

(** The producers ADD/SUB, NOR and MUL: [compute] is the new [result]
    (the old one when the operation tag selects no assignment). *)
Definition execute_ALU (compute : ReservationStation → option Z)
    (k : nat) (s : Tomasulo) : Tomasulo :=
  match RS s !! k with
  | None => s
  | Some element =>
      if busy element && (cycles_passed element =? cycles_needed element)
         && negb (isBranchPending s)
      then push_Executed k (upd k (set_result (compute element)) s)
      else s
  end.

Definition compute_ADD (element : ReservationStation) : option Z :=
  let r := if bool_decide (Operation element = Some "ADD"%string)
           then Some (JS.add (JS.num (Vj element)) (JS.num (Vk element)))
           else result element in
  if bool_decide (Operation element = Some "SUB"%string)
  then Some (JS.sub (JS.num (Vj element)) (JS.num (Vk element)))
  else r.

Definition compute_NOR (element : ReservationStation) : option Z :=
  Some (JS.not (JS.or (JS.num (Vj element)) (JS.num (Vk element)))).

Definition compute_MUL (element : ReservationStation) : option Z :=
  Some (JS.mul (JS.num (Vj element)) (JS.num (Vk element))).

(** One iteration of [for (const element of this.RS)] in [execute]:
    the blocks are guarded by [element.unit], which never changes. *)
Definition execute_station (k : nat) (s : Tomasulo) : Tomasulo :=
  match unit <$> RS s !! k with
  | Some LOAD => execute_LOAD k s
  | Some STORE => execute_STORE k s
  | Some BEQ => execute_BEQ k s
  | Some CALL => execute_CALL k s
  | Some ADD => execute_ALU compute_ADD k s
  | Some NOR => execute_ALU compute_NOR k s
  | Some MUL => execute_ALU compute_MUL k s
  | Some RET | Some SUB | None => s
  end.

Definition execute (s : Tomasulo) : Tomasulo :=
  foldl (fun s k => execute_station k s) s (seq 0 (length (RS s))).

(** ** WriteBack *)

(** A broadcast on the common data bus: the producing station and the
    value put on [this.CDB]. *)
Record Broadcast : Set := mkBroadcast {
  b_station : nat;
  b_name : string;
  b_value : Z
}.

Definition wake (nm : string) (cdb : Z) (element2 : ReservationStation)
  : ReservationStation :=
  let element2 :=
    if bool_decide (Qj element2 = Some nm)
    then set_Qj None (set_Vj (Some cdb) element2) else element2 in
  if bool_decide (Qk element2 = Some nm)
  then set_Qk None (set_Vk (Some cdb) element2) else element2.

Definition producer (u : OpCode) : bool :=
  bool_decide (u = LOAD) || bool_decide (u = ADD) || bool_decide (u = NOR)
  || bool_decide (u = MUL).

(** The body of the inner [if] of [WriteBack], for the tracker entry
    [element] whose station [rs] sits at index [k] and holds [cdb]. *)
Definition broadcast (element : TrackerEntry nat) (k : nat)
    (rs : ReservationStation) (cdb : Z) (s : Tomasulo) : Tomasulo :=
  let s := set_CDB (Some cdb) s in
  let s :=
    match list_find (fun e => e = Some (name rs)) (RegisterStatus s) with
    | Some (i, _) =>
        let s := set_Registers
                   (reg_put i (if bool_decide (i = 0%nat) then 0 else cdb)
                      (Registers s)) s in
        set_RegisterStatus (<[i := None]> (RegisterStatus s)) s
    | None => s
    end in
  let s := set_RS (map (wake (name rs) cdb) (RS s)) s in
  let s := set_WriteBackTracker
             (WriteBackTracker s ++
                [mkEntry (t_Instruction element) (clock s)
                   (copy_for_tracker rs
                      (cycles_needed_to_compute_address rs)
                      (cycles_needed_to_read_write_from_memory rs))]) s in
  let s := upd k release s in
  set_CDB None s.

(** The loop [for (const element of this.IssuedTracker)], which ends at
    its first broadcast; the broadcasts performed are returned with the
    state. *)
Fixpoint WriteBack_loop (entries : list (TrackerEntry nat)) (s : Tomasulo)
  : list Broadcast * Tomasulo :=
  match entries with
  | [] => ([], s)
  | element :: rest =>
      match RS s !! t_RS element with
      | None => WriteBack_loop rest s
      | Some rs =>
          match result rs with
          | Some cdb =>
              if (cycles_passed rs >? cycles_needed rs)
                 && negb (isBranchPending s)
                 && bool_decide (CDB s = None)
                 && producer (unit rs)
              then ([mkBroadcast (t_RS element) (name rs) cdb],
                    broadcast element (t_RS element) rs cdb s)
              else WriteBack_loop rest s
          | None => WriteBack_loop rest s
          end
      end
  end.

Definition WriteBack_log (s : Tomasulo) : list Broadcast * Tomasulo :=
  WriteBack_loop (IssuedTracker s) s.

Definition WriteBack (s : Tomasulo) : Tomasulo := (WriteBack_log s).2.

Definition tick (rs : ReservationStation) : ReservationStation :=
  if negb (busy rs) then rs
  else if bool_decide (result rs ≠ None)
          && (cycles_passed rs =? cycles_needed rs)
  then set_cycles_passed (cycles_passed rs + 1) rs
  else if cycles_passed rs >? cycles_needed rs then rs
  else if bool_decide (Qj rs = None) && bool_decide (Qk rs = None)
  then set_cycles_passed (cycles_passed rs + 1) rs
  else rs.

Definition incrementCyclesPassed (s : Tomasulo) : Tomasulo :=
  set_RS (map tick (RS s)) s.

(** One cycle, with the broadcasts of its WriteBack phase. *)
Definition step_log (s : Tomasulo) : list Broadcast * Tomasulo :=
  let s := incrementCyclesPassed s in
  let s := Issue s in
  let s := execute s in
  let '(log, s) := WriteBack_log s in
  (log, set_clock (clock s + 1) s).

Definition step (s : Tomasulo) : Tomasulo := (step_log s).2.

Definition steps (n : nat) (s : Tomasulo) : Tomasulo := Nat.iter n step s.

(** ** Configuration *)

(** The engine as its constructor leaves it. *)
Definition new : Tomasulo :=
  mkTomasulo ∅ (replicate 8 0) [] [] None (replicate 8 None) 0 [] [] []
             0 false 0 0 0 false.

Definition addInstruction (instr : Instruction) (address : Z)
  : Exc Tomasulo () :=
  when ((address <? 0) || (address >=? Memory_length))
    (throw "Starting address out of bounds") ;;
  modify (fun s => set_Instructions (Instructions s ++ [instr]) s) ;;
  modify (fun s =>
    set_Memory (mem_put address (Instruction.encode instr) (Memory s)) s).

(** [this.Memory.set(data, address)] on a range that fits. *)
Fixpoint mem_put_all (data : list Z) (address : Z) (m : gmap Z Z)
  : gmap Z Z :=
  match data with
  | [] => m
  | w :: rest => mem_put_all rest (address + 1) (mem_put address w m)
  end.

Definition addData (data : list Z) (address : Z) : Exc Tomasulo () :=
  when ((address <? 0)
        || (address + Z.of_nat (length data) >? Memory_length))
    (throw "Memory access out of bounds") ;;
  modify (fun s => set_Memory (mem_put_all data address (Memory s)) s).

Definition addStartAddress (address : Z) : Exc Tomasulo () :=
  when ((address <? 0) || (address >=? Memory_length))
    (throw "Starting address out of bounds") ;;
  modify (set_PC address).

Definition addReservationStation (name : string) (unit : OpCode)
    (cycles_needed : Z) (cycles_needed_to_compute_address : Z)
    (cycles_needed_to_read_write_from_memory : Z) (s : Tomasulo)
  : Tomasulo :=
  set_RS (RS s ++ [ReservationStation.new name unit cycles_needed
                     cycles_needed_to_compute_address
                     cycles_needed_to_read_write_from_memory]) s.

(** [instructions.forEach((instr, index) => { ... })]: the bounds test of
    the callback, then [addInstruction], for each element in turn; a
    throw ends the loop where it stands. *)
Fixpoint addInstructions_from (instructions : list Instruction)
    (address index : Z) : Exc Tomasulo () :=
  match instructions with
  | [] => mret ()
  | instr :: rest =>
      when ((address + index <? 0) || (address + index >=? Memory_length))
        (throw "Memory access out of bounds") ;;
      addInstruction instr (address + index) ;;
      addInstructions_from rest address (index + 1)
  end.

Definition addInstructions (instructions : list Instruction) (address : Z)
  : Exc Tomasulo () :=
  addInstructions_from instructions address 0.

(** ** Queries on the history *)

(** [findIndex] of the first Issued entry of the station; [None] is the
    [Infinity] returned when there is none. *)
Definition getIssuedIndex (s : Tomasulo) (k : nat) : option nat :=
  fst <$> list_find (fun entry => t_RS entry = k) (IssuedTracker s).

Record InstructionStatus : Set := mkStatus {
  isIssued : bool;
  isExecuted : bool;
  isWrittenBack : bool;
  cycleIssued : option Z;
  cycleExecuted : option Z;
  cycleWrittenBack : option Z
}.

(** [entries.reduce((latest, current) => current.clock > latest.clock ?
    current : latest)?.clock], [undefined] on no entry. *)
Definition latest_clock {R} (entries : list (TrackerEntry R)) : option Z :=
  match entries with
  | [] => None
  | e0 :: rest =>
      Some (t_clock
              (foldl (fun latest current =>
                        if t_clock current >? t_clock latest then current
                        else latest) e0 rest))
  end.

(** [t.RS.PC_Original === address] on an entry that holds the live
    station. *)
Definition live_at (s : Tomasulo) (address : Z) (t : TrackerEntry nat)
  : Prop :=
  RS s !! t_RS t ≫= PC_Original = Some address.

(** The same test on an entry that holds a detached copy. *)
Definition copy_at (address : Z) (t : TrackerEntry ReservationStation)
  : Prop :=
  PC_Original (t_RS t) = Some address.

#[global] Instance live_at_dec s address t : Decision (live_at s address t).
Proof. unfold live_at. apply _. Defined.

#[global] Instance copy_at_dec address t : Decision (copy_at address t).
Proof. unfold copy_at. apply _. Defined.

Definition getInstructionStatus (s : Tomasulo) (address : Z)
  : InstructionStatus :=
  let issuedEntries := filter (live_at s address) (IssuedTracker s) in
  let executedEntries := filter (live_at s address) (ExecutedTracker s) in
  let writtenBackEntries := filter (copy_at address) (WriteBackTracker s) in
  mkStatus
    (0 <? Z.of_nat (length issuedEntries))
    (0 <? Z.of_nat (length executedEntries))
    (0 <? Z.of_nat (length writtenBackEntries))
    (latest_clock issuedEntries)
    (latest_clock executedEntries)
    (latest_clock writtenBackEntries).

End Tomasulo.

(** ** The driver script

    The configuration the repository's driver builds before it starts
    stepping: register file and two data words poked directly, five
    reservation stations, the five-instruction program at addresses 0..4
    and the start address. *)

Module Driver.

Import Tomasulo.

(** [new Instruction(init)] evaluated in a script that runs on the
    engine: a throwing constructor aborts the script. *)
Definition build (init : InstructionInit) : Exc Tomasulo Instruction :=
  fun s => (Instruction.new init, s).

Definition instr (op : OpCode) (a b c o l : option Z) : InstructionInit :=
  mkInit (Some (OpCode.code op)) a b c o l.

Definition stations : Exc Tomasulo () :=
  modify (addReservationStation "ADD1" ADD 2 0 0) ;;
  modify (addReservationStation "ADD2" ADD 2 0 0) ;;
  modify (addReservationStation "MUL1" MUL 3 0 0) ;;
  modify (addReservationStation "LOAD1" LOAD 2 1 1) ;;
  modify (addReservationStation "STORE1" STORE 2 1 1).

(** [mem101] is the word the script pokes at address 101 (the driver
    writes 77 there). *)
Definition setup (mem101 : Z) : Exc Tomasulo () :=
  modify (set_Registers (JS.ToUint16 <$> [0; 10; 5; 3; 2; 1; 7; 100])) ;;
  modify (fun s => set_Memory (mem_put 100 42 (Memory s)) s) ;;
  modify (fun s => set_Memory (mem_put 101 mem101 (Memory s)) s) ;;
  stations ;;
  i ← build (instr LOAD (Some 1) (Some 7) None (Some 0) None);
  addInstruction i 0 ;;
  i ← build (instr ADD (Some 2) (Some 1) (Some 3) None None);
  addInstruction i 1 ;;
  i ← build (instr ADD (Some 4) (Some 5) (Some 6) None None);
  addInstruction i 2 ;;
  i ← build (instr MUL (Some 5) (Some 2) (Some 4) None None);
  addInstruction i 3 ;;
  i ← build (instr STORE (Some 5) (Some 7) None (Some 1) None);
  addInstruction i 4 ;;
  addStartAddress 0.

Definition initial (mem101 : Z) : Tomasulo := (setup mem101 Tomasulo.new).2.

End Driver.

(** ** Two further programs

    Scripts in the style of the driver, used to run the engine on a
    store followed by a load of the same address, and on a taken branch
    followed by two instructions. *)

Module Scenario.

Import Tomasulo.

(** [MUL R5,R2,R4; STORE R5,1(R7); LOAD R1,1(R7)] with the driver's
    registers, latencies and data: the store waits for the product. *)
Definition store_load_setup : Exc Tomasulo () :=
  modify (set_Registers (JS.ToUint16 <$> [0; 10; 5; 3; 2; 1; 7; 100])) ;;
  modify (fun s => set_Memory (mem_put 101 77 (Memory s)) s) ;;
  modify (addReservationStation "MUL1" MUL 3 0 0) ;;
  modify (addReservationStation "LOAD1" LOAD 2 1 1) ;;
  modify (addReservationStation "STORE1" STORE 2 1 1) ;;
  i ← Driver.build (Driver.instr MUL (Some 5) (Some 2) (Some 4) None None);
  addInstruction i 0 ;;
  i ← Driver.build (Driver.instr STORE (Some 5) (Some 7) None (Some 1) None);
  addInstruction i 1 ;;
  i ← Driver.build (Driver.instr LOAD (Some 1) (Some 7) None (Some 1) None);
  addInstruction i 2 ;;
  addStartAddress 0.

Definition store_load : Tomasulo := (store_load_setup Tomasulo.new).2.

(** [BEQ R1,R2,+2; ADD R3,R4,R5; ADD R6,R4,R5] followed at address 3 by
    the instruction [last], with [R1 = R2]: the branch is taken to
    address 3 after the two additions behind it were issued. *)
Definition branch_setup (last : InstructionInit) : Exc Tomasulo () :=
  modify (set_Registers (JS.ToUint16 <$> [0; 5; 5; 30; 2; 1; 70; 100])) ;;
  modify (addReservationStation "BEQ1" BEQ 2 0 0) ;;
  modify (addReservationStation "ADD1" ADD 2 0 0) ;;
  modify (addReservationStation "ADD2" ADD 2 0 0) ;;
  i ← Driver.build (Driver.instr BEQ (Some 1) (Some 2) None (Some 2) None);
  addInstruction i 0 ;;
  i ← Driver.build (Driver.instr ADD (Some 3) (Some 4) (Some 5) None None);
  addInstruction i 1 ;;
  i ← Driver.build (Driver.instr ADD (Some 6) (Some 4) (Some 5) None None);
  addInstruction i 2 ;;
  i ← Driver.build last;
  addInstruction i 3 ;;
  addStartAddress 0.

(** The branch target holds [ADD R7,R3,R3], which reads the destination
    of a squashed addition. *)
Definition branch : Tomasulo :=
  (branch_setup (Driver.instr ADD (Some 7) (Some 3) (Some 3) None None)
     Tomasulo.new).2.

(** The branch target holds [ADD R7,R1,R2], which reads no register the
    squashed additions were to write. *)
Definition branch_independent : Tomasulo :=
  (branch_setup (Driver.instr ADD (Some 7) (Some 1) (Some 2) None None)
     Tomasulo.new).2.

(** The state in which the Execute phase of the third cycle finds the
    engine: the branch is about to complete. *)
Definition branch_resolving : Tomasulo :=
  Issue (incrementCyclesPassed (steps 2 branch)).

End Scenario.

(** ** Predicates on engine states *)

(** A station that is not in flight. *)
Definition idle_station (rs : ReservationStation) : Prop :=
  busy rs = false ∧ result rs = None.

(** An engine with nothing left to do: no station in flight, no jump
    pending, and the zero word at [PC]. *)
Definition idle (s : Tomasulo) : Prop :=
  Forall idle_station (RS s)
  ∧ isJumpPending s = false
  ∧ Tomasulo.mem_get (Memory s) (PC s) = Some 0.

(** Each operand slot of a station holds a value or a wait-tag, never
    both. *)
Definition operands_exclusive (rs : ReservationStation) : Prop :=
  (Vj rs ≠ None → Qj rs = None) ∧ (Vk rs ≠ None → Qk rs = None).

(** A station in flight holds the instruction it was issued for. *)
Definition holds_instruction (rs : ReservationStation) : Prop :=
  busy rs = true → instruction rs ≠ None.

(** A station as [addReservationStation] creates it. *)
Definition fresh_station (rs : ReservationStation) : Prop :=
  rs = ReservationStation.new (name rs) (unit rs) (cycles_needed rs)
         (cycles_needed_to_compute_address rs)
         (cycles_needed_to_read_write_from_memory rs).

(** An engine after its constructor and any configuration (stations
    added, program and data loaded, registers and start address set),
    before the first cycle. *)
Definition configured (s : Tomasulo) : Prop :=
  Forall fresh_station (RS s)
  ∧ CDB s = None
  ∧ RegisterStatus s = replicate 8 None
  ∧ length (Registers s) = 8%nat
  ∧ IssuedTracker s = [] ∧ ExecutedTracker s = [] ∧ WriteBackTracker s = []
  ∧ clock s = 0
  ∧ isBranchPending s = false ∧ isJumpPending s = false
  ∧ branchMispredictions s = 0 ∧ branchInstructions s = 0
  ∧ IssuedAfterBranch s = 0.

(** The states an engine goes through: a configured engine, stepped any
    number of times. *)
Inductive reachable : Tomasulo → Prop :=
| reachable_configured s : configured s → reachable s
| reachable_step s : reachable s → reachable (Tomasulo.step s).

(** The station holds an instruction fetched at an address beyond [pc]. *)
Definition issued_past (pc : Z) (rs : ReservationStation) : Prop :=
  ∃ pcj, PC_Original rs = Some pcj ∧ pc < pcj.

(** What a squash leaves of a station: not busy, no result, no
    instruction, empty operand slots. *)
Definition squashed (rs : ReservationStation) : Prop :=
  busy rs = false ∧ result rs = None ∧ instruction rs = None
  ∧ Vj rs = None ∧ Vk rs = None ∧ Qj rs = None ∧ Qk rs = None.

(** Register 0 holds 0. *)
Definition zero_register (s : Tomasulo) : Prop :=
  Registers s !! 0%nat = Some 0.

(** Register 0 is not renamed: its status entry is the number 0. *)
Definition zero_committed (s : Tomasulo) : Prop :=
  RegisterStatus s !! 0%nat = Some None.

(** The speculation counter never exceeds the length of the Issued
    tracker. *)
Definition counter_bounded (s : Tomasulo) : Prop :=
  0 ≤ IssuedAfterBranch s ≤ Z.of_nat (length (IssuedTracker s)).

(** ** Further predicates *)

(** An instruction object: every field that is present lies in the range
    its setter enforces. *)
Definition well_formed (i : Instruction) : Prop :=
  in_range 0 7 (rA i) ∧ in_range 0 7 (rB i) ∧ in_range 0 7 (rC i)
  ∧ in_range (-16) 15 (offset i) ∧ in_range (-64) 63 (label i).

(** [LOAD R0,0(R0)]. *)
Definition LOAD_R0 : Instruction :=
  mkInstruction (OpCode.code LOAD) (Some 0) (Some 0) None (Some 0) None.

(** What [addReservationStation] fixes of a station. *)
Definition station_config (rs : ReservationStation)
  : string * OpCode * Z * Z * Z :=
  (name rs, unit rs, cycles_needed rs,
   cycles_needed_to_compute_address rs,
   cycles_needed_to_read_write_from_memory rs).

Definition same_config (rs rs' : ReservationStation) : Prop :=
  station_config rs' = station_config rs.

(** What [Issue] leaves of the station it fills: its configuration, its
    result and its cycle counter. *)
Definition issue_frame (rs rs' : ReservationStation) : Prop :=
  station_config rs' = station_config rs
  ∧ result rs' = result rs
  ∧ cycles_passed rs' = cycles_passed rs.

(** A change of a station that cannot make it ready for write-back: it
    keeps result and counter, or ends without result, or ends with a
    counter that does not exceed the latency. *)
Definition not_newly_ready (rs rs' : ReservationStation) : Prop :=
  cycles_needed rs' = cycles_needed rs
  ∧ ((result rs' = result rs ∧ cycles_passed rs' = cycles_passed rs)
     ∨ result rs' = None
     ∨ cycles_passed rs' ≤ cycles_needed rs').

(** The two together: what Issue and Execute may do to a station. *)
Definition settled (a b : ReservationStation) : Prop :=
  same_config a b ∧ not_newly_ready a b.

(** The test of [WriteBack] on an Issued entry, apart from the two
    conditions on the engine ([isBranchPending] and [CDB]): the station
    holds a result, its counter exceeds its latency, and its unit is a
    producer. *)
Definition ready_to_write_back (s : Tomasulo) (e : TrackerEntry nat) : bool :=
  match RS s !! t_RS e with
  | Some rs =>
      bool_decide (result rs ≠ None)
      && (cycles_passed rs >? cycles_needed rs)
      && Tomasulo.producer (unit rs)
  | None => false
  end.

(** [l'] is [l] followed by entries stamped with a clock in [lo, hi). *)
Definition appended {R} (lo hi : Z) (l l' : list (TrackerEntry R)) : Prop :=
  ∃ t, l' = l ++ t ∧ Forall (fun e => lo ≤ t_clock e < hi) t.

(** What a phase of a cycle may do to the two completion trackers: it
    keeps the clock and only appends entries stamped with it. *)
Definition logs_grow (s s' : Tomasulo) : Prop :=
  clock s' = clock s
  ∧ appended (clock s) (clock s + 1) (ExecutedTracker s) (ExecutedTracker s')
  ∧ appended (clock s) (clock s + 1) (WriteBackTracker s) (WriteBackTracker s').

(** A station whose counter went past its latency without a result:
    Execute acts on a station only when the counter equals the latency. *)
Definition missed (rs : ReservationStation) : Prop :=
  cycles_needed rs < cycles_passed rs ∧ result rs = None.

(** A change of a station that keeps it in that condition. *)
Definition stays_missed (a b : ReservationStation) : Prop :=
  same_config a b
  ∧ (missed a → result b = None ∧ cycles_passed b = cycles_passed a).

(** ** Further states and programs *)

(** [Scenario.branch] with [R2 = 6]: the branch at address 0 compares
    unequal registers.  The state is the one in which the Execute phase of
    the third cycle finds the engine. *)
Definition branch_falling : Tomasulo :=
  Tomasulo.Issue (Tomasulo.incrementCyclesPassed
    (Tomasulo.steps 2
       (Tomasulo.set_Registers [0; 5; 6; 30; 2; 1; 70; 100] Scenario.branch))).

(** One CALL station of latency 1 and the program [CALL 5] at address 7,
    in the state in which the Execute phase of the second cycle finds the
    engine. *)
Definition call_setup : Exc Tomasulo () :=
  modify (Tomasulo.addReservationStation "CALL1" CALL 1 0 0) ;;
  i ← Driver.build (Driver.instr CALL None None None None (Some 5));
  Tomasulo.addInstruction i 7 ;;
  Tomasulo.addStartAddress 7.

Definition call_resolving : Tomasulo :=
  Tomasulo.Issue (Tomasulo.incrementCyclesPassed
    (Tomasulo.steps 1 (call_setup Tomasulo.new).2)).

(** [STORE R5,1(R7); LOAD R1,1(R7)] with a slow STORE station (latency
    5, address after 1 cycle) and the driver's LOAD station: the load is
    ready to read while the store, whose address is known, is still in
    flight. *)
Definition slow_store_setup : Exc Tomasulo () :=
  modify (Tomasulo.set_Registers
            (JS.ToUint16 <$> [0; 10; 5; 3; 2; 1; 7; 100])) ;;
  modify (fun s => Tomasulo.set_Memory
                     (Tomasulo.mem_put 101 77 (Memory s)) s) ;;
  modify (Tomasulo.addReservationStation "STORE1" STORE 5 1 4) ;;
  modify (Tomasulo.addReservationStation "LOAD1" LOAD 2 1 1) ;;
  i ← Driver.build (Driver.instr STORE (Some 5) (Some 7) None (Some 1) None);
  Tomasulo.addInstruction i 0 ;;
  i ← Driver.build (Driver.instr LOAD (Some 1) (Some 7) None (Some 1) None);
  Tomasulo.addInstruction i 1 ;;
  Tomasulo.addStartAddress 0.

(** The state in which the Execute phase of the fourth cycle finds that
    engine. *)
Definition load_behind_store : Tomasulo :=
  Tomasulo.Issue (Tomasulo.incrementCyclesPassed
    (Tomasulo.steps 3 (slow_store_setup Tomasulo.new).2)).

(** [BEQ R1,R2,+2; ADD R3,R4,R5] with [R1 ≠ R2], a BEQ station of
    latency 5 and an ADD station of latency 2: the addition is issued
    behind the branch with both operands ready. *)
Definition slow_branch_setup : Exc Tomasulo () :=
  modify (Tomasulo.set_Registers
            (JS.ToUint16 <$> [0; 5; 6; 30; 2; 1; 70; 100])) ;;
  modify (Tomasulo.addReservationStation "BEQ1" BEQ 5 0 0) ;;
  modify (Tomasulo.addReservationStation "ADD1" ADD 2 0 0) ;;
  i ← Driver.build (Driver.instr BEQ (Some 1) (Some 2) None (Some 2) None);
  Tomasulo.addInstruction i 0 ;;
  i ← Driver.build (Driver.instr ADD (Some 3) (Some 4) (Some 5) None None);
  Tomasulo.addInstruction i 1 ;;
  Tomasulo.addStartAddress 0.

Definition slow_branch : Tomasulo := (slow_branch_setup Tomasulo.new).2.

(** The unit of the station an instruction needs, by its opcode: LOAD,
    STORE and BEQ have stations of their own, CALL and RET share the CALL
    stations, ADD and SUB share the ADD stations, NOR and MUL have their
    own. *)
Definition needed_unit (opcode : Z) : option OpCode :=
  if is_op opcode LOAD then Some LOAD
  else if is_op opcode STORE then Some STORE
  else if is_op opcode BEQ then Some BEQ
  else if is_op opcode CALL || is_op opcode RET then Some CALL
  else if is_op opcode ADD || is_op opcode SUB then Some ADD
  else if is_op opcode NOR then Some NOR
  else if is_op opcode MUL then Some MUL
  else None.

(** [MUL R7,R0,R0; BEQ R7,R0,+3; ADD R3,R4,R5; BEQ R1,R2,+0] with
    [R1 ≠ R2], two BEQ stations of latency 1, an ADD station of latency 2
    and a MUL station of latency 10: the first branch waits for the
    product while the addition and the second branch are issued behind
    it. *)
Definition nested_branch_setup : Exc Tomasulo () :=
  modify (Tomasulo.set_Registers
            (JS.ToUint16 <$> [0; 5; 6; 30; 2; 1; 70; 100])) ;;
  modify (Tomasulo.addReservationStation "BEQ1" BEQ 1 0 0) ;;
  modify (Tomasulo.addReservationStation "BEQ2" BEQ 1 0 0) ;;
  modify (Tomasulo.addReservationStation "ADD1" ADD 2 0 0) ;;
  modify (Tomasulo.addReservationStation "MUL1" MUL 10 0 0) ;;
  i ← Driver.build (Driver.instr MUL (Some 7) (Some 0) (Some 0) None None);
  Tomasulo.addInstruction i 0 ;;
  i ← Driver.build (Driver.instr BEQ (Some 7) (Some 0) None (Some 3) None);
  Tomasulo.addInstruction i 1 ;;
  i ← Driver.build (Driver.instr ADD (Some 3) (Some 4) (Some 5) None None);
  Tomasulo.addInstruction i 2 ;;
  i ← Driver.build (Driver.instr BEQ (Some 1) (Some 2) None (Some 0) None);
  Tomasulo.addInstruction i 3 ;;
  Tomasulo.addStartAddress 0.

Definition nested_branch : Tomasulo := (nested_branch_setup Tomasulo.new).2.

(** [ADD R0,R1,R2] with the driver's registers and one ADD station: an
    instruction whose destination is register 0. *)
Definition zero_target_setup : Exc Tomasulo () :=
  modify (Tomasulo.set_Registers
            (JS.ToUint16 <$> [0; 10; 5; 3; 2; 1; 7; 100])) ;;
  modify (Tomasulo.addReservationStation "ADD1" ADD 2 0 0) ;;
  i ← Driver.build (Driver.instr ADD (Some 0) (Some 1) (Some 2) None None);
  Tomasulo.addInstruction i 0 ;;
  Tomasulo.addStartAddress 0.

Definition zero_target : Tomasulo := (zero_target_setup Tomasulo.new).2.

(** The same engine after its first cycle, with the status entry of
    register 0 overwritten with the name of the station in flight: the
    state the rename guard of Issue keeps the engine out of. *)
Definition zero_renamed : Tomasulo :=
  Tomasulo.set_RegisterStatus
    (<[0%nat := Some "ADD1"%string]>
       (RegisterStatus (Tomasulo.steps 1 zero_target)))
    (Tomasulo.steps 1 zero_target).

(** [CALL -3; ADD R3,R4,R5] with a CALL station of latency 3 and an ADD
    station: the addition is at [PC] with its station free while the jump
    is pending, and the jump leaves [PC] at -3. *)
Definition jump_stall_setup : Exc Tomasulo () :=
  modify (Tomasulo.set_Registers
            (JS.ToUint16 <$> [0; 10; 5; 3; 2; 1; 7; 100])) ;;
  modify (Tomasulo.addReservationStation "CALL1" CALL 3 0 0) ;;
  modify (Tomasulo.addReservationStation "ADD1" ADD 2 0 0) ;;
  i ← Driver.build (Driver.instr CALL None None None None (Some (-3)));
  Tomasulo.addInstruction i 0 ;;
  i ← Driver.build (Driver.instr ADD (Some 3) (Some 4) (Some 5) None None);
  Tomasulo.addInstruction i 1 ;;
  Tomasulo.addStartAddress 0.

Definition jump_stall : Tomasulo := (jump_stall_setup Tomasulo.new).2.

(** [ADD R3,R4,R5; ADD R6,R4,R5] with a single ADD station: the second
    addition is at [PC] while the only station is busy with the first. *)
Definition single_station_setup : Exc Tomasulo () :=
  modify (Tomasulo.set_Registers
            (JS.ToUint16 <$> [0; 10; 5; 3; 2; 1; 7; 100])) ;;
  modify (Tomasulo.addReservationStation "ADD1" ADD 2 0 0) ;;
  i ← Driver.build (Driver.instr ADD (Some 3) (Some 4) (Some 5) None None);
  Tomasulo.addInstruction i 0 ;;
  i ← Driver.build (Driver.instr ADD (Some 6) (Some 4) (Some 5) None None);
  Tomasulo.addInstruction i 1 ;;
  Tomasulo.addStartAddress 0.

Definition single_station : Tomasulo := (single_station_setup Tomasulo.new).2.

(** [ADD R3,R4,R5] in the last word of memory, with one ADD station and
    the start address there: issuing it leaves [PC] at 65536. *)
Definition last_word_setup : Exc Tomasulo () :=
  modify (Tomasulo.set_Registers
            (JS.ToUint16 <$> [0; 10; 5; 3; 2; 1; 7; 100])) ;;
  modify (Tomasulo.addReservationStation "ADD1" ADD 2 0 0) ;;
  modify (Tomasulo.addReservationStation "ADD2" ADD 2 0 0) ;;
  i ← Driver.build (Driver.instr ADD (Some 3) (Some 4) (Some 5) None None);
  Tomasulo.addInstruction i 65535 ;;
  Tomasulo.addStartAddress 65535.

Definition last_word : Tomasulo := (last_word_setup Tomasulo.new).2.

(** * Theorems *)

(** ** The codec *)

Section Codec.

Import Instruction.

Lemma range_test lo hi v : lo ≤ v ≤ hi → (v <? lo) || (v >? hi) = false.
Proof. intros. apply orb_false_iff. split; lia. Qed.

(** The constructor accepts every argument object whose fields lie in
    the ranges of the setters, and stores the fields as given. *)
Lemma new_ok op a b c o l :
  in_range 0 7 a → in_range 0 7 b → in_range 0 7 c →
  in_range (-16) 15 o → in_range (-64) 63 l →
  new (mkInit (Some op) a b c o l) = Ok (mkInstruction op a b c o l).
Proof.
  intros Ha Hb Hc Ho Hl.
  unfold new, constructor, setrA, setrB, setrC, setOffset, setLabel,
    setOpcode, validateRegister, ifdef, when, modify, throw.
  destruct a, b, c, o, l; simpl in *;
    unfold mbind, Exc_bind, mret, Exc_ret; simpl;
    rewrite ?(range_test 0 7), ?(range_test (-16) 15),
      ?(range_test (-64) 63) by assumption;
    reflexivity.
Qed.

(** Masking with [2^n - 1] leaves the low [n] bits. *)
Lemma and_ones x n :
  0 ≤ n ≤ 30 → JS.and x (Z.ones n) = JS.ToInt32 x mod 2 ^ n.
Proof.
  intros Hn. unfold JS.and.
  replace (JS.ToInt32 (Z.ones n)) with (Z.ones n).
  - apply Z.land_ones. lia.
  - unfold JS.ToInt32. rewrite Z.ones_equiv.
    assert (2 ^ n ≤ 2 ^ 30) by (apply Z.pow_le_mono_r; lia).
    assert (0 < 2 ^ n) by (apply Z.pow_pos_nonneg; lia).
    rewrite Z.mod_small; lia.
Qed.

Lemma and_7 x : 0 ≤ JS.and x 7 ≤ 7.
Proof.
  assert (JS.and x 7 = JS.ToInt32 x mod 8) as ->
    by (apply (and_ones x 3); lia).
  pose proof (Z.mod_pos_bound (JS.ToInt32 x) 8). lia.
Qed.

Lemma and_31 x : 0 ≤ JS.and x 31 ≤ 31.
Proof.
  assert (JS.and x 31 = JS.ToInt32 x mod 32) as ->
    by (apply (and_ones x 5); lia).
  pose proof (Z.mod_pos_bound (JS.ToInt32 x) 32). lia.
Qed.

Lemma and_127 x : 0 ≤ JS.and x 127 ≤ 127.
Proof.
  assert (JS.and x 127 = JS.ToInt32 x mod 128) as ->
    by (apply (and_ones x 7); lia).
  pose proof (Z.mod_pos_bound (JS.ToInt32 x) 128). lia.
Qed.

Lemma Zrange_In lo n z : lo ≤ z < lo + Z.of_nat n → In z (Zrange lo n).
Proof.
  intros H. unfold Zrange. apply in_map_iff.
  exists (Z.to_nat (z - lo)). split; [lia|]. apply in_seq. lia.
Qed.

Lemma sign_extend_5 v :
  0 ≤ v ≤ 31 → -16 ≤ sign_extend 0x10 0xffffffe0 v ≤ 15.
Proof.
  intros H.
  assert (Hall : forallb (fun v => (-16 <=? sign_extend 0x10 0xffffffe0 v)
                   && (sign_extend 0x10 0xffffffe0 v <=? 15))
                   (Zrange 0 32) = true) by (vm_compute; reflexivity).
  rewrite forallb_forall in Hall.
  specialize (Hall v (Zrange_In 0 32 v ltac:(lia))). lia.
Qed.

Lemma sign_extend_7 v :
  0 ≤ v ≤ 127 → -64 ≤ sign_extend 0x40 0xffffff80 v ≤ 63.
Proof.
  intros H.
  assert (Hall : forallb (fun v => (-64 <=? sign_extend 0x40 0xffffff80 v)
                   && (sign_extend 0x40 0xffffff80 v <=? 63))
                   (Zrange 0 128) = true) by (vm_compute; reflexivity).
  rewrite forallb_forall in Hall.
  specialize (Hall v (Zrange_In 0 128 v ltac:(lia))). lia.
Qed.

(** [decode] is total: it never throws, and its registers, offset and
    label lie in the ranges of the setters. *)
Lemma decode_fields w : ∃ i, decode w = Ok i ∧ decoded i.
Proof.
  unfold decode.
  pose proof (and_7 (JS.sar w 9)). pose proof (and_7 (JS.sar w 6)).
  pose proof (and_7 (JS.sar w 3)).
  pose proof (sign_extend_5 _ (and_31 w)) as H5.
  pose proof (sign_extend_7 _ (and_127 w)) as H7.
  unfold sign_extend in H5, H7.
  repeat case_match; (rewrite new_ok by (simpl; auto; lia));
    eexists; (split; [reflexivity|]); constructor; lia.
Qed.

Lemma decode_total w : ∃ i, decode w = Ok i.
Proof. destruct (decode_fields w) as (i & H & _). eauto. Qed.

(** [clone] of a decoded instruction returns the instruction. *)
Lemma clone_decode w i : decode w = Ok i → clone i = Ok i.
Proof.
  intros H. destruct (decode_fields w) as (i' & H' & Hd).
  rewrite H in H'. injection H' as <-.
  unfold clone. destruct Hd; simpl; apply new_ok; simpl; auto; lia.
Qed.

Lemma roundtrips_spec i :
  roundtrips i = true → decode (encode i) = Ok (decoded_form i).
Proof. unfold roundtrips. apply bool_decide_eq_true_1. Qed.

Lemma forallb_In {T} (f : T → bool) l x :
  forallb f l = true → In x l → f x = true.
Proof. intros H. apply forallb_forall. exact H. Qed.

Lemma regs_In r : reg_ok r → In r regs.
Proof. intros H. apply Zrange_In. unfold reg_ok in H. lia. Qed.

(** The round trip, checked on every instruction of each class. *)
Lemma mem_roundtrips op :
  op = LOAD ∨ op = STORE ∨ op = BEQ →
  forallb (fun a => forallb (fun b => forallb (fun o =>
    roundtrips
      (mkInstruction (OpCode.code op) (Some a) (Some b) None (Some o) None))
    (Zrange (-16) 32)) regs) regs = true.
Proof. intros [-> | [-> | ->]]; vm_cast_no_check (eq_refl true). Qed.

Lemma alu_roundtrips op :
  op = ADD ∨ op = SUB ∨ op = NOR ∨ op = MUL →
  forallb (fun a => forallb (fun b => forallb (fun c =>
    roundtrips
      (mkInstruction (OpCode.code op) (Some a) (Some b) (Some c) None None))
    regs) regs) regs = true.
Proof. intros [-> | [-> | [-> | ->]]]; vm_cast_no_check (eq_refl true). Qed.

Lemma call_roundtrips :
  forallb (fun l =>
    roundtrips (mkInstruction (OpCode.code CALL) None None None None (Some l)))
    (Zrange (-64) 128) = true.
Proof. vm_cast_no_check (eq_refl true). Qed.

(** Every valid instruction decodes, from its own word, to its
    [decoded_form]. *)
Lemma decode_encode_form i :
  valid i → decode (encode i) = Ok (decoded_form i).
Proof.
  intros Hv. apply roundtrips_spec.
  destruct Hv as [op a b o Hop Ha Hb Ho | l Hl | | op a b c Hop Ha Hb Hc].
  - assert (Ho' : In o (Zrange (-16) 32)) by (apply Zrange_In; lia).
    pose proof (forallb_In _ _ a (mem_roundtrips op Hop) (regs_In a Ha)) as H1.
    cbv beta in H1.
    pose proof (forallb_In _ _ b H1 (regs_In b Hb)) as H2. cbv beta in H2.
    exact (forallb_In _ _ o H2 Ho').
  - assert (Hl' : In l (Zrange (-64) 128)) by (apply Zrange_In; lia).
    exact (forallb_In _ _ l call_roundtrips Hl').
  - vm_compute. reflexivity.
  - pose proof (forallb_In _ _ a (alu_roundtrips op Hop) (regs_In a Ha)) as H1.
    cbv beta in H1.
    pose proof (forallb_In _ _ b H1 (regs_In b Hb)) as H2. cbv beta in H2.
    exact (forallb_In _ _ c H2 (regs_In c Hc)).
Qed.

End Codec.

(** C1, as stated, fails on [RET]: the only valid [RET] instruction has
    no operand field, and decoding its word yields a [RET] whose three
    register fields are 0. *)
Lemma roundtrip_fails_on_RET :
  valid RET_instruction ∧
  Instruction.decode (Instruction.encode RET_instruction) ≠ Ok RET_instruction.
Proof. split; [constructor | vm_compute; discriminate]. Qed.

(** C1, amended: for every valid instruction [i] other than [RET],
    [decode (encode i)] is [i]; for the valid [RET] instruction it is the
    [RET] instruction with [rA = rB = rC = 0]. *)
Theorem decode_encode_valid i :
  valid i →
  (opcode i ≠ OpCode.code RET →
     Instruction.decode (Instruction.encode i) = Ok i) ∧
  (opcode i = OpCode.code RET →
     Instruction.decode (Instruction.encode i)
     = Ok (mkInstruction (OpCode.code RET) (Some 0) (Some 0) (Some 0) None None)).
Proof.
  intros Hv. pose proof (decode_encode_form i Hv) as H.
  unfold decoded_form, is_op in H. split; intros Hop.
  - destruct (Z.eqb_spec (opcode i) (OpCode.code RET)); [contradiction | exact H].
  - rewrite H. rewrite Hop. reflexivity.
Qed.

Lemma decode_encode_valid_witness :
  valid (mkInstruction (OpCode.code BEQ) (Some 1) (Some 2) None (Some (-3)) None)
  ∧ Instruction.decode
      (Instruction.encode
         (mkInstruction (OpCode.code BEQ) (Some 1) (Some 2) None (Some (-3)) None))
    = Ok (mkInstruction (OpCode.code BEQ) (Some 1) (Some 2) None (Some (-3)) None).
Proof.
  assert (Hv : valid (mkInstruction (OpCode.code BEQ) (Some 1) (Some 2) None
                        (Some (-3)) None)).
  { apply (valid_mem BEQ); unfold reg_ok; auto; lia. }
  split; [exact Hv|].
  apply (proj1 (decode_encode_valid _ Hv)). simpl. discriminate.
Defined.

(** ** Frame properties of the phases *)

Section Frames.

Import Tomasulo ReservationStation.

Lemma count_after_branch_frame s :
  RS (count_after_branch s) = RS s
  ∧ Registers (count_after_branch s) = Registers s
  ∧ RegisterStatus (count_after_branch s) = RegisterStatus s
  ∧ Memory (count_after_branch s) = Memory s
  ∧ IssuedTracker (count_after_branch s) = IssuedTracker s.
Proof. unfold count_after_branch. destruct (isBranchPending s); auto. Qed.

(** On the zero word [Issue] returns the state it was given. *)
Lemma Issue_zero_word_id s :
  mem_get (Memory s) (PC s) = Some 0 → Issue s = s.
Proof.
  intros H. unfold Issue. destruct (isJumpPending s); [reflexivity|].
  unfold mem_get in *.
  destruct ((0 <=? PC s) && (PC s <? Memory_length)) eqn:Hr; [|discriminate].
  rewrite H. simpl.
  destruct ((PC s <? 0) || (PC s >=? Memory_length)); reflexivity.
Qed.

End Frames.

(** C6: with no jump pending and the zero word at [PC], the Issue phase
    returns the engine unchanged: no station is allocated, [PC], the
    Register-Status Table and the Issued tracker keep their values. *)
Theorem Issue_zero_word s :
  isJumpPending s = false →
  Tomasulo.mem_get (Memory s) (PC s) = Some 0 →
  Tomasulo.Issue s = s
  ∧ RS (Tomasulo.Issue s) = RS s
  ∧ PC (Tomasulo.Issue s) = PC s
  ∧ RegisterStatus (Tomasulo.Issue s) = RegisterStatus s
  ∧ IssuedTracker (Tomasulo.Issue s) = IssuedTracker s.
Proof.
  intros _ H. rewrite (Issue_zero_word_id s H). repeat split.
Qed.

(** The driver's engine with the start address moved to 5, the first
    word behind the program: the word at [PC] is 0 and all five stations
    are free, the LOAD station among them (the zero word decodes to
    [LOAD R0,0(R0)]).  Issue leaves that engine as it is, whereas at the
    driver's own start address, where the word is a LOAD, it does not. *)
Lemma Issue_zero_word_witness :
  let s := (Tomasulo.addStartAddress 5 (Driver.initial 77)).2 in
  isJumpPending s = false
  ∧ Tomasulo.mem_get (Memory s) (PC s) = Some 0
  ∧ (∃ rs, RS s !! 3%nat = Some rs ∧ unit rs = LOAD ∧ busy rs = false)
  ∧ Tomasulo.Issue s = s
  ∧ RS (Tomasulo.Issue s) = RS s
  ∧ Tomasulo.Issue (Driver.initial 77) ≠ Driver.initial 77.
Proof.
  intros s.
  assert (Hj : isJumpPending s = false) by reflexivity.
  assert (Hm : Tomasulo.mem_get (Memory s) (PC s) = Some 0)
    by (vm_compute; reflexivity).
  destruct (Issue_zero_word s Hj Hm) as (H1 & H2 & _).
  split; [exact Hj|]. split; [exact Hm|].
  split; [eexists; split; [vm_compute; reflexivity|]; split; reflexivity|].
  split; [exact H1|]. split; [exact H2|].
  intros H. apply (f_equal PC) in H. vm_compute in H. discriminate.
Defined.

(** ** Validation errors *)

Section Validation.

Import Instruction Tomasulo.

Lemma range_test_bad lo hi v :
  v < lo ∨ hi < v → (v <? lo) || (v >? hi) = true.
Proof. intros. apply orb_true_iff. lia. Qed.

Lemma setter_throws (check : Z → Exc Instruction ()) f lo hi msg v i :
  (∀ v, check v = when ((v <? lo) || (v >? hi)) (throw msg)) →
  v < lo ∨ hi < v →
  (check v ;; modify (f v)) i = (Throw msg, i).
Proof.
  intros Hc Hv. unfold mbind, Exc_bind. rewrite Hc.
  unfold when. rewrite (range_test_bad lo hi v Hv). reflexivity.
Qed.

Lemma setrA_throws r i :
  r < 0 ∨ 7 < r →
  setrA r i = (Throw "Invalid register number (must be 0-7)", i).
Proof. intros. apply (setter_throws validateRegister with_rA 0 7); auto. Qed.

Lemma setrB_throws r i :
  r < 0 ∨ 7 < r →
  setrB r i = (Throw "Invalid register number (must be 0-7)", i).
Proof. intros. apply (setter_throws validateRegister with_rB 0 7); auto. Qed.

Lemma setrC_throws r i :
  r < 0 ∨ 7 < r →
  setrC r i = (Throw "Invalid register number (must be 0-7)", i).
Proof. intros. apply (setter_throws validateRegister with_rC 0 7); auto. Qed.

Lemma setLabel_throws l i :
  l < -64 ∨ 63 < l →
  setLabel l i = (Throw "Label must be a 7-bit signed value (-64 to 63)", i).
Proof.
  intros. unfold setLabel.
  apply (setter_throws (fun l => when ((l <? -64) || (l >? 63)) (throw _))
           with_label (-64) 63); auto.
Qed.

Lemma setOffset_throws o i :
  o < -16 ∨ 15 < o →
  setOffset o i = (Throw "Offset must be a 5-bit signed value (-16 to 15)", i).
Proof.
  intros. unfold setOffset.
  apply (setter_throws (fun l => when ((l <? -16) || (l >? 15)) (throw _))
           with_offset (-16) 15); auto.
Qed.

(** A throw anywhere in the constructor leaves no object. *)
Lemma new_throws init :
  bad 0 7 (init_rA init) ∨ bad 0 7 (init_rB init) ∨ bad 0 7 (init_rC init)
  ∨ bad (-64) 63 (init_label init) →
  ∃ msg, Instruction.new init = Throw msg.
Proof.
  intros H. destruct init as [op a b c o l]. simpl in H.
  unfold Instruction.new, constructor, setrA, setrB, setrC, setOffset, setLabel,
    setOpcode, validateRegister, ifdef, when, modify, throw,
    mbind, Exc_bind, mret, Exc_ret.
  destruct H as [(v & -> & Hv) | [(v & -> & Hv) | [(v & -> & Hv) | (v & -> & Hv)]]];
    pose proof (range_test_bad _ _ v Hv) as Ht;
    repeat (simpl; try rewrite Ht; case_match; simplify_eq; eauto).
Qed.

Lemma addStartAddress_throws address s :
  address < 0 ∨ 65535 < address →
  addStartAddress address s = (Throw "Starting address out of bounds", s).
Proof.
  intros H. unfold addStartAddress, when, mbind, Exc_bind, Memory_length.
  replace ((address <? 0) || (address >=? 65536)) with true
    by (symmetry; apply orb_true_iff; lia).
  reflexivity.
Qed.

Lemma addInstruction_throws instr address s :
  address < 0 ∨ 65535 < address →
  addInstruction instr address s = (Throw "Starting address out of bounds", s).
Proof.
  intros H. unfold addInstruction, when, mbind, Exc_bind, Memory_length.
  replace ((address <? 0) || (address >=? 65536)) with true
    by (symmetry; apply orb_true_iff; lia).
  reflexivity.
Qed.

Lemma addData_throws data address s :
  address < 0 ∨ 65536 < address + Z.of_nat (length data) →
  addData data address s = (Throw "Memory access out of bounds", s).
Proof.
  intros H. unfold addData, when, mbind, Exc_bind, Memory_length.
  replace ((address <? 0) || (address + Z.of_nat (length data) >? 65536))
    with true by (symmetry; apply orb_true_iff; lia).
  reflexivity.
Qed.

End Validation.

(** C8, as stated, fails for [addData]: the address 65536 lies outside
    [0, 65535], and [addData] of an empty block at that address returns
    normally (it leaves the state as it is). *)
Lemma addData_empty_at_65536_returns :
  65535 < 65536
  ∧ Tomasulo.addData [] 65536 Tomasulo.new = (Ok (), Tomasulo.new).
Proof. split; [lia | reflexivity]. Qed.

(** C8, amended: a setter called with a register outside [0,7] or a
    label outside [-64,63] throws and leaves the instruction as it was;
    a constructor given such a field throws; [addStartAddress] and
    [addInstruction] with an address outside [0,65535] throw and leave
    the engine as it was; [addData] throws and leaves the engine as it was
    when the address is negative or the block ends beyond word 65535. *)
Theorem validation_errors_abort :
  (∀ r i, r < 0 ∨ 7 < r →
     ∃ msg, Instruction.setrA r i = (Throw msg, i)
            ∧ Instruction.setrB r i = (Throw msg, i)
            ∧ Instruction.setrC r i = (Throw msg, i))
  ∧ (∀ l i, l < -64 ∨ 63 < l → ∃ msg, Instruction.setLabel l i = (Throw msg, i))
  ∧ (∀ init,
       bad 0 7 (init_rA init) ∨ bad 0 7 (init_rB init)
       ∨ bad 0 7 (init_rC init) ∨ bad (-64) 63 (init_label init) →
       ∃ msg, Instruction.new init = Throw msg)
  ∧ (∀ address s, address < 0 ∨ 65535 < address →
       ∃ msg, Tomasulo.addStartAddress address s = (Throw msg, s))
  ∧ (∀ instr address s, address < 0 ∨ 65535 < address →
       ∃ msg, Tomasulo.addInstruction instr address s = (Throw msg, s))
  ∧ (∀ data address s,
       address < 0 ∨ 65536 < address + Z.of_nat (length data) →
       ∃ msg, Tomasulo.addData data address s = (Throw msg, s)).
Proof.
  repeat split.
  - intros r i H. eexists. rewrite setrA_throws, setrB_throws, setrC_throws by exact H.
    repeat split.
  - intros l i H. eexists. apply setLabel_throws, H.
  - apply new_throws.
  - intros a s H. eexists. apply addStartAddress_throws, H.
  - intros instr a s H. eexists. apply addInstruction_throws, H.
  - intros data a s H. eexists. apply addData_throws, H.
Qed.

Lemma validation_errors_abort_witness :
  (8 < 0 ∨ 7 < 8)
  ∧ (∃ msg, Instruction.setrA 8 Instruction.fresh = (Throw msg, Instruction.fresh))
  ∧ (70000 < 0 ∨ 65535 < 70000)
  ∧ (∃ msg, Tomasulo.addStartAddress 70000 Tomasulo.new = (Throw msg, Tomasulo.new))
  ∧ (∃ msg, Tomasulo.addInstruction Instruction.fresh 70000 Tomasulo.new
            = (Throw msg, Tomasulo.new))
  ∧ (65535 < 0 ∨ 65536 < 65535 + Z.of_nat (length [1; 2]))
  ∧ (∃ msg, Tomasulo.addData [1; 2] 65535 Tomasulo.new = (Throw msg, Tomasulo.new)).
Proof.
  destruct validation_errors_abort as (Hreg & _ & _ & Hstart & Hinstr & Hdata).
  assert (H8 : 8 < 0 ∨ 7 < 8) by (right; lia).
  assert (Ha : 70000 < 0 ∨ 65535 < 70000) by (right; lia).
  assert (Hd : 65535 < 0 ∨ 65536 < 65535 + Z.of_nat (length [1; 2]))
    by (right; simpl; lia).
  split; [exact H8|]. split.
  { destruct (Hreg 8 Instruction.fresh H8) as (msg & H & _). exists msg. exact H. }
  split; [exact Ha|]. split; [exact (Hstart 70000 Tomasulo.new Ha)|].
  split; [exact (Hinstr Instruction.fresh 70000 Tomasulo.new Ha)|].
  split; [exact Hd|]. exact (Hdata [1; 2] 65535 Tomasulo.new Hd).
Defined.

(** ** An idle engine only counts cycles *)

Section Idle.

Import Tomasulo ReservationStation.

Lemma set_RS_id s : set_RS (RS s) s = s.
Proof. destruct s; reflexivity. Qed.

Lemma tick_idle rs : busy rs = false → tick rs = rs.
Proof. intros H. unfold tick. rewrite H. reflexivity. Qed.

Lemma incrementCyclesPassed_idle s :
  Forall idle_station (RS s) → incrementCyclesPassed s = s.
Proof.
  intros H. unfold incrementCyclesPassed.
  replace (map tick (RS s)) with (RS s); [apply set_RS_id|].
  induction H as [|rs l [Hb _] _ IH]; simpl; [reflexivity|].
  rewrite (tick_idle rs Hb). f_equal. exact IH.
Qed.

Lemma execute_station_idle k s :
  Forall idle_station (RS s) → execute_station k s = s.
Proof.
  intros H. unfold execute_station.
  destruct (RS s !! k) as [element|] eqn:Hk; simpl; [|reflexivity].
  assert (Hb : busy element = false).
  { rewrite Forall_lookup in H. destruct (H k element Hk) as [Hb _]. exact Hb. }
  destruct (unit element);
    unfold execute_LOAD, execute_STORE, execute_BEQ, execute_CALL,
      execute_ALU, compute_address;
    rewrite ?Hk, ?Hb; simpl; rewrite ?Hk, ?Hb; reflexivity.
Qed.

Lemma execute_idle s : Forall idle_station (RS s) → execute s = s.
Proof.
  intros H. unfold execute. generalize (seq 0 (length (RS s))).
  intros l. induction l as [|k l IH]; simpl; [reflexivity|].
  rewrite (execute_station_idle k s H). exact IH.
Qed.

Lemma WriteBack_loop_idle entries s :
  Forall idle_station (RS s) → WriteBack_loop entries s = ([], s).
Proof.
  intros H. induction entries as [|element rest IH]; simpl; [reflexivity|].
  destruct (RS s !! t_RS element) as [rs|] eqn:Hk; [|exact IH].
  rewrite Forall_lookup in H. destruct (H _ _ Hk) as [_ ->]. exact IH.
Qed.

(** With no station in flight and the zero word at [PC], a cycle leaves
    everything but the clock as it is. *)
Lemma step_idle s :
  idle s → step s = set_clock (clock s + 1) s ∧ idle (step s).
Proof.
  intros (Hrs & Hj & Hm).
  assert (Hs : step s = set_clock (clock s + 1) s).
  { unfold step, step_log, WriteBack_log.
    rewrite (incrementCyclesPassed_idle s Hrs), (Issue_zero_word_id s Hm),
      (execute_idle s Hrs), (WriteBack_loop_idle _ s Hrs). reflexivity. }
  split; [exact Hs|]. rewrite Hs. repeat split; assumption.
Qed.

Lemma steps_idle n s :
  idle s →
  idle (steps n s) ∧ RS (steps n s) = RS s
  ∧ Registers (steps n s) = Registers s ∧ Memory (steps n s) = Memory s.
Proof.
  intros H. induction n as [|n (Hi & Hr & Hg & Hm)]; simpl; [auto|].
  destruct (step_idle _ Hi) as [Hs Hi']. fold (steps n s) in *.
  split; [exact Hi'|]. rewrite Hs. simpl. auto.
Qed.

Lemma steps_add n m s : steps (n + m) s = steps m (steps n s).
Proof.
  unfold steps. rewrite Nat.add_comm. apply Nat.iter_add.
Qed.

(** The driver's program has drained after thirteen cycles. *)
Lemma driver_after_13 mem101 :
  let s := steps 13 (Driver.initial mem101) in
  RS s = [ReservationStation.new "ADD1" ADD 2 0 0;
          ReservationStation.new "ADD2" ADD 2 0 0;
          ReservationStation.new "MUL1" MUL 3 0 0;
          ReservationStation.new "LOAD1" LOAD 2 1 1;
          ReservationStation.new "STORE1" STORE 2 1 1]
  ∧ Registers s = [0; 42; 45; 3; 8; 360; 7; 100]
  ∧ mem_get (Memory s) 101 = Some 360
  ∧ isJumpPending s = false
  ∧ mem_get (Memory s) (PC s) = Some 0.
Proof. vm_compute. repeat split. Qed.

End Idle.

(** C2: from the driver's configuration (whatever word [mem101] the
    script pokes at address 101), every run of at least thirteen cycles
    ends with all stations released, [R1 = 42], [R2 = 45], [R4 = 8],
    [R5 = 360] and [Memory[101] = 360]. *)
Theorem driver_scenario_final (mem101 : Z) (n : nat) :
  (13 ≤ n)%nat →
  let s := Tomasulo.steps n (Driver.initial mem101) in
  Forall (fun rs => busy rs = false) (RS s)
  ∧ Registers s !! 1%nat = Some 42
  ∧ Registers s !! 2%nat = Some 45
  ∧ Registers s !! 4%nat = Some 8
  ∧ Registers s !! 5%nat = Some 360
  ∧ Tomasulo.mem_get (Memory s) 101 = Some 360.
Proof.
  intros Hn s. subst s.
  replace n with (13 + (n - 13))%nat by lia. rewrite steps_add.
  destruct (driver_after_13 mem101) as (Hrs & Hreg & Hmem & Hj & Hpc).
  assert (Hidle : idle (Tomasulo.steps 13 (Driver.initial mem101))).
  { split; [|split; assumption]. rewrite Hrs.
    repeat constructor. }
  destruct (steps_idle (n - 13) _ Hidle) as (_ & -> & -> & ->).
  rewrite Hrs, Hreg. split; [repeat constructor|].
  repeat (split; [reflexivity|]). exact Hmem.
Qed.

Lemma driver_scenario_final_witness :
  (13 ≤ 13)%nat
  ∧ Registers (Tomasulo.steps 13 (Driver.initial 77)) !! 5%nat = Some 360
  ∧ Tomasulo.mem_get (Memory (Tomasulo.steps 13 (Driver.initial 77))) 101
    = Some 360.
Proof.
  assert (H : (13 ≤ 13)%nat) by lia.
  split; [exact H|].
  destruct (driver_scenario_final 77 13 H) as (_ & _ & _ & _ & H5 & Hm).
  split; [exact H5 | exact Hm].
Defined.

(** ** The common data bus *)

Section CDB.

Import Tomasulo ReservationStation.

(** The loop of [WriteBack] either finds no station to write back and
    returns the state it was given, or stops at the first entry whose
    station is a producer holding a result, and broadcasts it. *)
Lemma WriteBack_loop_cases entries s :
  WriteBack_loop entries s = ([], s)
  ∨ ∃ element rs cdb,
      element ∈ entries
      ∧ RS s !! t_RS element = Some rs
      ∧ result rs = Some cdb
      ∧ producer (unit rs) = true
      ∧ (cycles_passed rs >? cycles_needed rs) = true
      ∧ isBranchPending s = false
      ∧ WriteBack_loop entries s
        = ([mkBroadcast (t_RS element) (name rs) cdb],
           broadcast element (t_RS element) rs cdb s).
Proof.
  induction entries as [|element rest IH]; simpl; [left; reflexivity|].
  assert (Hrest :
    WriteBack_loop rest s = ([], s)
    ∨ ∃ element0 rs cdb,
        element0 ∈ element :: rest
        ∧ RS s !! t_RS element0 = Some rs
        ∧ result rs = Some cdb
        ∧ producer (unit rs) = true
        ∧ (cycles_passed rs >? cycles_needed rs) = true
        ∧ isBranchPending s = false
        ∧ WriteBack_loop rest s
          = ([mkBroadcast (t_RS element0) (name rs) cdb],
             broadcast element0 (t_RS element0) rs cdb s)).
  { destruct IH as [IH | (e & rs & cdb & Hin & IH)]; [left; exact IH|].
    right. exists e, rs, cdb. split; [right; exact Hin | exact IH]. }
  destruct (RS s !! t_RS element) as [rs|] eqn:Hk; [|exact Hrest].
  destruct (result rs) as [cdb|] eqn:Hres; [|exact Hrest].
  destruct ((cycles_passed rs >? cycles_needed rs)
            && negb (isBranchPending s) && bool_decide (CDB s = None)
            && producer (unit rs)) eqn:Hc; [|exact Hrest].
  right. exists element, rs, cdb.
  apply andb_true_iff in Hc as [Hc Hp]. apply andb_true_iff in Hc as [Hc _].
  apply andb_true_iff in Hc as [Hc Hb]. apply negb_true_iff in Hb.
  repeat split; auto. left.
Qed.

Lemma WriteBack_log_length s : (length (WriteBack_log s).1 ≤ 1)%nat.
Proof.
  unfold WriteBack_log.
  destruct (WriteBack_loop_cases (IssuedTracker s) s)
    as [-> | (e & rs & cdb & _ & _ & _ & _ & _ & _ & ->)]; simpl; lia.
Qed.

Lemma step_log_WriteBack s :
  (step_log s).1
  = (WriteBack_log (execute (Issue (incrementCyclesPassed s)))).1.
Proof.
  unfold step_log.
  destruct (WriteBack_log (execute (Issue (incrementCyclesPassed s)))).
  reflexivity.
Qed.

Lemma WriteBack_cases s :
  WriteBack s = s
  ∨ ∃ element rs cdb,
      element ∈ IssuedTracker s
      ∧ RS s !! t_RS element = Some rs
      ∧ result rs = Some cdb
      ∧ producer (unit rs) = true
      ∧ (cycles_passed rs >? cycles_needed rs) = true
      ∧ isBranchPending s = false
      ∧ WriteBack s = broadcast element (t_RS element) rs cdb s.
Proof.
  unfold WriteBack, WriteBack_log.
  destruct (WriteBack_loop_cases (IssuedTracker s) s)
    as [-> | (e & rs & cdb & H1 & H2 & H3 & H4 & H5 & H6 & ->)];
    [left; reflexivity|].
  right. exists e, rs, cdb. auto 10.
Qed.

Lemma step_unfold s :
  step s
  = set_clock (clock (WriteBack (execute (Issue (incrementCyclesPassed s)))) + 1)
      (WriteBack (execute (Issue (incrementCyclesPassed s)))).
Proof.
  unfold step, step_log, WriteBack.
  destruct (WriteBack_log (execute (Issue (incrementCyclesPassed s)))).
  reflexivity.
Qed.

End CDB.

(** C3: a call of [step] performs no broadcast or exactly one; a
    broadcast comes from a station of a producing unit (LOAD, ADD/SUB,
    NOR or MUL) that held the value put on the bus when the WriteBack
    phase began. *)
Theorem step_broadcasts_at_most_once (s : Tomasulo) :
  (length (Tomasulo.step_log s).1 ≤ 1)%nat
  ∧ ∀ b, b ∈ (Tomasulo.step_log s).1 →
      ∃ rs,
        RS (Tomasulo.execute (Tomasulo.Issue (Tomasulo.incrementCyclesPassed s)))
          !! Tomasulo.b_station b = Some rs
        ∧ name rs = Tomasulo.b_name b
        ∧ result rs = Some (Tomasulo.b_value b)
        ∧ (unit rs = LOAD ∨ unit rs = ADD ∨ unit rs = NOR ∨ unit rs = MUL).
Proof.
  rewrite step_log_WriteBack. split; [apply WriteBack_log_length|].
  intros b Hb. unfold Tomasulo.WriteBack_log in Hb.
  destruct (WriteBack_loop_cases
              (IssuedTracker (Tomasulo.execute (Tomasulo.Issue
                 (Tomasulo.incrementCyclesPassed s))))
              (Tomasulo.execute (Tomasulo.Issue (Tomasulo.incrementCyclesPassed s))))
    as [H | (e & rs & cdb & _ & Hk & Hres & Hp & _ & _ & H)];
    rewrite H in Hb; simpl in Hb.
  - inversion Hb.
  - apply list_elem_of_singleton in Hb as ->. simpl.
    exists rs. repeat split; auto.
    unfold Tomasulo.producer in Hp.
    repeat (apply orb_true_iff in Hp as [Hp | Hp]);
      apply bool_decide_eq_true_1 in Hp; auto.
Qed.

(** ** Register 0 *)

Section RegisterZero.

Import Tomasulo ReservationStation.

Ltac unfold_execute :=
  unfold execute_station, execute_LOAD, execute_STORE, execute_BEQ,
    execute_CALL, execute_ALU, compute_address, complete, push_Executed,
    branch_taken, branch_not_taken, upd.

Lemma execute_station_RegisterStatus k s :
  RegisterStatus (execute_station k s) = RegisterStatus s.
Proof. unfold_execute. repeat case_match; reflexivity. Qed.

Lemma execute_station_Registers_0 k s :
  Registers (execute_station k s) !! 0%nat = Registers s !! 0%nat.
Proof.
  unfold_execute. repeat case_match; try reflexivity;
    simpl; unfold reg_put; rewrite list_lookup_insert_ne by lia;
    reflexivity.
Qed.

Lemma execute_inv (I : Tomasulo → Prop) s :
  (∀ k s, I s → I (execute_station k s)) → I s → I (execute s).
Proof.
  intros Hstep. unfold execute. generalize (seq 0 (length (RS s))).
  intros l. revert s. induction l as [|k l IH]; simpl; auto.
Qed.

Lemma execute_zero_register s : zero_register s → zero_register (execute s).
Proof.
  apply execute_inv. clear s. intros k s H. unfold zero_register.
  rewrite execute_station_Registers_0. exact H.
Qed.

Lemma execute_zero_committed s :
  zero_committed s → zero_committed (execute s).
Proof.
  apply execute_inv. clear s. intros k s H. unfold zero_committed.
  rewrite execute_station_RegisterStatus. exact H.
Qed.

Lemma status_put_rename_0 instr element t :
  t !! 0%nat = Some None →
  status_put (rA instr) (rename_target instr element) t !! 0%nat = Some None.
Proof.
  intros H. unfold status_put, rename_target.
  destruct (rA instr) as [r|]; [|exact H].
  destruct (0 <=? r) eqn:Hr; [|exact H].
  destruct (Z.eq_dec r 0) as [-> | Hne].
  - simpl. apply list_lookup_insert_eq. apply lookup_lt_Some in H. exact H.
  - rewrite list_lookup_insert_ne by lia. exact H.
Qed.

(** The ways [Issue] can end: it returns the state it was given, or
    runs the issue body of one opcode class on an instruction that
    [decode] built. *)
Lemma Issue_elim (R : Tomasulo → Prop) s :
  R s →
  (∀ instr, decoded instr → R (Issue_LOAD instr s)) →
  (∀ instr, decoded instr → R (Issue_STORE instr s)) →
  (∀ instr, decoded instr → R (Issue_ALU instr s)) →
  (∀ instr, decoded instr → R (Issue_BEQ instr s)) →
  (∀ instr, decoded instr → R (Issue_CALL_RET instr s)) →
  R (Issue s).
Proof.
  intros Hid HL HS HA HB HC. unfold Issue.
  destruct (isJumpPending s); [exact Hid|].
  destruct ((PC s <? 0) || (PC s >=? Memory_length)); [exact Hid|].
  destruct (default 0 (mem_get (Memory s) (PC s)) =? 0); [exact Hid|].
  destruct (decode_fields (default 0 (mem_get (Memory s) (PC s))))
    as (instr & -> & Hd).
  destruct (PC s <? 65536); [|exact Hid].
  destruct (is_op (opcode instr) LOAD); [apply HL, Hd|].
  destruct (is_op (opcode instr) STORE); [apply HS, Hd|].
  destruct (is_op (opcode instr) ADD || is_op (opcode instr) SUB
            || is_op (opcode instr) NOR || is_op (opcode instr) MUL);
    [apply HA, Hd|].
  destruct (is_op (opcode instr) BEQ); [apply HB, Hd|].
  destruct (is_op (opcode instr) CALL || is_op (opcode instr) RET);
    [apply HC, Hd | exact Hid].
Qed.

Ltac unfold_issue :=
  unfold Issue_LOAD, Issue_STORE, Issue_ALU, Issue_BEQ, Issue_CALL_RET,
    count_after_branch, push_Issued.

Lemma Issue_Registers s : Registers (Issue s) = Registers s.
Proof.
  apply Issue_elim; [reflexivity|..]; intros instr _; unfold_issue;
    repeat case_match; reflexivity.
Qed.

Lemma Issue_RegisterStatus_0 s :
  RegisterStatus s !! 0%nat = Some None →
  RegisterStatus (Issue s) !! 0%nat = Some None.
Proof.
  intros H.
  apply Issue_elim; [exact H|..]; intros instr _; unfold_issue;
    repeat case_match; simpl; try exact H;
    apply status_put_rename_0; exact H.
Qed.

(** The write-back of a result into the register file: a write that
    lands on register 0 stores 0. *)
Lemma broadcast_zero_register element k rs cdb s :
  zero_register s → zero_register (broadcast element k rs cdb s).
Proof.
  intros H. unfold broadcast, zero_register, reg_put, upd in *.
  destruct (list_find _ _) as [[i e]|]; simpl; [|exact H].
  destruct i as [|i]; simpl.
  - apply list_lookup_insert_eq. eapply lookup_lt_Some; eassumption.
  - rewrite list_lookup_insert_ne by lia. exact H.
Qed.

Lemma broadcast_zero_committed element k rs cdb s :
  zero_committed s → zero_committed (broadcast element k rs cdb s).
Proof.
  intros H. unfold broadcast, zero_committed, upd in *.
  destruct (list_find _ _) as [[i e]|]; simpl; [|exact H].
  destruct i as [|i]; simpl.
  - apply list_lookup_insert_eq. eapply lookup_lt_Some; eassumption.
  - rewrite list_lookup_insert_ne by lia. exact H.
Qed.

Lemma step_zero_register s : zero_register s → zero_register (step s).
Proof.
  intros H.
  assert (H1 : zero_register (execute (Issue (incrementCyclesPassed s)))).
  { apply execute_zero_register. unfold zero_register.
    rewrite Issue_Registers. exact H. }
  rewrite step_unfold.
  change (zero_register (WriteBack (execute (Issue (incrementCyclesPassed s))))).
  destruct (WriteBack_cases (execute (Issue (incrementCyclesPassed s))))
    as [-> | (e & rs & cdb & _ & _ & _ & _ & _ & _ & ->)].
  - exact H1.
  - apply broadcast_zero_register. exact H1.
Qed.

Lemma step_zero_committed s : zero_committed s → zero_committed (step s).
Proof.
  intros H.
  assert (H1 : zero_committed (execute (Issue (incrementCyclesPassed s)))).
  { apply execute_zero_committed. apply Issue_RegisterStatus_0. exact H. }
  rewrite step_unfold.
  change (zero_committed (WriteBack (execute (Issue (incrementCyclesPassed s))))).
  destruct (WriteBack_cases (execute (Issue (incrementCyclesPassed s))))
    as [-> | (e & rs & cdb & _ & _ & _ & _ & _ & _ & ->)].
  - exact H1.
  - apply broadcast_zero_committed. exact H1.
Qed.

End RegisterZero.

(** C7: register 0 is hard-wired to zero.  If register 0 holds 0, it
    holds 0 after any number of cycles, whatever the Register-Status
    Table says: a write-back that lands on register 0 stores 0.  If the
    status entry of register 0 is the committed sentinel (as the
    constructor leaves it), it is still the sentinel after any number of
    cycles: Issue never records a station as the rename target of
    register 0. *)
Theorem register_zero_hardwired (s : Tomasulo) (n : nat) :
  (Registers s !! 0%nat = Some 0 →
   Registers (Tomasulo.steps n s) !! 0%nat = Some 0)
  ∧ (RegisterStatus s !! 0%nat = Some None →
     RegisterStatus (Tomasulo.steps n s) !! 0%nat = Some None).
Proof.
  split; intros H.
  - change (zero_register (Tomasulo.steps n s)).
    induction n as [|n IH]; simpl; [exact H|].
    apply step_zero_register. exact IH.
  - change (zero_committed (Tomasulo.steps n s)).
    induction n as [|n IH]; simpl; [exact H|].
    apply step_zero_committed. exact IH.
Qed.

(** ** Invariants of the stations *)

Section StationInvariant.

Import Tomasulo ReservationStation.

(** A property of stations that the mutations of Execute, WriteBack and
    the cycle counter preserve, and that [Issue] establishes on the
    station it fills. *)
Variable P : ReservationStation → Prop.
Hypothesis P_set_A : ∀ v rs, P rs → P (set_A v rs).
Hypothesis P_set_cycles_passed : ∀ v rs, P rs → P (set_cycles_passed v rs).
Hypothesis P_set_result : ∀ v rs, P rs → P (set_result v rs).
Hypothesis P_release : ∀ rs, P (release rs).
Hypothesis P_squash : ∀ rs, P rs → P (squash rs).
Hypothesis P_wake : ∀ nm v rs, P rs → P (wake nm v rs).
Hypothesis P_Issue : ∀ s, Forall P (RS s) → Forall P (RS (Issue s)).

Lemma upd_stations k f s :
  (∀ rs, P rs → P (f rs)) → Forall P (RS s) → Forall P (RS (upd k f s)).
Proof. intros Hf H. unfold upd. simpl. apply Forall_alter; auto. Qed.

Lemma push_Executed_stations k s :
  Forall P (RS s) → Forall P (RS (push_Executed k s)).
Proof. unfold push_Executed. case_match; auto. Qed.

Lemma complete_stations k ca cm s :
  Forall P (RS s) → Forall P (RS (complete k ca cm s)).
Proof.
  intros H. unfold complete. destruct (RS s !! k); [|exact H].
  apply upd_stations; [auto|].
  case_match; simpl; apply push_Executed_stations, H.
Qed.

Lemma compute_address_stations k s :
  Forall P (RS s) → Forall P (RS (compute_address k s)).
Proof.
  intros H. unfold compute_address. repeat case_match; auto.
  apply upd_stations; auto.
Qed.

Lemma branch_taken_stations element s :
  Forall P (RS s) → Forall P (RS (branch_taken element s)).
Proof.
  intros H. unfold branch_taken. simpl. apply Forall_map.
  eapply Forall_impl; [exact H|]. intros rs Hrs. simpl.
  case_match; auto.
Qed.

Lemma execute_station_stations k s :
  Forall P (RS s) → Forall P (RS (execute_station k s)).
Proof.
  intros H. unfold execute_station.
  destruct (unit <$> RS s !! k) as [[]|]; try exact H.
  - unfold execute_LOAD. pose proof (compute_address_stations k s H).
    repeat case_match; auto.
    + apply upd_stations; auto.
    + apply push_Executed_stations, upd_stations; auto.
  - unfold execute_STORE. pose proof (compute_address_stations k s H).
    repeat case_match; auto.
    + apply upd_stations; auto.
    + apply complete_stations. simpl. assumption.
    + apply complete_stations. assumption.
  - unfold execute_BEQ. repeat case_match; auto; apply complete_stations.
    + apply branch_taken_stations, H.
    + exact H.
  - unfold execute_CALL. repeat case_match; auto; apply complete_stations;
      exact H.
  - unfold execute_ALU. repeat case_match; auto.
    apply push_Executed_stations, upd_stations; auto.
  - unfold execute_ALU. repeat case_match; auto.
    apply push_Executed_stations, upd_stations; auto.
  - unfold execute_ALU. repeat case_match; auto.
    apply push_Executed_stations, upd_stations; auto.
Qed.

Lemma execute_stations s : Forall P (RS s) → Forall P (RS (execute s)).
Proof.
  apply (execute_inv (fun s => Forall P (RS s))).
  intros k s'. apply execute_station_stations.
Qed.

Lemma tick_station rs : P rs → P (tick rs).
Proof. intros H. unfold tick. repeat case_match; auto. Qed.

Lemma incrementCyclesPassed_stations s :
  Forall P (RS s) → Forall P (RS (incrementCyclesPassed s)).
Proof.
  intros H. unfold incrementCyclesPassed. simpl. apply Forall_map.
  eapply Forall_impl; [exact H|]. intros rs. apply tick_station.
Qed.

Lemma broadcast_stations element k rs cdb s :
  Forall P (RS s) → Forall P (RS (broadcast element k rs cdb s)).
Proof.
  intros H. unfold broadcast. simpl. apply Forall_alter; [|auto].
  case_match; [case_match|]; simpl; apply Forall_map;
    (eapply Forall_impl; [exact H|]); intros rs'; apply P_wake.
Qed.

Lemma WriteBack_stations s : Forall P (RS s) → Forall P (RS (WriteBack s)).
Proof.
  intros H.
  destruct (WriteBack_cases s)
    as [-> | (e & rs & cdb & _ & _ & _ & _ & _ & _ & ->)]; [exact H|].
  apply broadcast_stations, H.
Qed.

Lemma step_stations s : Forall P (RS s) → Forall P (RS (step s)).
Proof.
  intros H. rewrite step_unfold.
  change (Forall P (RS (WriteBack (execute (Issue (incrementCyclesPassed s)))))).
  apply WriteBack_stations, execute_stations, P_Issue,
    incrementCyclesPassed_stations, H.
Qed.

End StationInvariant.

Section OperandSlots.

Import Tomasulo ReservationStation.

Lemma allocate_Some u s k element :
  allocate u s = Some (k, element) →
  RS s !! k = Some element ∧ busy element = false ∧ unit element = u.
Proof.
  unfold allocate. intros H. apply list_find_Some in H as (Hk & [Hb Hu] & _).
  auto.
Qed.

(** Operand capture fills the value or the tag of a slot, never both. *)
Lemma capture_exclusive s r : (capture s r).1 = None ∨ (capture s r).2 = None.
Proof. unfold capture. case_match; simpl; auto. Qed.

Ltac issue_branch H :=
  unfold Issue_LOAD, Issue_STORE, Issue_ALU, Issue_BEQ, Issue_CALL_RET,
    count_after_branch, push_Issued;
  let k := fresh "k" in
  let element := fresh "element" in
  let Ha := fresh "Ha" in
  destruct (allocate _ _) as [[k element]|] eqn:Ha; [|exact H];
  apply allocate_Some in Ha as (Ha & _ & _);
  pose proof (Forall_lookup_1 _ _ _ _ H Ha);
  repeat case_match; simpl; (apply Forall_insert; [exact H|]).

Lemma Issue_operands_exclusive s :
  Forall operands_exclusive (RS s) → Forall operands_exclusive (RS (Issue s)).
Proof.
  intros H. apply Issue_elim; [exact H|..]; intros instr _; issue_branch H;
    match goal with
    | Hel : operands_exclusive ?e |- _ => destruct Hel as [Hj Hk]
    end;
    unfold operands_exclusive, capture_j, capture_k; simpl;
    repeat match goal with
           | |- context [capture ?s ?r] =>
               destruct (capture_exclusive s r) as [-> | ->]
           end;
    split; intros; auto; congruence.
Qed.

Lemma Issue_holds_instruction s :
  Forall holds_instruction (RS s) → Forall holds_instruction (RS (Issue s)).
Proof.
  intros H. apply Issue_elim; [exact H|..]; intros instr _; issue_branch H;
    unfold holds_instruction; simpl; intros _; discriminate.
Qed.

Lemma wake_operands_exclusive nm v rs :
  operands_exclusive rs → operands_exclusive (wake nm v rs).
Proof.
  intros [Hj Hk]. unfold wake, operands_exclusive.
  repeat case_match; simpl; auto.
Qed.

Lemma wake_holds_instruction nm v rs :
  holds_instruction rs → holds_instruction (wake nm v rs).
Proof. intros H. unfold wake. repeat case_match; exact H. Qed.

Lemma step_operands_exclusive s :
  Forall operands_exclusive (RS s) → Forall operands_exclusive (RS (step s)).
Proof.
  apply step_stations;
    first [ exact wake_operands_exclusive
          | exact Issue_operands_exclusive
          | intros; split; intros; reflexivity
          | intros ? ? H; exact H ].
Qed.

Lemma step_holds_instruction s :
  Forall holds_instruction (RS s) → Forall holds_instruction (RS (step s)).
Proof.
  apply step_stations;
    first [ exact wake_holds_instruction
          | exact Issue_holds_instruction
          | intros; intros ?; discriminate
          | intros ? ? H; exact H ].
Qed.

Lemma fresh_station_ok rs :
  fresh_station rs → operands_exclusive rs ∧ holds_instruction rs.
Proof.
  intros ->. split; [split; simpl; auto | intros H; discriminate].
Qed.

Lemma reachable_stations s :
  reachable s →
  Forall operands_exclusive (RS s) ∧ Forall holds_instruction (RS s).
Proof.
  induction 1 as [s (Hf & _) | s _ [IH1 IH2]].
  - split; (eapply Forall_impl; [exact Hf|]); intros rs Hrs;
      apply (fresh_station_ok rs Hrs).
  - split; [apply step_operands_exclusive | apply step_holds_instruction];
      assumption.
Qed.

(** A busy station of a reachable engine holds its instruction: the
    dereference [element.instruction!] of the Execute phase is safe. *)
Lemma reachable_busy_instruction s k rs :
  reachable s → RS s !! k = Some rs → busy rs = true →
  ∃ instr, instruction rs = Some instr.
Proof.
  intros Hr Hk Hb. destruct (reachable_stations s Hr) as [_ H].
  pose proof (Forall_lookup_1 _ _ _ _ H Hk Hb) as Hi.
  destruct (instruction rs); [eauto | contradiction].
Qed.

Lemma steps_reachable n s : configured s → reachable (steps n s).
Proof.
  intros H. induction n; simpl; [apply reachable_configured, H|].
  apply reachable_step. assumption.
Qed.

End OperandSlots.

(** C9: in every reachable state, every reservation station holds, in
    each operand slot, a value or a wait-tag but not both: a slot with a
    value [Vj] (resp. [Vk]) has [Qj] (resp. [Qk]) equal to [null]. *)
Theorem operand_slots_exclusive (s : Tomasulo) :
  reachable s →
  ∀ k rs, RS s !! k = Some rs →
    (Vj rs ≠ None → Qj rs = None) ∧ (Vk rs ≠ None → Qk rs = None).
Proof.
  intros Hr k rs Hk. destruct (reachable_stations s Hr) as [H _].
  exact (Forall_lookup_1 _ _ _ _ H Hk).
Qed.

Section SpeculationCounter.

Import Tomasulo ReservationStation.

Lemma Issue_counter_bounded s : counter_bounded s → counter_bounded (Issue s).
Proof.
  intros H. unfold counter_bounded in *.
  apply Issue_elim; [exact H|..]; intros instr _;
    unfold Issue_LOAD, Issue_STORE, Issue_ALU, Issue_BEQ, Issue_CALL_RET,
      count_after_branch, push_Issued;
    repeat case_match; simpl; rewrite ?length_app; simpl; lia.
Qed.

Lemma execute_station_counter_bounded k s :
  counter_bounded s → counter_bounded (execute_station k s).
Proof.
  intros H. unfold counter_bounded in *.
  unfold execute_station, execute_LOAD, execute_STORE, execute_BEQ,
    execute_CALL, execute_ALU, compute_address, complete, push_Executed,
    branch_taken, branch_not_taken, upd.
  repeat case_match; simpl; try exact H; lia.
Qed.

Lemma broadcast_counter_bounded element k rs cdb s :
  counter_bounded s → counter_bounded (broadcast element k rs cdb s).
Proof.
  intros H. unfold broadcast, upd. repeat case_match; exact H.
Qed.

(** Whenever the Execute phase visits a station of a reachable engine,
    the speculation counter is within the Issued tracker: the bound
    holds between cycles and through the phases of a cycle. *)
Lemma step_counter_bounded s :
  counter_bounded s →
  counter_bounded (Issue (incrementCyclesPassed s))
  ∧ counter_bounded (execute (Issue (incrementCyclesPassed s)))
  ∧ counter_bounded (step s).
Proof.
  intros H.
  assert (H1 : counter_bounded (Issue (incrementCyclesPassed s)))
    by (apply Issue_counter_bounded; exact H).
  assert (H2 : counter_bounded (execute (Issue (incrementCyclesPassed s))))
    by (apply (execute_inv counter_bounded);
        [apply execute_station_counter_bounded | exact H1]).
  split; [exact H1|]. split; [exact H2|].
  rewrite step_unfold.
  change (counter_bounded
            (WriteBack (execute (Issue (incrementCyclesPassed s))))).
  destruct (WriteBack_cases (execute (Issue (incrementCyclesPassed s))))
    as [-> | (e & rs & cdb & _ & _ & _ & _ & _ & _ & ->)]; [exact H2|].
  apply broadcast_counter_bounded, H2.
Qed.

Lemma reachable_counter_bounded s : reachable s → counter_bounded s.
Proof.
  induction 1 as [s Hc | s _ IH].
  - destruct Hc as (_ & _ & _ & _ & Hi & _ & _ & _ & _ & _ & _ & _ & Hn).
    unfold counter_bounded. rewrite Hi, Hn. simpl. lia.
  - apply step_counter_bounded, IH.
Qed.

End SpeculationCounter.

(** ** Branch resolution *)

Section Branch.

Import Tomasulo ReservationStation.

Lemma lookup_map {T U} (f : T → U) (l : list T) (i : nat) :
  map f l !! i = f <$> l !! i.
Proof. change (map f l) with (f <$> l). apply list_lookup_fmap. Qed.

Lemma complete_frame k ca cm s :
  PC (complete k ca cm s) = PC s
  ∧ isBranchPending (complete k ca cm s) = isBranchPending s
  ∧ branchMispredictions (complete k ca cm s) = branchMispredictions s
  ∧ IssuedTracker (complete k ca cm s) = IssuedTracker s
  ∧ IssuedAfterBranch (complete k ca cm s) = IssuedAfterBranch s
  ∧ Registers (complete k ca cm s) = Registers s
  ∧ RegisterStatus (complete k ca cm s) = RegisterStatus s
  ∧ Memory (complete k ca cm s) = Memory s
  ∧ RS (complete k ca cm s) = alter release k (RS s).
Proof.
  unfold complete, push_Executed, upd.
  destruct (RS s !! k) eqn:Hk; simpl.
  - repeat case_match; simpl; repeat split.
  - repeat split. symmetry. apply list_eq. intros i.
    destruct (decide (k = i)) as [<- | Hne].
    + rewrite list_lookup_alter_eq, Hk. reflexivity.
    + apply list_lookup_alter_ne, Hne.
Qed.

Lemma splice_from_tail {T} (n : Z) (l : list T) :
  0 ≤ n ≤ Z.of_nat (length l) →
  ∃ tail, l = splice_from (Z.of_nat (length l) - n) l ++ tail
          ∧ Z.of_nat (length tail) = n.
Proof.
  intros Hn. unfold splice_from.
  replace (Z.of_nat (length l) - n <? 0) with false by lia.
  rewrite Z.min_l by lia.
  exists (drop (Z.to_nat (Z.of_nat (length l) - n)) l). split.
  - symmetry. apply take_drop.
  - rewrite length_drop. lia.
Qed.

Lemma squash_squashed rs : squashed (squash rs).
Proof. repeat split. Qed.

Lemma gt_null_issued_past pc rs :
  0 ≤ pc →
  JS.gt_null (PC_Original rs) (Some pc) = true ↔ issued_past pc rs.
Proof.
  intros Hpc. unfold JS.gt_null, issued_past, JS.num.
  destruct (PC_Original rs) as [pcj|]; simpl.
  - rewrite Z.ltb_lt. split; [eauto|]. intros (? & [= <-] & ?). assumption.
  - rewrite Z.ltb_lt. split; [lia|]. intros (? & [=] & _).
Qed.

End Branch.

(** The iteration of a taken branch.  When the Execute phase reaches a
    busy BEQ station whose
    counter equals its latency and whose operands are equal, it sets
    [PC = A + originalPC + 1], clears [isBranchPending], adds one to the
    misprediction counter, removes from the Issued tracker a tail of
    exactly [IssuedAfterBranch] entries, resets [IssuedAfterBranch] to 0,
    squashes every other station issued past the branch (leaving the
    remaining ones as they were), releases the branch's own station, and
    leaves the register file as it was: a squashed station keeps no
    result that a write-back could copy into a register. *)
Theorem branch_taken_effects (s : Tomasulo) (k : nat)
    (element : ReservationStation) (pc a : Z) :
  RS s !! k = Some element →
  unit element = BEQ →
  busy element = true →
  cycles_passed element = cycles_needed element →
  Vj element = Vk element →
  PC_Original element = Some pc → 0 ≤ pc →
  A element = Some a →
  0 ≤ IssuedAfterBranch s ≤ Z.of_nat (length (IssuedTracker s)) →
  let s' := Tomasulo.execute_station k s in
  PC s' = a + pc + 1
  ∧ isBranchPending s' = false
  ∧ branchMispredictions s' = branchMispredictions s + 1
  ∧ (∃ tail, IssuedTracker s = IssuedTracker s' ++ tail
             ∧ Z.of_nat (length tail) = IssuedAfterBranch s)
  ∧ IssuedAfterBranch s' = 0
  ∧ (∀ j rs, j ≠ k → RS s !! j = Some rs →
       ∃ rs', RS s' !! j = Some rs'
              ∧ (issued_past pc rs → squashed rs')
              ∧ (¬ issued_past pc rs → rs' = rs))
  ∧ RS s' !! k = Some (ReservationStation.release element)
  ∧ Registers s' = Registers s.
Proof.
  intros Hk Hu Hb Hc Hv Hpc Hpc0 Ha Hn s'. subst s'.
  unfold Tomasulo.execute_station. rewrite Hk. simpl. rewrite Hu.
  unfold Tomasulo.execute_BEQ. rewrite Hk, Hb, Hc, Z.eqb_refl. simpl.
  rewrite bool_decide_eq_true_2 by exact Hv.
  destruct (complete_frame k 0 0 (Tomasulo.branch_taken element s))
    as (-> & -> & -> & -> & -> & -> & _ & _ & ->).
  unfold Tomasulo.branch_taken. simpl. rewrite Ha, Hpc. simpl.
  split; [reflexivity|]. split; [reflexivity|]. split; [reflexivity|].
  split; [apply splice_from_tail, Hn|]. split; [reflexivity|].
  split; [|split; [|reflexivity]].
  - intros j rs Hj Hrs. rewrite list_lookup_alter_ne by auto.
    rewrite lookup_map, Hrs. simpl. eexists. split; [reflexivity|].
    destruct (JS.gt_null (PC_Original rs) (Some pc)) eqn:Hgt.
    + split; [intros _; apply squash_squashed|].
      intros Hnot. exfalso. apply Hnot. apply gt_null_issued_past; assumption.
    + split; [|reflexivity]. intros Hp.
      apply gt_null_issued_past in Hp; [congruence | assumption].
  - rewrite list_lookup_alter_eq, lookup_map, Hk. simpl.
    unfold JS.gt_null. rewrite Hpc. simpl. rewrite Z.ltb_irrefl. reflexivity.
Qed.

(** ** The three programs *)

Section Programs.

Import Tomasulo.

Lemma driver_configured mem101 : configured (Driver.initial mem101).
Proof. vm_compute. repeat split; repeat constructor. Qed.

Lemma store_load_configured : configured Scenario.store_load.
Proof. vm_compute. repeat split; repeat constructor. Qed.

Lemma branch_configured : configured Scenario.branch.
Proof. vm_compute. repeat split; repeat constructor. Qed.

End Programs.

Lemma operand_slots_exclusive_witness :
  reachable (Tomasulo.steps 5 (Driver.initial 77))
  ∧ ∀ k rs, RS (Tomasulo.steps 5 (Driver.initial 77)) !! k = Some rs →
      (Vj rs ≠ None → Qj rs = None) ∧ (Vk rs ≠ None → Qk rs = None).
Proof.
  assert (H : reachable (Tomasulo.steps 5 (Driver.initial 77)))
    by (apply steps_reachable, driver_configured).
  split; [exact H | exact (operand_slots_exclusive _ H)].
Defined.

(** Register 0 as a destination.  On [zero_target] the instruction
    [ADD R0,R1,R2] is issued in the first cycle without renaming register
    0, and its result 15 is broadcast in the fourth cycle without
    reaching the register.  On [zero_renamed], where the status entry of
    register 0 names the station, the same broadcast lands on register 0
    (its status entry is cleared) and stores 0. *)
Lemma register_zero_hardwired_witness :
  let s := zero_target in
  let t := zero_renamed in
  (Registers s !! 0%nat = Some 0 ∧ RegisterStatus s !! 0%nat = Some None)
  ∧ (rA <$> (t_Instruction <$> IssuedTracker (Tomasulo.steps 1 s) !! 0%nat)
     = Some (Some 0)
     ∧ RegisterStatus (Tomasulo.steps 1 s) !! 0%nat = Some None)
  ∧ ((Tomasulo.step_log (Tomasulo.steps 3 s)).1
     = [Tomasulo.mkBroadcast 0 "ADD1" 15]
     ∧ Registers (Tomasulo.steps 4 s) !! 0%nat = Some 0
     ∧ RegisterStatus (Tomasulo.steps 4 s) !! 0%nat = Some None)
  ∧ (Registers t !! 0%nat = Some 0
     ∧ RegisterStatus t !! 0%nat = Some (Some "ADD1"%string)
     ∧ (Tomasulo.step_log (Tomasulo.steps 2 t)).1
       = [Tomasulo.mkBroadcast 0 "ADD1" 15]
     ∧ RegisterStatus (Tomasulo.steps 3 t) !! 0%nat = Some None
     ∧ Registers (Tomasulo.steps 3 t) !! 0%nat = Some 0).
Proof.
  intros s t.
  assert (H1 : Registers s !! 0%nat = Some 0) by reflexivity.
  assert (H2 : RegisterStatus s !! 0%nat = Some None) by reflexivity.
  assert (H3 : Registers t !! 0%nat = Some 0) by (vm_compute; reflexivity).
  split; [split; [exact H1 | exact H2]|].
  split.
  { split; [vm_compute; reflexivity|].
    exact (proj2 (register_zero_hardwired s 1) H2). }
  split.
  { split; [vm_compute; reflexivity|].
    split; [exact (proj1 (register_zero_hardwired s 4) H1)
           | exact (proj2 (register_zero_hardwired s 4) H2)]. }
  split; [exact H3|]. split; [vm_compute; reflexivity|].
  split; [vm_compute; reflexivity|]. split; [vm_compute; reflexivity|].
  exact (proj1 (register_zero_hardwired t 3) H3).
Defined.

(** One broadcast: the fourth cycle of the driver's program writes back
    the load. *)
Lemma step_broadcasts_at_most_once_witness :
  (Tomasulo.step_log (Tomasulo.steps 3 (Driver.initial 77))).1
  = [Tomasulo.mkBroadcast 3 "LOAD1" 42]
  ∧ (length (Tomasulo.step_log (Tomasulo.steps 3 (Driver.initial 77))).1 ≤ 1)%nat.
Proof.
  split; [reflexivity|].
  exact (proj1 (step_broadcasts_at_most_once
                  (Tomasulo.steps 3 (Driver.initial 77)))).
Defined.

(** The branch of [Scenario.branch] resolves in this way: [PC]
    becomes [0 + 2 + 1], the two entries issued behind the branch leave
    the Issued tracker, and the register file is untouched. *)
Lemma branch_taken_effects_witness :
  let s := Scenario.branch_resolving in
  let s' := Tomasulo.execute_station 0 s in
  (∃ element,
     RS s !! 0%nat = Some element ∧ unit element = BEQ ∧ busy element = true
     ∧ cycles_passed element = cycles_needed element
     ∧ Vj element = Vk element
     ∧ PC_Original element = Some 0 ∧ A element = Some 2)
  ∧ 0 ≤ IssuedAfterBranch s ≤ Z.of_nat (length (IssuedTracker s))
  ∧ IssuedAfterBranch s = 2
  ∧ PC s' = 2 + 0 + 1
  ∧ (∃ tail, IssuedTracker s = IssuedTracker s' ++ tail
             ∧ Z.of_nat (length tail) = IssuedAfterBranch s)
  ∧ Registers s' = Registers s
  ∧ Registers s = [0; 5; 5; 30; 2; 1; 70; 100].
Proof.
  intros s s'.
  destruct (RS s !! 0%nat) as [element|] eqn:Hk; [|vm_compute in Hk; discriminate].
  assert (He : element
               = mkRS "BEQ1" BEQ true (Some "BEQ"%string) (Some 5) (Some 5)
                   None None
                   (Some (mkInstruction 2 (Some 1) (Some 2) None (Some 2) None))
                   None (Some 0) (Some 2) 2 2 0 0).
  { vm_compute in Hk. injection Hk as <-. reflexivity. }
  assert (Hn : 0 ≤ IssuedAfterBranch s ≤ Z.of_nat (length (IssuedTracker s)))
    by (vm_compute; split; discriminate).
  assert (H0 : (0 ≤ 0)) by lia.
  pose proof (branch_taken_effects s 0 element 0 2 Hk
                ltac:(rewrite He; reflexivity) ltac:(rewrite He; reflexivity)
                ltac:(rewrite He; reflexivity) ltac:(rewrite He; reflexivity)
                ltac:(rewrite He; reflexivity) H0
                ltac:(rewrite He; reflexivity) Hn)
    as (Hpc & _ & _ & Htail & _ & _ & _ & Hregs).
  split.
  { exists element. rewrite He. repeat split. }
  split; [exact Hn|]. split; [reflexivity|].
  split; [exact Hpc|]. split; [exact Htail|]. split; [exact Hregs|].
  reflexivity.
Defined.

(** C4 fails on [Scenario.store_load].  After four cycles the store
    (station 2, issued at clock 1) and the load (station 1, issued at
    clock 2) are both in flight for address [R7 + 1 = 101], and the load
    has not read yet.  In the fifth cycle the load reads the old word 77
    while the store is still in flight, waiting for its data with the
    bare offset in [A].  The run ends with the store's 10 in memory and
    the stale 77 in [R1]. *)
Theorem load_reads_before_older_store :
  let s4 := Tomasulo.steps 4 Scenario.store_load in
  let s5 := Tomasulo.steps 5 Scenario.store_load in
  let s12 := Tomasulo.steps 12 Scenario.store_load in
  (unit <$> RS s4 !! 2%nat = Some STORE ∧ busy <$> RS s4 !! 2%nat = Some true
   ∧ unit <$> RS s4 !! 1%nat = Some LOAD ∧ busy <$> RS s4 !! 1%nat = Some true
   ∧ result <$> RS s4 !! 1%nat = Some None
   ∧ Tomasulo.getLatestIssueClock s4 2 = Some 1
   ∧ Tomasulo.getLatestIssueClock s4 1 = Some 2
   ∧ Vj <$> RS s4 !! 2%nat = Some (Some 100)
   ∧ instruction <$> RS s4 !! 2%nat
     = Some (Some (mkInstruction (OpCode.code STORE) (Some 5) (Some 7) None
                     (Some 1) None))
   ∧ A <$> RS s4 !! 1%nat = Some (Some 101))
  ∧ (busy <$> RS s5 !! 2%nat = Some true
     ∧ A <$> RS s5 !! 2%nat = Some (Some 1)
     ∧ result <$> RS s5 !! 1%nat = Some (Some 77)
     ∧ Tomasulo.mem_get (Memory s5) 101 = Some 77)
  ∧ (Forall idle_station (RS s12)
     ∧ Registers s12 !! 1%nat = Some 77
     ∧ Tomasulo.mem_get (Memory s12) 101 = Some 10).
Proof.
  vm_compute. repeat split; repeat constructor.
Qed.

(** C10 fails on [Scenario.branch].  After the third cycle, in which the
    branch is taken and the two additions behind it are squashed, no
    station is busy, yet registers 3 and 6 are still renamed to the
    squashed stations.  The next instruction, [ADD R7,R3,R3], is issued
    into ADD1 and waits for the tag ADD1, that is for itself: it is still
    waiting after forty cycles.  On [Scenario.branch_independent] the
    next instruction, [ADD R7,R1,R2], runs in ADD1 and its result 10 is
    written to register 3, the first register still renamed to ADD1,
    while register 7 keeps its old value and stays renamed. *)
Theorem squash_leaves_stale_rename :
  let s3 := Tomasulo.steps 3 Scenario.branch in
  let s40 := Tomasulo.steps 40 Scenario.branch in
  let t40 := Tomasulo.steps 40 Scenario.branch_independent in
  reachable s3
  ∧ RegisterStatus s3 !! 3%nat = Some (Some "ADD1"%string)
  ∧ RegisterStatus s3 !! 6%nat = Some (Some "ADD2"%string)
  ∧ Forall (fun rs => busy rs = false) (RS s3)
  ∧ (busy <$> RS s40 !! 1%nat = Some true
     ∧ name <$> RS s40 !! 1%nat = Some "ADD1"%string
     ∧ Qj <$> RS s40 !! 1%nat = Some (Some "ADD1"%string)
     ∧ Registers s40 !! 7%nat = Some 100)
  ∧ (Forall (fun rs => busy rs = false) (RS t40)
     ∧ Registers t40 !! 3%nat = Some 10
     ∧ Registers t40 !! 7%nat = Some 100
     ∧ RegisterStatus t40 !! 7%nat = Some (Some "ADD1"%string)).
Proof.
  split; [apply steps_reachable, branch_configured|].
  vm_compute. repeat split; repeat constructor.
Qed.

Lemma nested_branch_configured : configured nested_branch.
Proof. vm_compute. repeat split; repeat constructor. Qed.

(** C5 fails on [nested_branch].  The branch at address 1 waits in BEQ1
    for the product while the addition at address 2 and the branch at
    address 3 are issued behind it.  The younger branch resolves in the
    fifth cycle and clears [isBranchPending], the flag that holds Execute
    and WriteBack back, although the older branch is still in flight: the
    addition executes in that cycle and its result 3 is written to
    register 3 in the sixth.  When the older branch is taken in the
    thirteenth cycle, it redirects [PC] to [3 + 1 + 1], counts a
    misprediction and removes the Issued entries of the addition and of
    the younger branch, but register 3 keeps the result of the instruction
    that was rolled back, in every later state. *)
Theorem speculative_result_survives_squash :
  let s := nested_branch in
  let s3 := Tomasulo.steps 3 s in
  let s5 := Tomasulo.steps 5 s in
  let s12 := Tomasulo.steps 12 s in
  let s13 := Tomasulo.steps 13 s in
  reachable s13
  ∧ (isBranchPending s3 = true
     ∧ unit <$> RS s3 !! 0%nat = Some BEQ
     ∧ busy <$> RS s3 !! 0%nat = Some true
     ∧ PC_Original <$> RS s3 !! 0%nat = Some (Some 1)
     ∧ Qj <$> RS s3 !! 0%nat = Some (Some "MUL1"%string)
     ∧ busy <$> RS s3 !! 2%nat = Some true
     ∧ PC_Original <$> RS s3 !! 2%nat = Some (Some 2)
     ∧ Registers s3 !! 3%nat = Some 30)
  ∧ (isBranchPending (Tomasulo.steps 4 s) = true
     ∧ isBranchPending s5 = false
     ∧ busy <$> RS s5 !! 0%nat = Some true
     ∧ PC_Original <$> RS s5 !! 0%nat = Some (Some 1)
     ∧ result <$> RS s5 !! 2%nat = Some (Some 3)
     ∧ Registers s5 !! 3%nat = Some 30)
  ∧ ((Tomasulo.step_log s5).1 = [Tomasulo.mkBroadcast 2 "ADD1" 3]
     ∧ Registers (Tomasulo.steps 6 s) !! 3%nat = Some 3)
  ∧ (branchMispredictions s12 = 0
     ∧ IssuedAfterBranch s12 = 2
     ∧ map (fun e => (opcode (t_Instruction e), t_clock e))
         (IssuedTracker s12)
       = [(OpCode.code MUL, 0); (OpCode.code BEQ, 1);
          (OpCode.code ADD, 2); (OpCode.code BEQ, 3)]
     ∧ branchMispredictions s13 = 1
     ∧ PC s13 = 3 + 1 + 1
     ∧ IssuedAfterBranch s13 = 0
     ∧ map (fun e => (opcode (t_Instruction e), t_clock e))
         (IssuedTracker s13)
       = [(OpCode.code MUL, 0); (OpCode.code BEQ, 1)]
     ∧ Forall (fun rs => busy rs = false) (RS s13))
  ∧ ∀ n, (13 ≤ n)%nat → Registers (Tomasulo.steps n s) !! 3%nat = Some 3.
Proof.
  intros s s3 s5 s12 s13.
  split; [apply steps_reachable, nested_branch_configured|].
  split; [vm_compute; repeat split|].
  split; [vm_compute; repeat split|].
  split; [vm_compute; repeat split|].
  split; [vm_compute; repeat split; repeat constructor|].
  intros n Hn.
  assert (Hidle : idle s13).
  { vm_compute. repeat split; repeat constructor. }
  replace n with (13 + (n - 13))%nat by lia. rewrite steps_add.
  fold s13. destruct (steps_idle (n - 13) s13 Hidle) as (_ & _ & -> & _).
  vm_compute. reflexivity.
Qed.

(** * Further properties of the code *)

(** ** The codec, beyond the round trip *)

Section CodecMore.

Import Instruction.

Lemma and_word x : 0 ≤ JS.and x 0xffff ≤ 65535.
Proof.
  assert (JS.and x 65535 = JS.ToInt32 x mod 65536) as ->
    by (apply (and_ones x 16); lia).
  pose proof (Z.mod_pos_bound (JS.ToInt32 x) 65536). lia.
Qed.

Lemma and_15 x : 0 ≤ JS.and x 15 ≤ 15.
Proof.
  assert (JS.and x 15 = JS.ToInt32 x mod 16) as ->
    by (apply (and_ones x 4); lia).
  pose proof (Z.mod_pos_bound (JS.ToInt32 x) 16). lia.
Qed.

Lemma decode_opcode w i :
  decode w = Ok i → opcode i = JS.and (JS.sar w 12) 0xf.
Proof.
  unfold decode.
  pose proof (and_7 (JS.sar w 9)). pose proof (and_7 (JS.sar w 6)).
  pose proof (and_7 (JS.sar w 3)).
  pose proof (sign_extend_5 _ (and_31 w)) as H5.
  pose proof (sign_extend_7 _ (and_127 w)) as H7.
  unfold sign_extend in H5, H7.
  repeat case_match; (rewrite new_ok by (simpl; auto; lia));
    intros [= <-]; reflexivity.
Qed.

Lemma new_ok_default op a b c o l :
  in_range 0 7 a → in_range 0 7 b → in_range 0 7 c →
  in_range (-16) 15 o → in_range (-64) 63 l →
  new (mkInit op a b c o l)
  = Ok (mkInstruction (default (OpCode.code ADD) op) a b c o l).
Proof.
  destruct op as [op|]; [apply new_ok|].
  intros Ha Hb Hc Ho Hl.
  unfold new, constructor, setrA, setrB, setrC, setOffset, setLabel,
    setOpcode, validateRegister, ifdef, when, modify, throw.
  destruct a, b, c, o, l; simpl in *;
    unfold mbind, Exc_bind, mret, Exc_ret; simpl;
    rewrite ?(range_test 0 7), ?(range_test (-16) 15),
      ?(range_test (-64) 63) by assumption;
    reflexivity.
Qed.

Lemma new_throws_offset init :
  bad (-16) 15 (init_offset init) → ∃ msg, new init = Throw msg.
Proof.
  intros H. destruct init as [op a b c o l]. simpl in H.
  unfold new, constructor, setrA, setrB, setrC, setOffset, setLabel,
    setOpcode, validateRegister, ifdef, when, modify, throw,
    mbind, Exc_bind, mret, Exc_ret.
  destruct H as (v & -> & Hv);
    pose proof (range_test_bad _ _ v Hv) as Ht;
    repeat (simpl; try rewrite Ht; case_match; simplify_eq; eauto).
Qed.

Lemma in_range_or_bad lo hi x : in_range lo hi x ∨ bad lo hi x.
Proof.
  destruct x as [v|]; simpl; [|left; exact I].
  destruct (Z_lt_dec v lo); [right; eexists; split; eauto|].
  destruct (Z_lt_dec hi v); [right; eexists; split; eauto|]. left. lia.
Qed.

(** What the constructor returns, when it returns. *)
Lemma new_inv init i :
  new init = Ok i →
  i = mkInstruction (default (OpCode.code ADD) (init_opcode init))
        (init_rA init) (init_rB init) (init_rC init)
        (init_offset init) (init_label init)
  ∧ well_formed i.
Proof.
  intros H.
  destruct (in_range_or_bad 0 7 (init_rA init)) as [Ha | Ha];
    [|destruct (new_throws init) as [msg Hm]; [auto | congruence]].
  destruct (in_range_or_bad 0 7 (init_rB init)) as [Hb | Hb];
    [|destruct (new_throws init) as [msg Hm]; [auto | congruence]].
  destruct (in_range_or_bad 0 7 (init_rC init)) as [Hc | Hc];
    [|destruct (new_throws init) as [msg Hm]; [auto | congruence]].
  destruct (in_range_or_bad (-64) 63 (init_label init)) as [Hl | Hl];
    [|destruct (new_throws init) as [msg Hm]; [auto | congruence]].
  destruct (in_range_or_bad (-16) 15 (init_offset init)) as [Ho | Ho];
    [|destruct (new_throws_offset init Ho) as [msg Hm]; congruence].
  destruct init as [op a b c o l]. simpl in *.
  rewrite new_ok_default in H by assumption. injection H as <-.
  split; [reflexivity|]. repeat split; assumption.
Qed.

Lemma decoded_form_injective i j :
  valid i → valid j → decoded_form i = decoded_form j → i = j.
Proof.
  intros Hi Hj.
  destruct Hi as [op a b o Hop _ _ _ | l _ | | op a b c Hop _ _ _];
    destruct Hj as [op' a' b' o' Hop' _ _ _ | l' _ | | op' a' b' c' Hop' _ _ _];
    repeat match goal with
           | H : _ ∨ _ |- _ => destruct H as [-> | H]
           | H : _ = _ |- _ => subst
           end;
    unfold decoded_form; simpl; intros H; try discriminate H;
    try reflexivity; injection H; intros; subst; reflexivity.
Qed.

Lemma encode_range i : 0 ≤ encode i ≤ 65535.
Proof. unfold encode. cbv zeta. apply and_word. Qed.

End CodecMore.

(** X1: [encode] yields a 16-bit word, whatever the fields of the
    instruction are. *)
Theorem encode_is_word (i : Instruction) :
  0 ≤ Instruction.encode i ≤ 65535.
Proof. apply encode_range. Qed.

(** X2: [decode] never throws: every number decodes to an instruction
    whose opcode is the top nibble, in [0,15], and whose fields have the
    shape and the ranges of its format. *)
Theorem decode_never_throws (w : Z) :
  ∃ i, Instruction.decode w = Ok i ∧ decoded i
       ∧ opcode i = JS.and (JS.sar w 12) 0xf ∧ 0 ≤ opcode i ≤ 15.
Proof.
  destruct (decode_fields w) as (i & H & Hd). exists i.
  pose proof (decode_opcode w i H) as Ho.
  repeat split; auto; rewrite Ho; apply and_15.
Qed.

Lemma encode_eq_valid (i j : Instruction) :
  valid i → valid j →
  Instruction.encode i = Instruction.encode j → i = j.
Proof.
  intros Hi Hj He. apply decoded_form_injective; auto.
  pose proof (decode_encode_form i Hi) as H1.
  pose proof (decode_encode_form j Hj) as H2.
  rewrite He, H2 in H1. injection H1 as <-. reflexivity.
Qed.

(** X3: [encode] is injective on valid instructions: two valid
    instructions with the same word are the same instruction, so a word
    in memory stands for at most one valid instruction. *)
Theorem encode_injective_on_valid (i j : Instruction) :
  valid i → valid j →
  Instruction.encode i = Instruction.encode j → i = j.
Proof. apply encode_eq_valid. Qed.

Lemma encode_injective_on_valid_witness :
  valid LOAD_R0
  ∧ valid (mkInstruction (OpCode.code LOAD) (Some 0) (Some 0) None
             (Some (2 - 2)) None)
  ∧ LOAD_R0
    = mkInstruction (OpCode.code LOAD) (Some 0) (Some 0) None
        (Some (2 - 2)) None.
Proof.
  assert (H : valid LOAD_R0)
    by (apply (valid_mem LOAD); unfold reg_ok; auto; lia).
  assert (H' : valid (mkInstruction (OpCode.code LOAD) (Some 0) (Some 0) None
                        (Some (2 - 2)) None))
    by (apply (valid_mem LOAD); unfold reg_ok; auto; lia).
  split; [exact H|]. split; [exact H'|].
  exact (encode_injective_on_valid _ _ H H' eq_refl).
Defined.

(** X4: the zero word, which [Issue] reads as "no instruction", is the
    word of exactly one valid instruction, [LOAD R0,0(R0)]; loaded at
    [PC], that instruction is never issued. *)
Theorem zero_word_is_LOAD_R0 (i : Instruction) :
  valid i →
  (Instruction.encode i = 0 ↔ i = LOAD_R0)
  ∧ ∀ s, 0 ≤ PC s ≤ 65535 →
      Tomasulo.Issue (Tomasulo.addInstruction LOAD_R0 (PC s) s).2
      = (Tomasulo.addInstruction LOAD_R0 (PC s) s).2.
Proof.
  intros Hi. split.
  - split.
    + intros He. apply encode_eq_valid; auto.
      apply (valid_mem LOAD); unfold reg_ok; auto; lia.
    + intros ->. reflexivity.
  - intros s Hpc. apply Issue_zero_word_id.
    unfold Tomasulo.addInstruction, when, modify, mbind, Exc_bind,
      Tomasulo.Memory_length.
    replace ((PC s <? 0) || (PC s >=? 65536)) with false
      by (symmetry; apply orb_false_iff; lia).
    simpl. unfold Tomasulo.mem_get, Tomasulo.mem_put, Tomasulo.Memory_length.
    replace ((0 <=? PC s) && (PC s <? 65536)) with true
      by (symmetry; apply andb_true_iff; lia).
    rewrite lookup_insert_eq. reflexivity.
Qed.

Lemma zero_word_is_LOAD_R0_witness :
  valid LOAD_R0 ∧ Instruction.encode LOAD_R0 = 0.
Proof.
  assert (H : valid LOAD_R0)
    by (apply (valid_mem LOAD); unfold reg_ok; auto; lia).
  split; [exact H|].
  apply (proj1 (zero_word_is_LOAD_R0 LOAD_R0 H)). reflexivity.
Defined.

(** X5: an instruction built by the constructor has its fields in the
    ranges of the setters, and [clone] returns an equal instruction. *)
Theorem clone_of_constructed (init : InstructionInit) (i : Instruction) :
  Instruction.new init = Ok i →
  well_formed i ∧ Instruction.clone i = Ok i.
Proof.
  intros H. destruct (new_inv init i H) as [_ Hw]. split; [exact Hw|].
  destruct Hw as (Ha & Hb & Hc & Ho & Hl). destruct i. apply new_ok; assumption.
Qed.

Lemma clone_of_constructed_witness :
  Instruction.new (Driver.instr BEQ (Some 1) (Some 2) None (Some (-3)) None)
  = Ok (mkInstruction 2 (Some 1) (Some 2) None (Some (-3)) None)
  ∧ Instruction.clone (mkInstruction 2 (Some 1) (Some 2) None (Some (-3)) None)
    = Ok (mkInstruction 2 (Some 1) (Some 2) None (Some (-3)) None).
Proof.
  assert (H : Instruction.new
                (Driver.instr BEQ (Some 1) (Some 2) None (Some (-3)) None)
              = Ok (mkInstruction 2 (Some 1) (Some 2) None (Some (-3)) None))
    by reflexivity.
  split; [exact H|]. exact (proj2 (clone_of_constructed _ _ H)).
Defined.

(** X6: [setOffset] accepts exactly the offsets in [-16,15]: within the
    range it stores the offset and touches no other field, outside it
    throws and leaves the instruction as it was. *)
Theorem setOffset_validates (o : Z) (i : Instruction) :
  (-16 ≤ o ≤ 15 →
   Instruction.setOffset o i
   = (Ok (), mkInstruction (opcode i) (rA i) (rB i) (rC i) (Some o) (label i)))
  ∧ (o < -16 ∨ 15 < o →
     ∃ msg, Instruction.setOffset o i = (Throw msg, i)).
Proof.
  split; intros H.
  - unfold Instruction.setOffset, when, modify, mbind, Exc_bind.
    rewrite (range_test (-16) 15 o H). reflexivity.
  - eexists. apply setOffset_throws, H.
Qed.

Lemma setOffset_validates_witness :
  (-16 ≤ 15 ≤ 15)
  ∧ Instruction.setOffset 15 Instruction.fresh
    = (Ok (), mkInstruction 5 None None None (Some 15) None)
  ∧ (16 < -16 ∨ 15 < 16)
  ∧ ∃ msg, Instruction.setOffset 16 Instruction.fresh = (Throw msg, Instruction.fresh).
Proof.
  assert (H1 : -16 ≤ 15 ≤ 15) by lia.
  assert (H2 : 16 < -16 ∨ 15 < 16) by (right; lia).
  split; [exact H1|].
  split; [exact (proj1 (setOffset_validates 15 Instruction.fresh) H1)|].
  split; [exact H2|].
  exact (proj2 (setOffset_validates 16 Instruction.fresh) H2).
Defined.

(** ** Loading programs and data *)

Section Loading.

Import Tomasulo.

Lemma mem_get_put_eq a v m :
  0 ≤ a ≤ 65535 → mem_get (mem_put a v m) a = Some (JS.ToUint16 v).
Proof.
  intros H. unfold mem_get, mem_put, Memory_length.
  replace ((0 <=? a) && (a <? 65536)) with true
    by (symmetry; apply andb_true_iff; lia).
  rewrite lookup_insert_eq. reflexivity.
Qed.

Lemma mem_get_put_ne a b v m :
  a ≠ b → mem_get (mem_put a v m) b = mem_get m b.
Proof.
  intros H. unfold mem_get, mem_put.
  destruct ((0 <=? a) && (a <? Memory_length)); [|reflexivity].
  rewrite lookup_insert_ne by exact H. reflexivity.
Qed.

Lemma mem_put_all_outside data a m b :
  b < a ∨ a + Z.of_nat (length data) ≤ b →
  mem_get (mem_put_all data a m) b = mem_get m b.
Proof.
  revert a m. induction data as [|w rest IH]; intros a m H; simpl;
    [reflexivity|].
  rewrite IH by (simpl in H; lia).
  apply mem_get_put_ne. simpl in H. lia.
Qed.

Lemma mem_put_all_inside data a m k w :
  0 ≤ a → a + Z.of_nat (length data) ≤ 65536 →
  data !! k = Some w →
  mem_get (mem_put_all data a m) (a + Z.of_nat k) = Some (JS.ToUint16 w).
Proof.
  revert a m k. induction data as [|w0 rest IH]; intros a m k Ha Hlen Hk;
    [discriminate|].
  simpl in Hlen. destruct k as [|k]; simpl in Hk; simpl mem_put_all.
  - injection Hk as ->. rewrite Z.add_0_r.
    rewrite mem_put_all_outside by lia. apply mem_get_put_eq. lia.
  - replace (a + Z.of_nat (S k)) with ((a + 1) + Z.of_nat k) by lia.
    apply (IH (a + 1)); [lia | lia | exact Hk].
Qed.

Lemma addInstruction_ok instr address s :
  0 ≤ address ≤ 65535 →
  addInstruction instr address s
  = (Ok (), set_Memory (mem_put address (Instruction.encode instr) (Memory s))
              (set_Instructions (Instructions s ++ [instr]) s)).
Proof.
  intros H. unfold addInstruction, when, modify, mbind, Exc_bind, Memory_length.
  replace ((address <? 0) || (address >=? 65536)) with false
    by (symmetry; apply orb_false_iff; lia).
  reflexivity.
Qed.

Lemma ToUint16_encode instr :
  JS.ToUint16 (Instruction.encode instr) = Instruction.encode instr.
Proof.
  unfold JS.ToUint16. apply Z.mod_small.
  pose proof (encode_range instr). lia.
Qed.

(** The effect of the loop of [addInstructions] on a range that fits. *)
Lemma addInstructions_from_ok instructions address index s :
  0 ≤ address + index →
  address + index + Z.of_nat (length instructions) ≤ 65536 →
  ∃ s', addInstructions_from instructions address index s = (Ok (), s')
    ∧ Instructions s' = Instructions s ++ instructions
    ∧ (∀ k instr, instructions !! k = Some instr →
         mem_get (Memory s') (address + index + Z.of_nat k)
         = Some (Instruction.encode instr))
    ∧ (∀ b, b < address + index
            ∨ address + index + Z.of_nat (length instructions) ≤ b →
         mem_get (Memory s') b = mem_get (Memory s) b)
    ∧ PC s' = PC s ∧ RS s' = RS s ∧ Registers s' = Registers s
    ∧ (configured s → configured s').
Proof.
  revert index s.
  induction instructions as [|instr rest IH]; intros index s H0 Hlen.
  - exists s. simpl. rewrite app_nil_r.
    split; [reflexivity|]. split; [reflexivity|].
    split; [intros k instr Hk; discriminate|].
    split; [reflexivity|]. auto.
  - simpl in Hlen. simpl.
    unfold mbind at 1, Exc_bind, when, Memory_length.
    replace ((address + index <? 0) || (address + index >=? 65536)) with false
      by (symmetry; apply orb_false_iff; lia).
    simpl. unfold mbind at 1, Exc_bind.
    rewrite addInstruction_ok by lia.
    destruct (IH (index + 1)
                (set_Memory (mem_put (address + index)
                               (Instruction.encode instr) (Memory s))
                   (set_Instructions (Instructions s ++ [instr]) s)))
      as (s' & Hrun & Hi & Hin & Hout & Hpc & Hrs & Hreg & Hconf);
      [lia | lia |].
    exists s'. split; [exact Hrun|]. simpl in *.
    split; [rewrite Hi, <- app_assoc; reflexivity|].
    split; [|split; [|split; [exact Hpc|]; split; [exact Hrs|];
                       split; [exact Hreg|];
                       intros Hc; apply Hconf; exact Hc]].
    + intros k i Hk. destruct k as [|k]; simpl in Hk.
      * injection Hk as ->. rewrite Z.add_0_r.
        rewrite Hout by lia. rewrite mem_get_put_eq by lia.
        f_equal. apply ToUint16_encode.
      * replace (address + index + Z.of_nat (S k))
          with (address + (index + 1) + Z.of_nat k) by lia.
        apply Hin, Hk.
    + intros b Hb. rewrite Hout by lia. apply mem_get_put_ne. lia.
Qed.

(** The loop on a range that runs past the end of memory: it throws at
    the first element that does not fit, after loading the ones before. *)
Lemma addInstructions_from_overflow instructions address index s :
  0 ≤ address + index ≤ 65536 →
  65536 < address + index + Z.of_nat (length instructions) →
  addInstructions_from instructions address index s
  = (Throw "Memory access out of bounds",
     (addInstructions_from
        (take (Z.to_nat (65536 - (address + index))) instructions)
        address index s).2).
Proof.
  revert index s.
  induction instructions as [|instr rest IH]; intros index s H0 Hlen;
    [simpl in Hlen; lia|].
  simpl in Hlen.
  destruct (Z.eq_dec (address + index) 65536) as [He | Hne].
  - rewrite He. simpl.
    unfold mbind at 1, Exc_bind, when, Memory_length.
    replace ((address + index <? 0) || (address + index >=? 65536)) with true
      by (symmetry; apply orb_true_iff; lia).
    reflexivity.
  - replace (Z.to_nat (65536 - (address + index)))
      with (S (Z.to_nat (65536 - (address + (index + 1))))) by lia.
    simpl.
    unfold mbind at 1 3, Exc_bind, when, Memory_length.
    replace ((address + index <? 0) || (address + index >=? 65536)) with false
      by (symmetry; apply orb_false_iff; lia).
    simpl. unfold mbind at 1 2, Exc_bind.
    rewrite addInstruction_ok by lia.
    apply IH; lia.
Qed.

End Loading.

(** X7: [addInstruction] at an address in [0,65535] returns normally,
    appends the instruction to [Instructions], stores its word at that
    address and changes no other word, nor [PC], the stations or the
    registers; the word fetched back decodes to the instruction when it is
    a valid one other than [RET]. *)
Theorem addInstruction_stores (instr : Instruction) (address : Z)
    (s : Tomasulo) :
  0 ≤ address ≤ 65535 →
  ∃ s', Tomasulo.addInstruction instr address s = (Ok (), s')
    ∧ Instructions s' = Instructions s ++ [instr]
    ∧ Tomasulo.mem_get (Memory s') address = Some (Instruction.encode instr)
    ∧ (∀ b, b ≠ address →
         Tomasulo.mem_get (Memory s') b = Tomasulo.mem_get (Memory s) b)
    ∧ PC s' = PC s ∧ RS s' = RS s ∧ Registers s' = Registers s
    ∧ (valid instr → opcode instr ≠ OpCode.code RET →
       Instruction.decode (default 0 (Tomasulo.mem_get (Memory s') address))
       = Ok instr).
Proof.
  intros H. eexists. split; [apply addInstruction_ok, H|]. simpl.
  assert (Hm : Tomasulo.mem_get
                 (Tomasulo.mem_put address (Instruction.encode instr) (Memory s))
                 address = Some (Instruction.encode instr)).
  { rewrite mem_get_put_eq by exact H. f_equal. apply ToUint16_encode. }
  split; [reflexivity|]. split; [exact Hm|].
  split; [intros b Hb; apply mem_get_put_ne; auto|].
  split; [reflexivity|]. split; [reflexivity|]. split; [reflexivity|].
  intros Hv Hop. rewrite Hm. simpl.
  rewrite (decode_encode_form instr Hv). unfold decoded_form, is_op.
  destruct (Z.eqb_spec (opcode instr) (OpCode.code RET)); [contradiction|].
  reflexivity.
Qed.

Lemma addInstruction_stores_witness :
  0 ≤ 7 ≤ 65535
  ∧ ∃ s', Tomasulo.addInstruction LOAD_R0 7 Tomasulo.new = (Ok (), s')
          ∧ Tomasulo.mem_get (Memory s') 7 = Some (Instruction.encode LOAD_R0).
Proof.
  assert (H : 0 ≤ 7 ≤ 65535) by lia. split; [exact H|].
  destruct (addInstruction_stores LOAD_R0 7 Tomasulo.new H)
    as (s' & H1 & _ & H2 & _).
  exists s'. split; [exact H1 | exact H2].
Defined.

(** X8: [addInstructions] on a block that fits in memory returns
    normally, appends the instructions in order, stores the word of the
    k-th instruction at [address + k] and leaves every word outside the
    block, [PC], the stations and the registers as they were. *)
Theorem addInstructions_loads (instructions : list Instruction)
    (address : Z) (s : Tomasulo) :
  0 ≤ address →
  address + Z.of_nat (length instructions) ≤ 65536 →
  ∃ s', Tomasulo.addInstructions instructions address s = (Ok (), s')
    ∧ Instructions s' = Instructions s ++ instructions
    ∧ (∀ k instr, instructions !! k = Some instr →
         Tomasulo.mem_get (Memory s') (address + Z.of_nat k)
         = Some (Instruction.encode instr))
    ∧ (∀ b, b < address ∨ address + Z.of_nat (length instructions) ≤ b →
         Tomasulo.mem_get (Memory s') b = Tomasulo.mem_get (Memory s) b)
    ∧ PC s' = PC s ∧ RS s' = RS s ∧ Registers s' = Registers s.
Proof.
  intros H0 Hlen.
  destruct (addInstructions_from_ok instructions address 0 s)
    as (s' & Hrun & Hi & Hin & Hout & Hpc & Hrs & Hreg & _); [lia | lia |].
  exists s'. split; [exact Hrun|]. split; [exact Hi|].
  split; [|split; [|auto]].
  - intros k instr Hk. specialize (Hin k instr Hk).
    rewrite Z.add_0_r in Hin. exact Hin.
  - intros b Hb. apply Hout. lia.
Qed.

Lemma addInstructions_loads_witness :
  0 ≤ 65534
  ∧ 65534 + Z.of_nat (length [LOAD_R0; RET_instruction]) ≤ 65536
  ∧ ∃ s', Tomasulo.addInstructions [LOAD_R0; RET_instruction] 65534 Tomasulo.new
          = (Ok (), s')
          ∧ Instructions s' = [LOAD_R0; RET_instruction].
Proof.
  assert (H1 : 0 ≤ 65534) by lia.
  assert (H2 : 65534 + Z.of_nat (length [LOAD_R0; RET_instruction]) ≤ 65536)
    by (simpl; lia).
  split; [exact H1|]. split; [exact H2|].
  destruct (addInstructions_loads [LOAD_R0; RET_instruction] 65534
              Tomasulo.new H1 H2) as (s' & Hr & Hi & _).
  exists s'. split; [exact Hr | exact Hi].
Defined.

(** X9: [addInstructions] is not all-or-nothing.  On a block that starts
    inside memory and runs past its end, it throws, but only after
    loading the instructions that fit: they are in [Instructions] and in
    memory when the exception leaves the call. *)
Theorem addInstructions_partial (instructions : list Instruction)
    (address : Z) (s : Tomasulo) :
  0 ≤ address ≤ 65536 →
  65536 < address + Z.of_nat (length instructions) →
  ∃ s', Tomasulo.addInstructions instructions address s
        = (Throw "Memory access out of bounds", s')
    ∧ Instructions s'
      = Instructions s ++ take (Z.to_nat (65536 - address)) instructions
    ∧ (∀ k instr, (k < Z.to_nat (65536 - address))%nat →
         instructions !! k = Some instr →
         Tomasulo.mem_get (Memory s') (address + Z.of_nat k)
         = Some (Instruction.encode instr)).
Proof.
  intros H0 Hlen.
  destruct (addInstructions_from_ok
              (take (Z.to_nat (65536 - address)) instructions) address 0 s)
    as (s' & Hrun & Hi & Hin & _); [lia | rewrite length_take; lia |].
  exists s'. unfold Tomasulo.addInstructions.
  rewrite addInstructions_from_overflow by lia.
  rewrite Z.add_0_r, Hrun. simpl.
  split; [reflexivity|]. split; [exact Hi|].
  intros k instr Hk Hl. specialize (Hin k instr).
  rewrite Z.add_0_r in Hin. apply Hin.
  rewrite lookup_take_lt by exact Hk. exact Hl.
Qed.

Lemma addInstructions_partial_witness :
  0 ≤ 65535 ≤ 65536
  ∧ 65536 < 65535 + Z.of_nat (length [RET_instruction; RET_instruction])
  ∧ ∃ s', Tomasulo.addInstructions [RET_instruction; RET_instruction] 65535
            Tomasulo.new
          = (Throw "Memory access out of bounds", s')
          ∧ Instructions s' = [RET_instruction].
Proof.
  assert (H1 : 0 ≤ 65535 ≤ 65536) by lia.
  assert (H2 : 65536 < 65535
                 + Z.of_nat (length [RET_instruction; RET_instruction]))
    by (simpl; lia).
  split; [exact H1|]. split; [exact H2|].
  destruct (addInstructions_partial [RET_instruction; RET_instruction] 65535
              Tomasulo.new H1 H2) as (s' & Hr & Hi & _).
  exists s'. split; [exact Hr | exact Hi].
Defined.

(** X10: [addData] on a block that fits in memory returns normally,
    stores the k-th word (reduced to 16 bits) at [address + k], and
    leaves every word outside the block, [PC] and the program list as
    they were. *)
Theorem addData_loads (data : list Z) (address : Z) (s : Tomasulo) :
  0 ≤ address →
  address + Z.of_nat (length data) ≤ 65536 →
  ∃ s', Tomasulo.addData data address s = (Ok (), s')
    ∧ (∀ k w, data !! k = Some w →
         Tomasulo.mem_get (Memory s') (address + Z.of_nat k)
         = Some (w mod 65536))
    ∧ (∀ b, b < address ∨ address + Z.of_nat (length data) ≤ b →
         Tomasulo.mem_get (Memory s') b = Tomasulo.mem_get (Memory s) b)
    ∧ PC s' = PC s ∧ Instructions s' = Instructions s
    ∧ Registers s' = Registers s.
Proof.
  intros H0 Hlen. unfold Tomasulo.addData, when, modify, mbind, Exc_bind,
    Tomasulo.Memory_length.
  replace ((address <? 0) || (address + Z.of_nat (length data) >? 65536))
    with false by (symmetry; apply orb_false_iff; lia).
  eexists. split; [reflexivity|]. simpl.
  split; [|split; [|auto]].
  - intros k w Hk. apply (mem_put_all_inside data address _ k w); auto.
  - intros b Hb. apply mem_put_all_outside, Hb.
Qed.

Lemma addData_loads_witness :
  0 ≤ 100
  ∧ 100 + Z.of_nat (length [42; 70000]) ≤ 65536
  ∧ ∃ s', Tomasulo.addData [42; 70000] 100 Tomasulo.new = (Ok (), s')
          ∧ Tomasulo.mem_get (Memory s') (100 + Z.of_nat 1)
            = Some (70000 mod 65536).
Proof.
  assert (H1 : 0 ≤ 100) by lia.
  assert (H2 : 100 + Z.of_nat (length [42; 70000]) ≤ 65536) by (simpl; lia).
  split; [exact H1|]. split; [exact H2|].
  destruct (addData_loads [42; 70000] 100 Tomasulo.new H1 H2)
    as (s' & Hr & Hin & _).
  exists s'. split; [exact Hr|]. apply Hin. reflexivity.
Defined.

(** X11: configuration never disturbs the machinery.  From a configured
    engine, adding a station, loading instructions or data and setting
    the start address leave a configured engine, whether the call returns
    or throws; the engine the constructor builds is configured. *)
Theorem configuration_keeps_configured (s : Tomasulo) :
  configured s →
  configured Tomasulo.new
  ∧ (∀ nm u cn ca cm,
       configured (Tomasulo.addReservationStation nm u cn ca cm s))
  ∧ (∀ instr a, configured (Tomasulo.addInstruction instr a s).2)
  ∧ (∀ l a, configured (Tomasulo.addInstructions l a s).2)
  ∧ (∀ data a, configured (Tomasulo.addData data a s).2)
  ∧ (∀ a, configured (Tomasulo.addStartAddress a s).2).
Proof.
  intros Hc.
  split; [repeat split; constructor|].
  split.
  { intros nm u cn ca cm.
    destruct Hc as (Hf & Hrest). split; [|exact Hrest].
    simpl. apply Forall_app. split; [exact Hf|].
    constructor; [reflexivity | constructor]. }
  split.
  { intros instr a.
    unfold Tomasulo.addInstruction, when, modify, throw, mbind, Exc_bind.
    destruct ((a <? 0) || (a >=? Tomasulo.Memory_length)); exact Hc. }
  split.
  { intros l a. unfold Tomasulo.addInstructions.
    generalize 0 as index. revert s Hc.
    induction l as [|instr rest IH]; intros s Hc index; [exact Hc|].
    simpl.
    unfold Tomasulo.addInstruction, when, modify, throw, mbind, Exc_bind.
    destruct ((a + index <? 0) || (a + index >=? Tomasulo.Memory_length));
      [exact Hc|].
    simpl.
    apply IH. exact Hc. }
  split.
  { intros data a.
    unfold Tomasulo.addData, when, modify, throw, mbind, Exc_bind.
    destruct ((a <? 0) || _); exact Hc. }
  intros a.
  unfold Tomasulo.addStartAddress, when, modify, throw, mbind, Exc_bind.
  destruct ((a <? 0) || _); exact Hc.
Qed.

Lemma configuration_keeps_configured_witness :
  configured Tomasulo.new
  ∧ configured (Tomasulo.addReservationStation "ADD1" ADD 2 0 0 Tomasulo.new).
Proof.
  assert (H : configured Tomasulo.new) by (repeat split; constructor).
  split; [exact H|].
  destruct (configuration_keeps_configured Tomasulo.new H) as (_ & Hs & _).
  exact (Hs "ADD1"%string ADD 2 0 0).
Defined.

(** ** Relations between the stations before and after a phase *)

Section StationRelation.

Import Tomasulo ReservationStation.

Variable R : ReservationStation → ReservationStation → Prop.
Hypothesis R_refl : ∀ rs, R rs rs.
Hypothesis R_trans : ∀ a b c, R a b → R b c → R a c.
Hypothesis R_set_A : ∀ v rs, R rs (set_A v rs).
Hypothesis R_stall :
  ∀ rs, cycles_passed rs = cycles_needed rs →
    R rs (set_cycles_passed (cycles_needed rs - 1) rs).
Hypothesis R_set_result :
  ∀ v rs, cycles_passed rs = cycles_needed rs → R rs (set_result v rs).
Hypothesis R_release :
  ∀ rs, cycles_passed rs = cycles_needed rs → R rs (release rs).
Hypothesis R_squash : ∀ rs, R rs (squash rs).
Hypothesis R_issue : ∀ rs rs', issue_frame rs rs' → R rs rs'.

Lemma related_refl l : Forall2 R l l.
Proof. apply Forall_Forall2_diag, Forall_forall. auto. Qed.

Lemma related_trans l1 l2 l3 :
  Forall2 R l1 l2 → Forall2 R l2 l3 → Forall2 R l1 l3.
Proof.
  intros H. revert l3. induction H; intros l3 H3; inversion H3; subst;
    constructor; eauto.
Qed.

Lemma related_alter l k f :
  (∀ e, l !! k = Some e → R e (f e)) → Forall2 R l (alter f k l).
Proof.
  intros H. apply Forall2_alter_r; [apply related_refl|].
  intros x y Hx Hy _. rewrite Hx in Hy. injection Hy as <-. auto.
Qed.

Lemma related_map l f : (∀ e, R e (f e)) → Forall2 R l (map f l).
Proof. intros H. induction l; simpl; constructor; auto. Qed.

Lemma related_insert l k e' :
  (∀ e, l !! k = Some e → R e e') → Forall2 R l (<[k := e']> l).
Proof.
  intros H. revert k H. induction l as [|x l IH]; intros k H; [constructor|].
  destruct k as [|k]; simpl.
  - constructor; [apply H; reflexivity | apply related_refl].
  - constructor; [apply R_refl | apply IH; intros e He; apply H; exact He].
Qed.

Lemma upd_related k f s :
  (∀ e, RS s !! k = Some e → R e (f e)) →
  Forall2 R (RS s) (RS (upd k f s)).
Proof. intros H. unfold upd. simpl. apply related_alter, H. Qed.

Lemma complete_related k ca cm s :
  (∀ e, RS s !! k = Some e → cycles_passed e = cycles_needed e) →
  Forall2 R (RS s) (RS (complete k ca cm s)).
Proof.
  intros H.
  destruct (complete_frame k ca cm s) as (_ & _ & _ & _ & _ & _ & _ & _ & ->).
  apply related_alter. auto.
Qed.

Lemma compute_address_related k s :
  Forall2 R (RS s) (RS (compute_address k s)).
Proof.
  unfold compute_address. repeat case_match; try apply related_refl.
  apply upd_related. auto.
Qed.

Lemma push_Executed_RS k s : RS (push_Executed k s) = RS s.
Proof. unfold push_Executed. case_match; reflexivity. Qed.

Lemma execute_station_related k s :
  Forall2 R (RS s) (RS (execute_station k s)).
Proof.
  unfold execute_station.
  destruct (unit <$> RS s !! k) as [[]|]; try apply related_refl.
  - unfold execute_LOAD.
    eapply related_trans; [apply (compute_address_related k s)|].
    destruct (RS (compute_address k s) !! k) as [element|] eqn:Hk;
      [|apply related_refl].
    destruct (busy element && (cycles_passed element =? cycles_needed element)
              && negb (isBranchPending (compute_address k s))) eqn:Hc;
      [|apply related_refl].
    apply andb_true_iff in Hc as [Hc _]. apply andb_true_iff in Hc as [_ Hc].
    apply Z.eqb_eq in Hc.
    destruct (hazard_LOAD k element (compute_address k s)).
    + apply upd_related. intros e He. rewrite Hk in He. injection He as <-.
      apply R_stall, Hc.
    + rewrite push_Executed_RS. apply upd_related.
      intros e He. rewrite Hk in He. injection He as <-.
      apply R_set_result, Hc.
  - unfold execute_STORE.
    eapply related_trans; [apply (compute_address_related k s)|].
    destruct (RS (compute_address k s) !! k) as [element|] eqn:Hk;
      [|apply related_refl].
    destruct (busy element && (cycles_passed element =? cycles_needed element)
              && negb (isBranchPending (compute_address k s))) eqn:Hc;
      [|apply related_refl].
    apply andb_true_iff in Hc as [Hc _]. apply andb_true_iff in Hc as [_ Hc].
    apply Z.eqb_eq in Hc.
    destruct (hazard_STORE k element (compute_address k s)).
    + apply upd_related. intros e He. rewrite Hk in He. injection He as <-.
      apply R_stall, Hc.
    + destruct (A element) as [a|];
        [apply (complete_related k _ _
                  (set_Memory (mem_put a (JS.num (Vk element))
                                 (Memory (compute_address k s)))
                     (compute_address k s)))
        | apply complete_related]; simpl;
        intros e He; rewrite Hk in He; injection He as <-; exact Hc.
  - unfold execute_BEQ.
    destruct (RS s !! k) as [element|] eqn:Hk; [|apply related_refl].
    destruct (busy element && (cycles_passed element =? cycles_needed element))
      eqn:Hc; [|apply related_refl].
    apply andb_true_iff in Hc as [_ Hc]. apply Z.eqb_eq in Hc.
    destruct (bool_decide (Vj element = Vk element)).
    + eapply related_trans; [|apply complete_related].
      * unfold branch_taken. simpl. apply related_map.
        intros e. case_match; auto.
      * unfold branch_taken. simpl. intros e He.
        rewrite lookup_map, Hk in He. simpl in He. injection He as <-.
        case_match; exact Hc.
    + apply (complete_related k 0 0 (branch_not_taken element s)).
      unfold branch_not_taken. simpl.
      intros e He. rewrite Hk in He. injection He as <-. exact Hc.
  - unfold execute_CALL.
    destruct (RS s !! k) as [element|] eqn:Hk; [|apply related_refl].
    destruct (busy element && (cycles_passed element =? cycles_needed element)
              && negb (isBranchPending s)) eqn:Hc; [|apply related_refl].
    apply andb_true_iff in Hc as [Hc _]. apply andb_true_iff in Hc as [_ Hc].
    apply Z.eqb_eq in Hc.
    eapply related_trans; [|apply complete_related].
    + repeat case_match; apply related_refl.
    + intros e He.
      assert (He' : RS s !! k = Some e) by (revert He; repeat case_match; auto).
      rewrite Hk in He'. injection He' as <-. exact Hc.
  - unfold execute_ALU.
    destruct (RS s !! k) as [element|] eqn:Hk; [|apply related_refl].
    destruct (busy element && (cycles_passed element =? cycles_needed element)
              && negb (isBranchPending s)) eqn:Hc; [|apply related_refl].
    apply andb_true_iff in Hc as [Hc _]. apply andb_true_iff in Hc as [_ Hc].
    apply Z.eqb_eq in Hc.
    rewrite push_Executed_RS. apply upd_related.
    intros e He. rewrite Hk in He. injection He as <-. apply R_set_result, Hc.
  - unfold execute_ALU.
    destruct (RS s !! k) as [element|] eqn:Hk; [|apply related_refl].
    destruct (busy element && (cycles_passed element =? cycles_needed element)
              && negb (isBranchPending s)) eqn:Hc; [|apply related_refl].
    apply andb_true_iff in Hc as [Hc _]. apply andb_true_iff in Hc as [_ Hc].
    apply Z.eqb_eq in Hc.
    rewrite push_Executed_RS. apply upd_related.
    intros e He. rewrite Hk in He. injection He as <-. apply R_set_result, Hc.
  - unfold execute_ALU.
    destruct (RS s !! k) as [element|] eqn:Hk; [|apply related_refl].
    destruct (busy element && (cycles_passed element =? cycles_needed element)
              && negb (isBranchPending s)) eqn:Hc; [|apply related_refl].
    apply andb_true_iff in Hc as [Hc _]. apply andb_true_iff in Hc as [_ Hc].
    apply Z.eqb_eq in Hc.
    rewrite push_Executed_RS. apply upd_related.
    intros e He. rewrite Hk in He. injection He as <-. apply R_set_result, Hc.
Qed.

Lemma execute_related s : Forall2 R (RS s) (RS (execute s)).
Proof.
  unfold execute. generalize (seq 0 (length (RS s))). intros l.
  assert (H : ∀ s', Forall2 R (RS s) (RS s') →
                Forall2 R (RS s) (RS (foldl (fun s k => execute_station k s) s' l))).
  { induction l as [|k l IH]; intros s' Hs'; simpl; [exact Hs'|].
    apply IH. eapply related_trans; [exact Hs'|].
    apply execute_station_related. }
  apply H, related_refl.
Qed.

Lemma Issue_related s : Forall2 R (RS s) (RS (Issue s)).
Proof.
  apply (Issue_elim (fun s' => Forall2 R (RS s) (RS s')));
    [apply related_refl|..]; intros instr _;
    unfold Issue_LOAD, Issue_STORE, Issue_ALU, Issue_BEQ, Issue_CALL_RET,
      count_after_branch, push_Issued;
    (destruct (allocate _ s) as [[k element]|] eqn:Ha; [|apply related_refl]);
    apply allocate_Some in Ha as (Ha & _ & _);
    repeat case_match; simpl; apply related_insert;
    intros e He; rewrite Ha in He; injection He as <-;
    apply R_issue; repeat split.
Qed.

End StationRelation.

Section Static.

Import Tomasulo ReservationStation.

Lemma same_config_tick rs : same_config rs (tick rs).
Proof. unfold tick. repeat case_match; reflexivity. Qed.

Lemma same_config_wake nm v rs : same_config rs (wake nm v rs).
Proof. unfold wake. repeat case_match; reflexivity. Qed.

Lemma same_config_trans a b c :
  same_config a b → same_config b c → same_config a c.
Proof. unfold same_config. congruence. Qed.

Lemma broadcast_RS element k rs cdb s :
  RS (broadcast element k rs cdb s)
  = alter release k (map (wake (name rs) cdb) (RS s)).
Proof. unfold broadcast, upd. repeat case_match; reflexivity. Qed.

Lemma step_same_config s : Forall2 same_config (RS s) (RS (step s)).
Proof.
  rewrite step_unfold.
  change (Forall2 same_config (RS s)
            (RS (WriteBack (execute (Issue (incrementCyclesPassed s)))))).
  assert (Ht : ∀ l1 l2 l3, Forall2 same_config l1 l2 →
                 Forall2 same_config l2 l3 → Forall2 same_config l1 l3)
    by (apply related_trans, same_config_trans).
  apply (Ht _ (RS (incrementCyclesPassed s))).
  { unfold incrementCyclesPassed. simpl. apply related_map.
    apply same_config_tick. }
  apply (Ht _ (RS (Issue (incrementCyclesPassed s)))).
  { apply Issue_related; [reflexivity|]. intros rs rs' (H & _). exact H. }
  apply (Ht _ (RS (execute (Issue (incrementCyclesPassed s))))).
  { apply execute_related; try reflexivity; try apply same_config_trans. }
  destruct (WriteBack_cases (execute (Issue (incrementCyclesPassed s))))
    as [-> | (e & rs & cdb & _ & _ & _ & _ & _ & _ & ->)].
  - apply related_refl. reflexivity.
  - rewrite broadcast_RS.
    apply (Ht _ (map (wake (name rs) cdb)
                   (RS (execute (Issue (incrementCyclesPassed s)))))).
    + apply related_map. apply same_config_wake.
    + apply related_alter; [reflexivity|]. reflexivity.
Qed.

Lemma same_config_map l l' :
  Forall2 same_config l l' → map station_config l' = map station_config l.
Proof. induction 1 as [|x y l l' H _ IH]; simpl; [|rewrite H, IH]; reflexivity. Qed.

(** The phases leave the clock alone; [step] advances it at its end. *)
Lemma execute_station_clock k s : clock (execute_station k s) = clock s.
Proof.
  unfold execute_station, execute_LOAD, execute_STORE, execute_BEQ,
    execute_CALL, execute_ALU, compute_address, complete, push_Executed,
    branch_taken, branch_not_taken, upd.
  repeat case_match; reflexivity.
Qed.

Lemma Issue_clock s : clock (Issue s) = clock s.
Proof.
  apply (Issue_elim (fun s' => clock s' = clock s)); [reflexivity|..];
    intros instr _;
    unfold Issue_LOAD, Issue_STORE, Issue_ALU, Issue_BEQ, Issue_CALL_RET,
      count_after_branch, push_Issued;
    repeat case_match; reflexivity.
Qed.

Lemma WriteBack_clock s : clock (WriteBack s) = clock s.
Proof.
  destruct (WriteBack_cases s)
    as [-> | (e & rs & cdb & _ & _ & _ & _ & _ & _ & ->)]; [reflexivity|].
  unfold broadcast, upd. repeat case_match; reflexivity.
Qed.

Lemma execute_clock s : clock (execute s) = clock s.
Proof.
  apply (execute_inv (fun s' => clock s' = clock s)); [|reflexivity].
  intros k s' H. rewrite execute_station_clock. exact H.
Qed.

Lemma step_clock s : clock (step s) = clock s + 1.
Proof.
  rewrite step_unfold.
  change (clock (WriteBack (execute (Issue (incrementCyclesPassed s)))) + 1
          = clock s + 1).
  rewrite WriteBack_clock, execute_clock, Issue_clock. reflexivity.
Qed.

(** Memory is written by the STORE block of Execute only. *)
Lemma execute_station_Memory k s :
  Forall (fun rs => unit rs ≠ STORE) (RS s) →
  Memory (execute_station k s) = Memory s.
Proof.
  intros H. unfold execute_station.
  destruct (RS s !! k) as [element|] eqn:Hk; simpl; [|reflexivity].
  pose proof (Forall_lookup_1 _ _ _ _ H Hk) as Hu. simpl in Hu.
  destruct (unit element); try congruence; try reflexivity;
    unfold execute_LOAD, execute_BEQ, execute_CALL, execute_ALU,
      compute_address, complete, push_Executed, branch_taken,
      branch_not_taken, upd;
    repeat case_match; reflexivity.
Qed.

Lemma Issue_Memory s : Memory (Issue s) = Memory s.
Proof.
  apply (Issue_elim (fun s' => Memory s' = Memory s)); [reflexivity|..];
    intros instr _;
    unfold Issue_LOAD, Issue_STORE, Issue_ALU, Issue_BEQ, Issue_CALL_RET,
      count_after_branch, push_Issued;
    repeat case_match; reflexivity.
Qed.

Lemma WriteBack_Memory s : Memory (WriteBack s) = Memory s.
Proof.
  destruct (WriteBack_cases s)
    as [-> | (e & rs & cdb & _ & _ & _ & _ & _ & _ & ->)]; [reflexivity|].
  unfold broadcast, upd. repeat case_match; reflexivity.
Qed.

Lemma no_store_step s :
  Forall (fun rs => unit rs ≠ STORE) (RS s) →
  Forall (fun rs => unit rs ≠ STORE) (RS (step s)).
Proof.
  intros H. pose proof (step_same_config s) as H2.
  apply Forall_lookup. intros i rs' Hi.
  destruct (Forall2_lookup_r _ _ _ _ _ H2 Hi) as (rs & Hrs & Hc).
  pose proof (Forall_lookup_1 _ _ _ _ H Hrs) as Hu.
  unfold same_config, station_config in Hc. congruence.
Qed.

Lemma step_Memory s :
  Forall (fun rs => unit rs ≠ STORE) (RS s) → Memory (step s) = Memory s.
Proof.
  intros H. rewrite step_unfold. simpl. rewrite WriteBack_Memory.
  assert (H1 : Forall (fun rs => unit rs ≠ STORE)
                 (RS (Issue (incrementCyclesPassed s)))).
  { pose proof (Issue_related same_config ltac:(reflexivity)
                  ltac:(intros ? ? (Hc & _); exact Hc)
                  (incrementCyclesPassed s)) as H2.
    apply Forall_lookup. intros i rs' Hi.
    destruct (Forall2_lookup_r _ _ _ _ _ H2 Hi) as (rs & Hrs & Hc).
    unfold incrementCyclesPassed in Hrs. simpl in Hrs.
    rewrite lookup_map in Hrs.
    destruct (RS s !! i) as [rs0|] eqn:H0; [|discriminate].
    injection Hrs as <-.
    pose proof (Forall_lookup_1 _ _ _ _ H H0) as Hu.
    pose proof (same_config_tick rs0) as Ht.
    unfold same_config, station_config in Hc, Ht. congruence. }
  assert (H2 : Memory (execute (Issue (incrementCyclesPassed s)))
               = Memory (Issue (incrementCyclesPassed s))
               ∧ Forall (fun rs => unit rs ≠ STORE)
                   (RS (execute (Issue (incrementCyclesPassed s))))).
  { apply (execute_inv
             (fun s' => Memory s' = Memory (Issue (incrementCyclesPassed s))
                        ∧ Forall (fun rs => unit rs ≠ STORE) (RS s')));
      [|split; [reflexivity | exact H1]].
    intros k s' [Hm Hf]. split.
    - rewrite execute_station_Memory by exact Hf. exact Hm.
    - pose proof (execute_station_related same_config
                    ltac:(reflexivity) same_config_trans
                    ltac:(reflexivity) ltac:(reflexivity)
                    ltac:(reflexivity) ltac:(reflexivity)
                    ltac:(reflexivity) k s') as H2.
      apply Forall_lookup. intros i rs' Hi.
      destruct (Forall2_lookup_r _ _ _ _ _ H2 Hi) as (rs & Hrs & Hc).
      pose proof (Forall_lookup_1 _ _ _ _ Hf Hrs) as Hu.
      unfold same_config, station_config in Hc. congruence. }
  destruct H2 as [-> _]. rewrite Issue_Memory. reflexivity.
Qed.

Lemma allocate_all_busy u s :
  Forall (fun rs => busy rs = true) (RS s) → allocate u s = None.
Proof.
  intros H. unfold allocate. apply list_find_None.
  eapply Forall_impl; [exact H|]. intros rs Hb [Hf _]. congruence.
Qed.

End Static.

(** X12: stepping never adds, removes or reconfigures a station: after
    any number of cycles the stations have the names, units and latencies
    they were added with, in the same order. *)
Theorem stations_keep_configuration (s : Tomasulo) (n : nat) :
  map station_config (RS (Tomasulo.steps n s)) = map station_config (RS s).
Proof.
  induction n as [|n IH]; simpl; [reflexivity|].
  rewrite <- IH. apply same_config_map, step_same_config.
Qed.

(** X13: the clock counts the calls of [step]: [n] cycles advance it by
    exactly [n]. *)
Theorem clock_counts_steps (s : Tomasulo) (n : nat) :
  clock (Tomasulo.steps n s) = clock s + Z.of_nat n.
Proof.
  induction n as [|n IH]; [simpl; lia|].
  change (Tomasulo.steps (S n) s) with (Tomasulo.step (Tomasulo.steps n s)).
  rewrite step_clock, IH. lia.
Qed.

(** X14: only a STORE station writes memory: an engine without STORE
    stations runs any number of cycles without changing a word. *)
Theorem memory_written_by_stores_only (s : Tomasulo) (n : nat) :
  Forall (fun rs => unit rs ≠ STORE) (RS s) →
  Memory (Tomasulo.steps n s) = Memory s.
Proof.
  intros H.
  assert (Hn : Memory (Tomasulo.steps n s) = Memory s
               ∧ Forall (fun rs => unit rs ≠ STORE) (RS (Tomasulo.steps n s))).
  { induction n as [|n [IH1 IH2]]; [split; [reflexivity | exact H]|].
    change (Tomasulo.steps (S n) s) with (Tomasulo.step (Tomasulo.steps n s)).
    split; [rewrite step_Memory by exact IH2; exact IH1|].
    apply no_store_step, IH2. }
  exact (proj1 Hn).
Qed.

Lemma memory_written_by_stores_only_witness :
  Forall (fun rs => unit rs ≠ STORE) (RS Scenario.branch)
  ∧ Memory (Tomasulo.steps 40 Scenario.branch) = Memory Scenario.branch.
Proof.
  assert (H : Forall (fun rs => unit rs ≠ STORE) (RS Scenario.branch))
    by (repeat constructor; discriminate).
  split; [exact H|]. exact (memory_written_by_stores_only _ 40 H).
Defined.

(** X15: Issue stalls without side effect.  While a jump is pending,
    when [PC] points outside memory, or when every station is busy,
    [Issue] returns the engine as it was. *)
Theorem Issue_stalls (s : Tomasulo) :
  isJumpPending s = true ∨ PC s < 0 ∨ 65535 < PC s
  ∨ Forall (fun rs => busy rs = true) (RS s) →
  Tomasulo.Issue s = s.
Proof.
  intros [H | [H | [H | H]]].
  - unfold Tomasulo.Issue. rewrite H. reflexivity.
  - unfold Tomasulo.Issue. destruct (isJumpPending s); [reflexivity|].
    replace (PC s <? 0) with true by lia. reflexivity.
  - unfold Tomasulo.Issue, Tomasulo.Memory_length.
    destruct (isJumpPending s); [reflexivity|].
    replace (PC s >=? 65536) with true by lia. rewrite orb_true_r. reflexivity.
  - apply (Issue_elim (fun s' => s' = s)); [reflexivity|..]; intros instr _;
      unfold Tomasulo.Issue_LOAD, Tomasulo.Issue_STORE, Tomasulo.Issue_ALU,
        Tomasulo.Issue_BEQ, Tomasulo.Issue_CALL_RET;
      rewrite allocate_all_busy by exact H; reflexivity.
Qed.

(** The four stalls, each on an engine that would otherwise issue.
    [a]: after the first cycle of [jump_stall] the jump is pending, the
    word at [PC] is an addition and the ADD station is free; with the
    flag cleared, Issue does fill the station.  [b]: after the fourth
    cycle the jump has left [PC] at -3.  [c]: after the first cycle of
    [last_word], [PC] is 65536 with the second ADD station free.  [d]:
    after the first cycle of [single_station] the only station is busy
    and the word at [PC] is an addition; with the station free, Issue
    does fill it. *)
Lemma Issue_stalls_witness :
  let a := Tomasulo.steps 1 jump_stall in
  let b := Tomasulo.steps 4 jump_stall in
  let c := Tomasulo.steps 1 last_word in
  let d := Tomasulo.steps 1 single_station in
  (isJumpPending a = true
   ∧ Tomasulo.mem_get (Memory a) (PC a) = Some 22312
   ∧ (unit <$> RS a !! 1%nat = Some ADD ∧ busy <$> RS a !! 1%nat = Some false)
   ∧ Tomasulo.Issue a = a
   ∧ busy <$> RS (Tomasulo.Issue (Tomasulo.set_isJumpPending false a)) !! 1%nat
     = Some true)
  ∧ (isJumpPending b = false ∧ PC b = -3 ∧ Tomasulo.Issue b = b)
  ∧ (isJumpPending c = false ∧ PC c = 65536
     ∧ busy <$> RS c !! 1%nat = Some false
     ∧ Tomasulo.Issue c = c)
  ∧ (isJumpPending d = false
     ∧ Tomasulo.mem_get (Memory d) (PC d) = Some 23848
     ∧ (length (RS d) = 1%nat ∧ Forall (fun rs => busy rs = true) (RS d))
     ∧ Tomasulo.Issue d = d
     ∧ IssuedTracker (Tomasulo.Issue (Tomasulo.steps 4 single_station))
       ≠ IssuedTracker (Tomasulo.steps 4 single_station)).
Proof.
  intros a b c d.
  assert (Ha : isJumpPending a = true) by (vm_compute; reflexivity).
  assert (Hb : PC b = -3) by (vm_compute; reflexivity).
  assert (Hc : PC c = 65536) by (vm_compute; reflexivity).
  assert (Hd : Forall (fun rs => busy rs = true) (RS d))
    by (vm_compute; repeat constructor).
  split; [|split; [|split]].
  - split; [exact Ha|]. split; [vm_compute; reflexivity|].
    split; [split; vm_compute; reflexivity|].
    split; [exact (Issue_stalls a (or_introl Ha))|].
    vm_compute. reflexivity.
  - split; [vm_compute; reflexivity|]. split; [exact Hb|].
    apply (Issue_stalls b). right. left. rewrite Hb. lia.
  - split; [vm_compute; reflexivity|]. split; [exact Hc|].
    split; [vm_compute; reflexivity|].
    apply (Issue_stalls c). right. right. left. rewrite Hc. lia.
  - split; [vm_compute; reflexivity|]. split; [vm_compute; reflexivity|].
    split; [split; [vm_compute; reflexivity | exact Hd]|].
    split; [apply (Issue_stalls d); right; right; right; exact Hd|].
    vm_compute. discriminate.
Defined.

(** ** Issue, one instruction at a time *)

Section IssueOne.

Import Tomasulo ReservationStation.

(** [Issue] returns the state it was given, or runs one issue body on
    the instruction decoded from the word at [PC]. *)
Lemma needed_unit_alu instr :
  is_op (opcode instr) LOAD = false →
  is_op (opcode instr) STORE = false →
  is_op (opcode instr) ADD || is_op (opcode instr) SUB
  || is_op (opcode instr) NOR || is_op (opcode instr) MUL = true →
  needed_unit (opcode instr) = Some (alu_unit instr).
Proof.
  unfold needed_unit, alu_unit, is_op. simpl OpCode.code.
  intros H1 H2 H3. rewrite H1, H2.
  destruct (opcode instr =? 5) eqn:E5; destruct (opcode instr =? 6) eqn:E6;
    destruct (opcode instr =? 7) eqn:E7; destruct (opcode instr =? 8) eqn:E8;
    destruct (opcode instr =? 2) eqn:E2; destruct (opcode instr =? 3) eqn:E3;
    destruct (opcode instr =? 4) eqn:E4; simpl in *;
    try reflexivity; try discriminate; lia.
Qed.

(** The dispatch of [Issue] on the opcode, with the unit whose stations
    each branch searches. *)
Lemma Issue_cases s :
  Issue s = s
  ∨ ∃ instr u,
      Instruction.decode (default 0 (mem_get (Memory s) (PC s))) = Ok instr
      ∧ needed_unit (opcode instr) = Some u
      ∧ ((u = LOAD ∧ Issue s = Issue_LOAD instr s)
         ∨ (u = STORE ∧ Issue s = Issue_STORE instr s)
         ∨ (u = alu_unit instr ∧ Issue s = Issue_ALU instr s)
         ∨ (u = BEQ ∧ Issue s = Issue_BEQ instr s)
         ∨ (u = CALL ∧ Issue s = Issue_CALL_RET instr s)).
Proof.
  unfold Issue.
  destruct (isJumpPending s); [left; reflexivity|].
  destruct ((PC s <? 0) || (PC s >=? Memory_length)); [left; reflexivity|].
  destruct (default 0 (mem_get (Memory s) (PC s)) =? 0); [left; reflexivity|].
  destruct (decode_fields (default 0 (mem_get (Memory s) (PC s))))
    as (instr & Hd & _). rewrite Hd.
  destruct (PC s <? 65536); [|left; reflexivity].
  destruct (is_op (opcode instr) LOAD) eqn:HL.
  { right. exists instr, LOAD. split; [reflexivity|].
    split; [unfold needed_unit; rewrite HL; reflexivity | auto]. }
  destruct (is_op (opcode instr) STORE) eqn:HS.
  { right. exists instr, STORE. split; [reflexivity|].
    split; [unfold needed_unit; rewrite HL, HS; reflexivity | auto]. }
  destruct (is_op (opcode instr) ADD || is_op (opcode instr) SUB
            || is_op (opcode instr) NOR || is_op (opcode instr) MUL) eqn:HA.
  { right. exists instr, (alu_unit instr). split; [reflexivity|].
    split; [apply needed_unit_alu; assumption | auto]. }
  destruct (is_op (opcode instr) BEQ) eqn:HB.
  { right. exists instr, BEQ. split; [reflexivity|].
    split; [unfold needed_unit; rewrite HL, HS, HB; reflexivity | auto 6]. }
  destruct (is_op (opcode instr) CALL || is_op (opcode instr) RET) eqn:HC;
    [|left; reflexivity].
  right. exists instr, CALL. split; [reflexivity|].
  split; [unfold needed_unit; rewrite HL, HS, HB, HC; reflexivity | auto 6].
Qed.

Lemma allocate_first u s k element :
  allocate u s = Some (k, element) →
  RS s !! k = Some element ∧ busy element = false ∧ unit element = u
  ∧ ∀ j e, (j < k)%nat → RS s !! j = Some e →
      ¬ (busy e = false ∧ unit e = unit element).
Proof.
  unfold allocate. intros H.
  apply list_find_Some in H as (Hk & [Hb Hu] & Hfirst).
  split; [exact Hk|]. split; [exact Hb|]. split; [exact Hu|].
  intros j e Hj He. rewrite Hu. apply (Hfirst j e He Hj).
Qed.

End IssueOne.

(** X16: Issue is single-issue.  A call of [Issue] either changes
    nothing, or fills exactly one station: the first free station of the
    unit that the opcode of the instruction at [PC] needs, which becomes
    busy with the instruction decoded from the word
    at [PC] and with [PC] as its original address, while its result and
    cycle counter are left as they were (the counter is not reset);
    one entry is appended to the Issued tracker, [PC] advances by one,
    and registers and memory are not written. *)
Theorem Issue_single (s : Tomasulo) :
  Tomasulo.Issue s = s
  ∨ ∃ k element element' instr,
      Instruction.decode
        (default 0 (Tomasulo.mem_get (Memory s) (PC s))) = Ok instr
      ∧ needed_unit (opcode instr) = Some (unit element)
      ∧ RS s !! k = Some element ∧ busy element = false
      ∧ (∀ j e, (j < k)%nat → RS s !! j = Some e →
           ¬ (busy e = false ∧ unit e = unit element))
      ∧ RS (Tomasulo.Issue s) = <[k := element']> (RS s)
      ∧ busy element' = true
      ∧ instruction element' = Some instr
      ∧ PC_Original element' = Some (PC s)
      ∧ issue_frame element element'
      ∧ IssuedTracker (Tomasulo.Issue s)
        = IssuedTracker s ++ [mkEntry instr (clock s) k]
      ∧ PC (Tomasulo.Issue s) = PC s + 1
      ∧ Registers (Tomasulo.Issue s) = Registers s
      ∧ Memory (Tomasulo.Issue s) = Memory s.
Proof.
  destruct (Issue_cases s) as [H | (instr & u & Hd & Hu & H)];
    [left; exact H|].
  assert (Hbody :
    ∀ s', ((u = LOAD ∧ s' = Tomasulo.Issue_LOAD instr s)
           ∨ (u = STORE ∧ s' = Tomasulo.Issue_STORE instr s)
           ∨ (u = Tomasulo.alu_unit instr ∧ s' = Tomasulo.Issue_ALU instr s)
           ∨ (u = BEQ ∧ s' = Tomasulo.Issue_BEQ instr s)
           ∨ (u = CALL ∧ s' = Tomasulo.Issue_CALL_RET instr s)) →
      s' = s
      ∨ ∃ k element element',
          unit element = u
          ∧ RS s !! k = Some element ∧ busy element = false
          ∧ (∀ j e, (j < k)%nat → RS s !! j = Some e →
               ¬ (busy e = false ∧ unit e = unit element))
          ∧ RS s' = <[k := element']> (RS s)
          ∧ busy element' = true
          ∧ instruction element' = Some instr
          ∧ PC_Original element' = Some (PC s)
          ∧ issue_frame element element'
          ∧ IssuedTracker s' = IssuedTracker s ++ [mkEntry instr (clock s) k]
          ∧ PC s' = PC s + 1
          ∧ Registers s' = Registers s
          ∧ Memory s' = Memory s).
  { intros s' Hs'.
    destruct Hs' as [[Hu' ->] | [[Hu' ->] | [[Hu' ->] | [[Hu' ->] | [Hu' ->]]]]];
      rewrite Hu';
      unfold Tomasulo.Issue_LOAD, Tomasulo.Issue_STORE, Tomasulo.Issue_ALU,
        Tomasulo.Issue_BEQ, Tomasulo.Issue_CALL_RET,
        Tomasulo.count_after_branch, Tomasulo.push_Issued;
      (destruct (Tomasulo.allocate _ s) as [[k element]|] eqn:Ha;
       [|left; reflexivity]);
      apply allocate_first in Ha as (Hk & Hb & Hunit & Hfirst);
      right; exists k, element; repeat case_match; eexists;
      (split; [exact Hunit|]);
      (split; [exact Hk|]); (split; [exact Hb|]); (split; [exact Hfirst|]);
      simpl; repeat split. }
  destruct (Hbody (Tomasulo.Issue s) H) as [Hs | (k & e & e' & Hue & Hrest)];
    [left; exact Hs|].
  right. exists k, e, e', instr. split; [exact Hd|].
  split; [rewrite Hue; exact Hu | exact Hrest].
Qed.

(** ** Write-back, in detail *)

Section WriteBackMore.

Import Tomasulo ReservationStation.

Lemma wake_clears nm v rs :
  Qj (wake nm v rs) ≠ Some nm ∧ Qk (wake nm v rs) ≠ Some nm.
Proof.
  unfold wake.
  destruct (bool_decide (Qj rs = Some nm)) eqn:Hj;
    destruct (bool_decide (Qk _ = Some nm)) eqn:Hk; simpl in *;
    try apply bool_decide_eq_false_1 in Hj;
    try apply bool_decide_eq_false_1 in Hk; split; auto; discriminate.
Qed.

Lemma wake_delivers nm v rs :
  (Qj rs = Some nm → Vj (wake nm v rs) = Some v)
  ∧ (Qk rs = Some nm → Vk (wake nm v rs) = Some v).
Proof.
  unfold wake. split; intros H.
  - rewrite (bool_decide_eq_true_2 _ H). case_match; reflexivity.
  - destruct (bool_decide (Qj rs = Some nm)); simpl;
      rewrite (bool_decide_eq_true_2 _ H); reflexivity.
Qed.

(** The loop of [WriteBack] skips the entries that are not ready and
    stops at the first one that is. *)
Lemma WriteBack_loop_first pre e post s :
  isBranchPending s = false → CDB s = None →
  Forall (fun e' => ready_to_write_back s e' = false) pre →
  ready_to_write_back s e = true →
  ∃ rs cdb, RS s !! t_RS e = Some rs ∧ result rs = Some cdb
    ∧ WriteBack_loop (pre ++ e :: post) s
      = ([mkBroadcast (t_RS e) (name rs) cdb],
         broadcast e (t_RS e) rs cdb s).
Proof.
  intros Hbp Hcdb Hpre He.
  induction Hpre as [|e' pre He' _ IH]; simpl.
  - unfold ready_to_write_back in He.
    destruct (RS s !! t_RS e) as [rs|]; [|discriminate].
    destruct (result rs) as [cdb|] eqn:Hr;
      [|rewrite bool_decide_eq_false_2 in He by auto; discriminate].
    exists rs, cdb. split; [reflexivity|]. split; [exact Hr|].
    apply andb_true_iff in He as [He Hp]. apply andb_true_iff in He as [_ Hc].
    rewrite Hc, Hbp, Hcdb, Hp. reflexivity.
  - unfold ready_to_write_back in He'.
    destruct (RS s !! t_RS e') as [rs'|]; [|exact IH].
    destruct (result rs') as [cdb'|]; [|exact IH].
    rewrite bool_decide_eq_true_2 in He' by discriminate. simpl in He'.
    rewrite Hbp, Hcdb. simpl.
    replace ((cycles_passed rs' >? cycles_needed rs') && true && true
             && producer (unit rs')) with false; [exact IH|].
    rewrite !andb_true_r. symmetry. exact He'.
Qed.

Lemma WriteBack_loop_none entries s :
  Forall (fun e' => ready_to_write_back s e' = false) entries →
  WriteBack_loop entries s = ([], s).
Proof.
  induction 1 as [|e' pre He' _ IH]; simpl; [reflexivity|].
  unfold ready_to_write_back in He'.
  destruct (RS s !! t_RS e') as [rs'|]; [|exact IH].
  destruct (result rs') as [cdb'|]; [|exact IH].
  rewrite bool_decide_eq_true_2 in He' by discriminate. simpl in He'.
  replace ((cycles_passed rs' >? cycles_needed rs')
           && negb (isBranchPending s) && bool_decide (CDB s = None)
           && producer (unit rs')) with false; [exact IH|].
  symmetry. destruct (cycles_passed rs' >? cycles_needed rs'); simpl in *;
    [rewrite He'; apply andb_false_r | reflexivity].
Qed.



End WriteBackMore.

(** X17: a broadcast reaches every waiter.  After a cycle that
    broadcast the result of a station, no station waits on that station's
    name any more, every other station that did wait on it at WriteBack
    holds the broadcast value in the operand slot concerned, and the
    producing station itself is released. *)
Theorem broadcast_wakes_all (s : Tomasulo) (b : Tomasulo.Broadcast) :
  b ∈ (Tomasulo.step_log s).1 →
  Forall (fun rs => Qj rs ≠ Some (Tomasulo.b_name b)
                    ∧ Qk rs ≠ Some (Tomasulo.b_name b))
         (RS (Tomasulo.step s))
  ∧ (∀ j rs, j ≠ Tomasulo.b_station b →
       RS (Tomasulo.execute (Tomasulo.Issue (Tomasulo.incrementCyclesPassed s)))
         !! j = Some rs →
       ∃ rs', RS (Tomasulo.step s) !! j = Some rs'
         ∧ (Qj rs = Some (Tomasulo.b_name b) → Vj rs' = Some (Tomasulo.b_value b))
         ∧ (Qk rs = Some (Tomasulo.b_name b) → Vk rs' = Some (Tomasulo.b_value b)))
  ∧ (∃ rs', RS (Tomasulo.step s) !! Tomasulo.b_station b = Some rs'
            ∧ busy rs' = false ∧ result rs' = None).
Proof.
  rewrite step_log_WriteBack, step_unfold.
  set (s3 := Tomasulo.execute (Tomasulo.Issue (Tomasulo.incrementCyclesPassed s))).
  change (RS (Tomasulo.set_clock (clock (Tomasulo.WriteBack s3) + 1)
                (Tomasulo.WriteBack s3)))
    with (RS (Tomasulo.WriteBack s3)).
  unfold Tomasulo.WriteBack, Tomasulo.WriteBack_log.
  destruct (WriteBack_loop_cases (IssuedTracker s3) s3)
    as [H | (e & rs & cdb & _ & Hk & _ & _ & _ & _ & H)];
    rewrite H; cbn [fst snd]; intros Hb; [inversion Hb|].
  apply list_elem_of_singleton in Hb as ->.
  cbn [Tomasulo.b_name Tomasulo.b_station Tomasulo.b_value].
  rewrite broadcast_RS. split; [|split].
  - apply Forall_alter.
    + apply Forall_map. apply Forall_forall. intros x _. apply wake_clears.
    + intros x _ _. split; discriminate.
  - intros j rs0 Hj Hrs0. rewrite list_lookup_alter_ne by auto.
    rewrite lookup_map, Hrs0. simpl. eexists. split; [reflexivity|].
    apply wake_delivers.
  - rewrite list_lookup_alter_eq, lookup_map, Hk. simpl.
    eexists. split; [reflexivity|]. split; reflexivity.
Qed.

Lemma broadcast_wakes_all_witness :
  Tomasulo.mkBroadcast 3 "LOAD1" 42
    ∈ (Tomasulo.step_log (Tomasulo.steps 3 (Driver.initial 77))).1
  ∧ Forall (fun rs => Qj rs ≠ Some "LOAD1"%string ∧ Qk rs ≠ Some "LOAD1"%string)
      (RS (Tomasulo.step (Tomasulo.steps 3 (Driver.initial 77)))).
Proof.
  assert (Hl : (Tomasulo.step_log (Tomasulo.steps 3 (Driver.initial 77))).1
               = [Tomasulo.mkBroadcast 3 "LOAD1" 42]) by (vm_compute; reflexivity).
  assert (H : Tomasulo.mkBroadcast 3 "LOAD1" 42
                ∈ (Tomasulo.step_log (Tomasulo.steps 3 (Driver.initial 77))).1)
    by (rewrite Hl; apply list_elem_of_singleton; reflexivity).
  split; [exact H|].
  apply (broadcast_wakes_all (Tomasulo.steps 3 (Driver.initial 77))
           (Tomasulo.mkBroadcast 3 "LOAD1" 42) H).
Defined.

(** X18: write-back goes to the oldest ready entry.  With no branch
    pending and the bus free, if the Issued tracker is [pre ++ e :: post]
    where no entry of [pre] is ready and [e] is, then [WriteBack]
    broadcasts the result of the station of [e], whatever [post] holds;
    if no entry is ready, [WriteBack] changes nothing. *)
Theorem WriteBack_oldest_first (s : Tomasulo)
    (pre post : list (TrackerEntry nat)) (e : TrackerEntry nat) :
  isBranchPending s = false → CDB s = None →
  Forall (fun e' => ready_to_write_back s e' = false) pre →
  (IssuedTracker s = pre ++ e :: post → ready_to_write_back s e = true →
   ∃ rs cdb, RS s !! t_RS e = Some rs ∧ result rs = Some cdb
     ∧ Tomasulo.WriteBack_log s
       = ([Tomasulo.mkBroadcast (t_RS e) (name rs) cdb],
          Tomasulo.broadcast e (t_RS e) rs cdb s))
  ∧ (IssuedTracker s = pre → Tomasulo.WriteBack_log s = ([], s)).
Proof.
  intros Hbp Hcdb Hpre. split.
  - intros Ht He. unfold Tomasulo.WriteBack_log. rewrite Ht.
    apply WriteBack_loop_first; assumption.
  - intros Ht. unfold Tomasulo.WriteBack_log. rewrite Ht.
    apply WriteBack_loop_none, Hpre.
Qed.

Lemma WriteBack_oldest_first_witness :
  let s := Tomasulo.execute (Tomasulo.Issue (Tomasulo.incrementCyclesPassed
             (Tomasulo.steps 5 (Driver.initial 77)))) in
  isBranchPending s = false ∧ CDB s = None
  ∧ (∃ pre e post, IssuedTracker s = pre ++ e :: post
       ∧ length pre = 2%nat ∧ t_RS e = 1%nat
       ∧ Forall (fun e' => ready_to_write_back s e' = false) pre
       ∧ ready_to_write_back s e = true)
  ∧ ∃ rs cdb, RS s !! 1%nat = Some rs ∧ result rs = Some cdb
      ∧ (Tomasulo.WriteBack_log s).1
        = [Tomasulo.mkBroadcast 1 (name rs) cdb].
Proof.
  intros s.
  set (i0 := mkInstruction 0 (Some 1) (Some 7) None (Some 0) None).
  set (i1 := mkInstruction 5 (Some 2) (Some 1) (Some 3) None None).
  set (i2 := mkInstruction 5 (Some 4) (Some 5) (Some 6) None None).
  set (i3 := mkInstruction 8 (Some 5) (Some 2) (Some 4) None None).
  set (i4 := mkInstruction 1 (Some 5) (Some 7) None (Some 1) None).
  set (pre := [mkEntry i0 0 3%nat; mkEntry i1 1 0%nat]).
  set (e := mkEntry i2 2 1%nat).
  set (post := [mkEntry i3 3 2%nat; mkEntry i4 4 4%nat]).
  assert (Hbp : isBranchPending s = false) by (vm_compute; reflexivity).
  assert (Hcdb : CDB s = None) by (vm_compute; reflexivity).
  assert (Ht : IssuedTracker s = pre ++ e :: post) by (vm_compute; reflexivity).
  assert (Hpre : Forall (fun e' => ready_to_write_back s e' = false) pre)
    by (repeat constructor; vm_compute; reflexivity).
  assert (He : ready_to_write_back s e = true) by (vm_compute; reflexivity).
  destruct (proj1 (WriteBack_oldest_first s pre post e Hbp Hcdb Hpre) Ht He)
    as (rs & cdb & Hk & Hr & Hlog).
  split; [exact Hbp|]. split; [exact Hcdb|]. split.
  - exists pre, e, post. split; [exact Ht|]. split; [reflexivity|].
    split; [reflexivity|]. split; [exact Hpre | exact He].
  - exists rs, cdb. split; [exact Hk|]. split; [exact Hr|].
    rewrite Hlog. reflexivity.
Defined.



(** ** A result waits one cycle for the bus *)

Section Latency.

Import Tomasulo ReservationStation.

Lemma settled_refl rs : settled rs rs.
Proof. split; [reflexivity|]. split; [reflexivity|]. left. split; reflexivity. Qed.

Lemma settled_trans a b c : settled a b → settled b c → settled a c.
Proof.
  intros [Hc1 [Hn1 H1]] [Hc2 [Hn2 H2]]. split; [|split].
  - eapply same_config_trans; eassumption.
  - congruence.
  - destruct H2 as [[Hr Hp] | [H2 | H2]]; [|right; left; exact H2 | right; right; exact H2].
    destruct H1 as [[Hr1 Hp1] | [H1 | H1]].
    + left. split; congruence.
    + right; left. congruence.
    + right; right. rewrite Hp, Hn2. exact H1.
Qed.

Lemma settled_phases s :
  Forall2 settled (RS s) (RS (execute (Issue s))).
Proof.
  apply (related_trans settled settled_trans _ (RS (Issue s))).
  - apply Issue_related; [apply settled_refl|].
    intros rs rs' (Hc & Hr & Hp). split; [exact Hc|]. split; [|left; split; assumption].
    unfold station_config in Hc. congruence.
  - apply execute_related.
    + apply settled_refl.
    + apply settled_trans.
    + intros v rs. split; [reflexivity|]. split; [reflexivity|]. left; split; reflexivity.
    + intros rs. split; [reflexivity|]. split; [reflexivity|].
      right; right. simpl. lia.
    + intros v rs H. split; [reflexivity|]. split; [reflexivity|].
      right; right. simpl. lia.
    + intros rs. split; [reflexivity|]. split; [reflexivity|]. right; left. reflexivity.
    + intros rs. split; [reflexivity|]. split; [reflexivity|]. right; left. reflexivity.
Qed.

Lemma tick_result rs : result (tick rs) = result rs.
Proof. unfold tick. repeat case_match; reflexivity. Qed.

Lemma tick_counter rs :
  cycles_needed (tick rs) = cycles_needed rs
  ∧ cycles_passed (tick rs) ≤ cycles_passed rs + 1.
Proof. unfold tick. repeat case_match; simpl; lia. Qed.

End Latency.

(** X19: a result waits one cycle for the bus.  Whatever a cycle
    broadcasts was the result of the same station before the cycle began,
    with the station's counter at or beyond its latency: a result that
    Execute computes is never written back by the WriteBack of the same
    [step]. *)
Theorem broadcast_result_is_older (s : Tomasulo) (b : Tomasulo.Broadcast) :
  b ∈ (Tomasulo.step_log s).1 →
  ∃ rs, RS s !! Tomasulo.b_station b = Some rs
    ∧ name rs = Tomasulo.b_name b
    ∧ result rs = Some (Tomasulo.b_value b)
    ∧ cycles_needed rs ≤ cycles_passed rs.
Proof.
  rewrite step_log_WriteBack.
  set (s1 := Tomasulo.incrementCyclesPassed s).
  unfold Tomasulo.WriteBack_log.
  destruct (WriteBack_loop_cases
              (IssuedTracker (Tomasulo.execute (Tomasulo.Issue s1)))
              (Tomasulo.execute (Tomasulo.Issue s1)))
    as [H | (e & rs3 & cdb & _ & Hk & Hr & _ & Hp & _ & H)];
    rewrite H; cbn [fst snd]; intros Hb; [inversion Hb|].
  apply list_elem_of_singleton in Hb as ->.
  cbn [Tomasulo.b_name Tomasulo.b_station Tomasulo.b_value].
  pose proof (settled_phases s1) as Hs.
  destruct (Forall2_lookup_r _ _ _ _ _ Hs Hk) as (rs1 & Hk1 & Hc & Hn & Hcase).
  subst s1. unfold Tomasulo.incrementCyclesPassed in Hk1. simpl in Hk1.
  rewrite lookup_map in Hk1.
  destruct (RS s !! t_RS e) as [rs|] eqn:Hk0; [|discriminate].
  simpl in Hk1. injection Hk1 as <-.
  exists rs. split; [reflexivity|].
  assert (Hgt : cycles_needed rs3 < cycles_passed rs3) by lia.
  destruct Hcase as [[Hr' Hp'] | [Hnone | Hle]]; [|congruence|lia].
  pose proof (same_config_tick rs) as Ht.
  pose proof (tick_counter rs) as [Hn1 Hp1].
  split; [|split].
  - unfold same_config, station_config in Hc, Ht. congruence.
  - rewrite <- (tick_result rs). congruence.
  - lia.
Qed.

Lemma broadcast_result_is_older_witness :
  Tomasulo.mkBroadcast 3 "LOAD1" 42
    ∈ (Tomasulo.step_log (Tomasulo.steps 3 (Driver.initial 77))).1
  ∧ ∃ rs, RS (Tomasulo.steps 3 (Driver.initial 77)) !! 3%nat = Some rs
      ∧ name rs = "LOAD1"%string ∧ result rs = Some 42
      ∧ cycles_needed rs ≤ cycles_passed rs.
Proof.
  assert (Hl : (Tomasulo.step_log (Tomasulo.steps 3 (Driver.initial 77))).1
               = [Tomasulo.mkBroadcast 3 "LOAD1" 42]) by (vm_compute; reflexivity).
  assert (H : Tomasulo.mkBroadcast 3 "LOAD1" 42
                ∈ (Tomasulo.step_log (Tomasulo.steps 3 (Driver.initial 77))).1)
    by (rewrite Hl; apply list_elem_of_singleton; reflexivity).
  split; [exact H|].
  apply (broadcast_result_is_older (Tomasulo.steps 3 (Driver.initial 77))
           (Tomasulo.mkBroadcast 3 "LOAD1" 42) H).
Defined.

(** ** Queries on the history *)

Section History.

Import Tomasulo ReservationStation.

Lemma fold_latest_clock {R} (entries : list (TrackerEntry R)) c0 :
  let c := foldl (fun latestClock entry =>
                    if t_clock entry >? latestClock then t_clock entry
                    else latestClock) c0 entries in
  c0 ≤ c
  ∧ Forall (fun e => t_clock e ≤ c) entries
  ∧ (c = c0 ∨ ∃ e, e ∈ entries ∧ t_clock e = c).
Proof.
  revert c0. induction entries as [|e rest IH]; intros c0; simpl.
  - split; [lia|]. split; [constructor | left; reflexivity].
  - destruct (IH (if t_clock e >? c0 then t_clock e else c0))
      as (Hle & Hall & Hor).
    split; [|split].
    + destruct (t_clock e >? c0) eqn:Hc; lia.
    + constructor; [|exact Hall]. destruct (t_clock e >? c0) eqn:Hc; lia.
    + destruct Hor as [-> | (e' & He' & Hc')].
      * destruct (t_clock e >? c0) eqn:Hc; [|left; reflexivity].
        right. exists e. split; [left | reflexivity].
      * right. exists e'. split; [right; exact He' | exact Hc'].
Qed.

Lemma fold_latest_entry {R} (entries : list (TrackerEntry R)) e0 :
  let m := foldl (fun latest current =>
                    if t_clock current >? t_clock latest then current
                    else latest) e0 entries in
  m ∈ e0 :: entries
  ∧ Forall (fun e => t_clock e ≤ t_clock m) (e0 :: entries).
Proof.
  revert e0. induction entries as [|e rest IH]; intros e0; simpl.
  - split; [left|]. repeat constructor. lia.
  - destruct (IH (if t_clock e >? t_clock e0 then e else e0)) as (Hin & Hall).
    inversion Hall as [|? ? Hhd Htl]; subst.
    split.
    + apply elem_of_cons in Hin as [-> | Hin].
      * destruct (t_clock e >? t_clock e0); [right; left | left].
      * right; right; exact Hin.
    + constructor; [|constructor; [|exact Htl]];
        destruct (t_clock e >? t_clock e0) eqn:Hc; lia.
Qed.

Lemma latest_clock_spec {R} (entries : list (TrackerEntry R)) :
  match latest_clock entries with
  | None => entries = []
  | Some c => (∃ e, e ∈ entries ∧ t_clock e = c)
              ∧ Forall (fun e => t_clock e ≤ c) entries
  end.
Proof.
  destruct entries as [|e0 rest]; simpl; [reflexivity|].
  destruct (fold_latest_entry rest e0) as (Hin & Hall).
  split; [|exact Hall]. eexists. split; [exact Hin | reflexivity].
Qed.

Lemma filter_nil_iff {T} (P : T → Prop) `{∀ x, Decision (P x)} (l : list T) :
  filter P l = [] ↔ Forall (fun x => ¬ P x) l.
Proof.
  induction l as [|x l IH]; simpl; [split; [constructor | reflexivity]|].
  rewrite filter_cons. destruct (decide (P x)) as [Hp | Hp].
  - split; [discriminate|]. inversion 1; subst. contradiction.
  - rewrite IH. split; [constructor; assumption | inversion 1; assumption].
Qed.

Lemma positive_length {T} (l : list T) :
  (0 <? Z.of_nat (length l)) = bool_decide (l ≠ []).
Proof. destruct l; simpl; [reflexivity|]. apply Z.ltb_lt. lia. Qed.

End History.

(** X20: [getLatestIssueClock] of a station is the largest clock among
    the Issued entries of that station, and the [Infinity] case (here
    [None]) is returned exactly when the station has no Issued entry. *)
Theorem getLatestIssueClock_is_max (s : Tomasulo) (k : nat) :
  match Tomasulo.getLatestIssueClock s k with
  | None => ∀ e, e ∈ IssuedTracker s → t_RS e ≠ k
  | Some c =>
      (∃ e, e ∈ IssuedTracker s ∧ t_RS e = k ∧ t_clock e = c)
      ∧ (∀ e, e ∈ IssuedTracker s → t_RS e = k → t_clock e ≤ c)
  end.
Proof.
  unfold Tomasulo.getLatestIssueClock.
  destruct (filter (fun entry => t_RS entry = k) (IssuedTracker s))
    as [|e0 rest] eqn:Hf.
  - intros e He Hk.
    assert (Hin : e ∈ filter (fun entry => t_RS entry = k) (IssuedTracker s))
      by (apply list_elem_of_filter; split; assumption).
    rewrite Hf in Hin. inversion Hin.
  - destruct (fold_latest_clock (e0 :: rest) (t_clock e0)) as (_ & Hall & Hor).
    split.
    + assert (Hex : ∃ e, e ∈ e0 :: rest
                ∧ t_clock e
                  = foldl (fun latestClock entry =>
                             if t_clock entry >? latestClock then t_clock entry
                             else latestClock) (t_clock e0) (e0 :: rest)).
      { destruct Hor as [Heq | (e & He & Hc)].
        - exists e0. split; [left | symmetry; exact Heq].
        - exists e. split; assumption. }
      destruct Hex as (e & He & Hc). rewrite <- Hf in He.
      apply list_elem_of_filter in He as [Hk He].
      exists e. split; [exact He|]. split; [exact Hk | exact Hc].
    + intros e He Hk.
      assert (Hin : e ∈ filter (fun entry => t_RS entry = k) (IssuedTracker s))
        by (apply list_elem_of_filter; split; assumption).
      rewrite Hf in Hin. rewrite Forall_forall in Hall. apply Hall, Hin.
Qed.

Lemma latest_clock_defined {R} (entries : list (TrackerEntry R)) :
  (0 <? Z.of_nat (length entries)) = true
  ↔ Tomasulo.latest_clock entries ≠ None.
Proof.
  destruct entries as [|e0 rest]; simpl.
  - split; [discriminate | congruence].
  - split; [discriminate|]. intros _. apply Z.ltb_lt. lia.
Qed.

(** X21: what [getInstructionStatus] reports.  The written-back half is
    read from the copies stored in the WriteBack tracker: [isWrittenBack]
    holds exactly when some entry was written back from [address];
    [cycleWrittenBack] is then defined and is the largest clock of these
    entries, and it is undefined otherwise.  Each of the three cycles is
    defined exactly when its flag holds.  The issued and executed halves
    are read through the live stations: when no station currently holds
    an instruction from [address], the status says not issued and not
    executed, whatever the trackers contain. *)
Theorem getInstructionStatus_reads (s : Tomasulo) (address : Z) :
  let st := Tomasulo.getInstructionStatus s address in
  (Tomasulo.isWrittenBack st = true
   ↔ ∃ t, t ∈ WriteBackTracker s ∧ PC_Original (t_RS t) = Some address)
  ∧ (∀ c, Tomasulo.cycleWrittenBack st = Some c →
       (∃ t, t ∈ WriteBackTracker s ∧ PC_Original (t_RS t) = Some address
             ∧ t_clock t = c)
       ∧ ∀ t, t ∈ WriteBackTracker s → PC_Original (t_RS t) = Some address →
           t_clock t ≤ c)
  ∧ (Forall (fun rs => PC_Original rs ≠ Some address) (RS s) →
     Tomasulo.isIssued st = false ∧ Tomasulo.isExecuted st = false
     ∧ Tomasulo.cycleIssued st = None ∧ Tomasulo.cycleExecuted st = None)
  ∧ (Tomasulo.isWrittenBack st = true →
     ∃ c, Tomasulo.cycleWrittenBack st = Some c
       ∧ (∃ t, t ∈ WriteBackTracker s ∧ PC_Original (t_RS t) = Some address
               ∧ t_clock t = c)
       ∧ ∀ t, t ∈ WriteBackTracker s → PC_Original (t_RS t) = Some address →
           t_clock t ≤ c)
  ∧ (Tomasulo.isWrittenBack st = true ↔ Tomasulo.cycleWrittenBack st ≠ None)
  ∧ (Tomasulo.isIssued st = true ↔ Tomasulo.cycleIssued st ≠ None)
  ∧ (Tomasulo.isExecuted st = true ↔ Tomasulo.cycleExecuted st ≠ None).
Proof.
  unfold Tomasulo.getInstructionStatus. cbn zeta.
  cbn [Tomasulo.isWrittenBack Tomasulo.cycleWrittenBack Tomasulo.isIssued
       Tomasulo.isExecuted Tomasulo.cycleIssued Tomasulo.cycleExecuted].
  assert (Hmax : ∀ c,
    Tomasulo.latest_clock (filter (Tomasulo.copy_at address) (WriteBackTracker s))
    = Some c →
    (∃ t, t ∈ WriteBackTracker s ∧ PC_Original (t_RS t) = Some address
          ∧ t_clock t = c)
    ∧ ∀ t, t ∈ WriteBackTracker s → PC_Original (t_RS t) = Some address →
        t_clock t ≤ c).
  { intros c Hc.
    pose proof (latest_clock_spec
                  (filter (Tomasulo.copy_at address) (WriteBackTracker s))) as H.
    rewrite Hc in H. destruct H as ((t & Hin & Ht) & Hall).
    apply list_elem_of_filter in Hin as [Hp Hin].
    split; [exists t; repeat split; assumption|].
    intros t' Hin' Hp'. rewrite Forall_forall in Hall. apply Hall.
    apply list_elem_of_filter. split; assumption. }
  split; [|split; [exact Hmax|split; [|split; [|split; [|split]]]]];
    try apply latest_clock_defined.
  - rewrite positive_length. rewrite bool_decide_eq_true.
    split.
    + intros Hne.
      destruct (filter (Tomasulo.copy_at address) (WriteBackTracker s))
        as [|t rest] eqn:Hf; [congruence|].
      assert (Hin : t ∈ filter (Tomasulo.copy_at address) (WriteBackTracker s))
        by (rewrite Hf; left).
      apply list_elem_of_filter in Hin as [Hp Hin]. exists t. split; assumption.
    + intros (t & Hin & Hp) Hnil.
      assert (Hin' : t ∈ filter (Tomasulo.copy_at address) (WriteBackTracker s))
        by (apply list_elem_of_filter; split; assumption).
      rewrite Hnil in Hin'. inversion Hin'.
  - intros Hno.
    assert (Hlive : ∀ l : list (TrackerEntry nat),
              filter (Tomasulo.live_at s address) l = []).
    { intros l. apply filter_nil_iff. apply Forall_forall. intros t _ Hl.
      unfold Tomasulo.live_at in Hl.
      destruct (RS s !! t_RS t) as [rs|] eqn:Hk; [|discriminate].
      simpl in Hl. rewrite Forall_forall in Hno.
      apply (Hno rs); [|exact Hl]. eapply list_elem_of_lookup_2, Hk. }
    rewrite !Hlive. repeat split; reflexivity.
  - intros Hw. apply latest_clock_defined in Hw.
    destruct (Tomasulo.latest_clock
                (filter (Tomasulo.copy_at address) (WriteBackTracker s)))
      as [c|] eqn:Hc; [|congruence].
    exists c. split; [reflexivity|]. apply Hmax. reflexivity.
Qed.

(** The driver's program after it has drained: the load of address 0
    reports as written back in cycle 3 and as not issued; address 5,
    which holds no instruction, reports as not written back, without a
    cycle. *)
Lemma getInstructionStatus_reads_witness :
  let s := Tomasulo.steps 13 (Driver.initial 77) in
  Forall (fun rs => PC_Original rs ≠ Some 0) (RS s)
  ∧ Tomasulo.isIssued (Tomasulo.getInstructionStatus s 0) = false
  ∧ Tomasulo.isWrittenBack (Tomasulo.getInstructionStatus s 0) = true
  ∧ Tomasulo.cycleWrittenBack (Tomasulo.getInstructionStatus s 0) = Some 3
  ∧ Tomasulo.isWrittenBack (Tomasulo.getInstructionStatus s 5) = false
  ∧ Tomasulo.cycleWrittenBack (Tomasulo.getInstructionStatus s 5) = None.
Proof.
  intros s.
  assert (Hrs : RS s = RS (Driver.initial 77)) by (vm_compute; reflexivity).
  assert (H : Forall (fun rs => PC_Original rs ≠ Some 0) (RS s)).
  { rewrite Hrs. vm_compute. repeat constructor; discriminate. }
  assert (Hw : Tomasulo.isWrittenBack (Tomasulo.getInstructionStatus s 0) = true)
    by (vm_compute; reflexivity).
  assert (Hw5 : Tomasulo.isWrittenBack (Tomasulo.getInstructionStatus s 5) = false)
    by (vm_compute; reflexivity).
  destruct (getInstructionStatus_reads s 0) as (_ & _ & Hlive & Hdef & _).
  destruct (getInstructionStatus_reads s 5) as (_ & _ & _ & _ & Hiff & _).
  destruct (Hdef Hw) as (c & Hc & (t & Ht & _ & Hclock) & _).
  split; [exact H|]. split; [exact (proj1 (Hlive H))|]. split; [exact Hw|].
  split.
  - rewrite Hc. f_equal.
    assert (Hv : Tomasulo.cycleWrittenBack (Tomasulo.getInstructionStatus s 0)
                 = Some 3) by (vm_compute; reflexivity).
    congruence.
  - split; [exact Hw5|].
    destruct (Tomasulo.cycleWrittenBack (Tomasulo.getInstructionStatus s 5))
      eqn:Hc5; [|reflexivity].
    assert (Hne : Some z ≠ None) by discriminate.
    apply Hiff in Hne. congruence.
Defined.

(** ** The other completions of Execute *)

(** X22: a branch that is not taken.  When the Execute phase reaches a
    busy BEQ station whose counter equals its latency and whose operands
    differ, it sets [PC] to the address after the branch and clears
    [isBranchPending]; it squashes nothing: every other station, the
    Issued tracker, [IssuedAfterBranch], the misprediction counter and the
    register file stay as they were, and the branch's station is
    released.  Instructions issued behind the branch are thus kept while
    [PC] goes back to the first of them. *)
Theorem branch_not_taken_effects (s : Tomasulo) (k : nat)
    (element : ReservationStation) (pc : Z) :
  RS s !! k = Some element →
  unit element = BEQ →
  busy element = true →
  cycles_passed element = cycles_needed element →
  Vj element ≠ Vk element →
  PC_Original element = Some pc →
  let s' := Tomasulo.execute_station k s in
  PC s' = pc + 1
  ∧ isBranchPending s' = false
  ∧ branchMispredictions s' = branchMispredictions s
  ∧ IssuedTracker s' = IssuedTracker s
  ∧ IssuedAfterBranch s' = IssuedAfterBranch s
  ∧ (∀ j, j ≠ k → RS s' !! j = RS s !! j)
  ∧ RS s' !! k = Some (ReservationStation.release element)
  ∧ Registers s' = Registers s.
Proof.
  intros Hk Hu Hb Hc Hv Hpc s'. subst s'.
  unfold Tomasulo.execute_station. rewrite Hk. simpl. rewrite Hu.
  unfold Tomasulo.execute_BEQ. rewrite Hk, Hb, Hc, Z.eqb_refl. simpl.
  rewrite bool_decide_eq_false_2 by exact Hv.
  destruct (complete_frame k 0 0 (Tomasulo.branch_not_taken element s))
    as (-> & -> & -> & -> & -> & -> & _ & _ & ->).
  unfold Tomasulo.branch_not_taken. simpl. rewrite Hpc. simpl.
  split; [reflexivity|]. split; [reflexivity|]. split; [reflexivity|].
  split; [reflexivity|]. split; [reflexivity|].
  split; [|split; [|reflexivity]].
  - intros j Hj. apply list_lookup_alter_ne. auto.
  - rewrite list_lookup_alter_eq, Hk. reflexivity.
Qed.

Lemma branch_not_taken_effects_witness :
  let s := branch_falling in
  let s' := Tomasulo.execute_station 0 s in
  (∃ element, RS s !! 0%nat = Some element ∧ unit element = BEQ
     ∧ busy element = true ∧ cycles_passed element = cycles_needed element
     ∧ Vj element ≠ Vk element ∧ PC_Original element = Some 0)
  ∧ PC s = 3 ∧ PC s' = 0 + 1
  ∧ IssuedAfterBranch s' = IssuedAfterBranch s
  ∧ IssuedAfterBranch s = 2.
Proof.
  intros s s'.
  destruct (RS s !! 0%nat) as [element|] eqn:Hk; [|vm_compute in Hk; discriminate].
  assert (He : element
               = mkRS "BEQ1" BEQ true (Some "BEQ"%string) (Some 5) (Some 6)
                   None None
                   (Some (mkInstruction 2 (Some 1) (Some 2) None (Some 2) None))
                   None (Some 0) (Some 2) 2 2 0 0).
  { vm_compute in Hk. injection Hk as <-. reflexivity. }
  pose proof (branch_not_taken_effects s 0 element 0 Hk
                ltac:(rewrite He; reflexivity) ltac:(rewrite He; reflexivity)
                ltac:(rewrite He; reflexivity) ltac:(rewrite He; discriminate)
                ltac:(rewrite He; reflexivity))
    as (H1 & _ & _ & _ & H5 & _).
  split.
  { exists element. rewrite He. repeat split. discriminate. }
  split; [vm_compute; reflexivity|]. split; [exact H1|].
  split; [exact H5|]. vm_compute. reflexivity.
Defined.

Lemma complete_isJumpPending k ca cm s :
  isJumpPending (Tomasulo.complete k ca cm s) = isJumpPending s.
Proof.
  unfold Tomasulo.complete, Tomasulo.push_Executed, Tomasulo.upd.
  repeat case_match; reflexivity.
Qed.

(** X23: CALL and RET complete at Execute.  When the Execute phase
    reaches a busy CALL-unit station whose counter equals its latency,
    with no branch pending, it sets [PC] to the station's [A] (the label
    of a CALL, the value register 1 had when a RET was issued), clears
    [isJumpPending] and releases the station; a CALL also stores the
    address after the call, reduced to 16 bits, in register 1, whatever
    the Register-Status Table says about register 1.  Memory and the
    Register-Status Table are not touched. *)
Theorem jump_completes (s : Tomasulo) (k : nat)
    (element : ReservationStation) (a : Z) :
  RS s !! k = Some element →
  unit element = CALL →
  busy element = true →
  cycles_passed element = cycles_needed element →
  isBranchPending s = false →
  A element = Some a →
  Operation element = Some "CALL"%string
  ∨ Operation element = Some "RET"%string →
  let s' := Tomasulo.execute_station k s in
  PC s' = a
  ∧ isJumpPending s' = false
  ∧ Registers s'
    = (if bool_decide (Operation element = Some "CALL"%string)
       then <[1%nat := (JS.num (PC_Original element) + 1) mod 65536]>
              (Registers s)
       else Registers s)
  ∧ RS s' = alter ReservationStation.release k (RS s)
  ∧ RegisterStatus s' = RegisterStatus s
  ∧ Memory s' = Memory s.
Proof.
  intros Hk Hu Hb Hc Hbp Ha Hop s'. subst s'.
  unfold Tomasulo.execute_station. rewrite Hk. simpl. rewrite Hu.
  unfold Tomasulo.execute_CALL. rewrite Hk, Hb, Hc, Z.eqb_refl, Hbp. simpl.
  rewrite complete_isJumpPending.
  destruct Hop as [Hop | Hop]; rewrite Hop; simpl;
    match goal with
    | |- context [Tomasulo.complete k 0 0 ?x] =>
        destruct (complete_frame k 0 0 x)
          as (-> & _ & _ & _ & _ & -> & -> & -> & ->)
    end; rewrite ?complete_isJumpPending; simpl; rewrite Ha; repeat split.
Qed.

Lemma jump_completes_witness :
  let s := call_resolving in
  let s' := Tomasulo.execute_station 0 s in
  (∃ element, RS s !! 0%nat = Some element ∧ unit element = CALL
     ∧ busy element = true ∧ cycles_passed element = cycles_needed element
     ∧ A element = Some 5 ∧ Operation element = Some "CALL"%string)
  ∧ isBranchPending s = false
  ∧ PC s' = 5 ∧ isJumpPending s' = false.
Proof.
  intros s s'.
  destruct (RS s !! 0%nat) as [element|] eqn:Hk; [|vm_compute in Hk; discriminate].
  assert (He : element
               = mkRS "CALL1" CALL true (Some "CALL"%string) None None
                   None None
                   (Some (mkInstruction 3 None None None None (Some 5)))
                   None (Some 7) (Some 5) 1 1 0 0).
  { vm_compute in Hk. injection Hk as <-. reflexivity. }
  assert (Hbp : isBranchPending s = false) by (vm_compute; reflexivity).
  pose proof (jump_completes s 0 element 5 Hk
                ltac:(rewrite He; reflexivity) ltac:(rewrite He; reflexivity)
                ltac:(rewrite He; reflexivity) Hbp
                ltac:(rewrite He; reflexivity)
                ltac:(left; rewrite He; reflexivity))
    as (H1 & H2 & _).
  split.
  { exists element. rewrite He. repeat split. }
  split; [exact Hbp|]. split; [exact H1 | exact H2].
Defined.

(** ** Memory ordering, commit, and the history *)

Section Ordering.

Import Tomasulo ReservationStation.

Lemma any_station_intro (p : nat → ReservationStation → bool) s j e :
  RS s !! j = Some e → p j e = true → any_station p s = true.
Proof.
  intros Hj Hp. unfold any_station. apply existsb_exists.
  exists true. split; [|reflexivity].
  apply list_elem_of_In. apply (list_elem_of_lookup_2 _ j).
  rewrite list_lookup_imap, Hj. simpl. rewrite Hp. reflexivity.
Qed.

Lemma compute_address_skip k s element :
  RS s !! k = Some element →
  cycles_passed element ≠ cycles_needed_to_compute_address element →
  compute_address k s = s.
Proof.
  intros Hk Hne. unfold compute_address. rewrite Hk.
  replace (cycles_passed element =? cycles_needed_to_compute_address element)
    with false by lia.
  rewrite andb_false_r. reflexivity.
Qed.

Lemma appended_refl {R} c (l : list (TrackerEntry R)) : appended c (c + 1) l l.
Proof. exists []. rewrite app_nil_r. split; [reflexivity | constructor]. Qed.

Lemma appended_one {R} c (l : list (TrackerEntry R)) e :
  t_clock e = c → appended c (c + 1) l (l ++ [e]).
Proof.
  intros H. exists [e]. split; [reflexivity|]. repeat constructor; lia.
Qed.

Lemma appended_trans {R} a b c d (l1 l2 l3 : list (TrackerEntry R)) :
  appended a b l1 l2 → appended c d l2 l3 → a ≤ c → b ≤ d →
  appended a d l1 l3.
Proof.
  intros (t1 & -> & H1) (t2 & -> & H2) Hac Hbd.
  exists (t1 ++ t2). split; [symmetry; apply app_assoc|].
  apply Forall_app. split.
  - eapply Forall_impl; [exact H1|]. simpl. intros; lia.
  - eapply Forall_impl; [exact H2|]. simpl. intros; lia.
Qed.

Lemma logs_grow_refl s : logs_grow s s.
Proof. split; [reflexivity|]. split; apply appended_refl. Qed.

Lemma logs_grow_trans s1 s2 s3 :
  logs_grow s1 s2 → logs_grow s2 s3 → logs_grow s1 s3.
Proof.
  intros (Hc1 & He1 & Hw1) (Hc2 & He2 & Hw2). rewrite Hc1 in *.
  split; [congruence|].
  split; eapply appended_trans; try eassumption; lia.
Qed.

Ltac same_logs :=
  first [ apply logs_grow_refl
        | simpl; (split; [reflexivity|]); split; apply appended_refl ].

Lemma push_Executed_grows k s : logs_grow s (push_Executed k s).
Proof.
  unfold push_Executed. case_match; [|same_logs].
  split; [reflexivity|]. split; [|apply appended_refl].
  apply appended_one. reflexivity.
Qed.

Lemma upd_grows k f s : logs_grow s (upd k f s).
Proof. unfold upd. same_logs. Qed.

Lemma complete_grows k ca cm s : logs_grow s (complete k ca cm s).
Proof.
  unfold complete. destruct (RS s !! k) as [element|]; [|same_logs].
  eapply logs_grow_trans; [apply (push_Executed_grows k s)|].
  eapply logs_grow_trans; [|apply upd_grows].
  destruct (instruction element); [|same_logs].
  split; [reflexivity|]. split; [apply appended_refl|].
  apply appended_one. reflexivity.
Qed.

Lemma compute_address_grows k s : logs_grow s (compute_address k s).
Proof.
  unfold compute_address. repeat case_match; same_logs.
Qed.

Lemma execute_station_grows k s : logs_grow s (execute_station k s).
Proof.
  unfold execute_station.
  destruct (unit <$> RS s !! k) as [[]|]; try same_logs.
  - unfold execute_LOAD.
    eapply logs_grow_trans; [apply (compute_address_grows k s)|].
    repeat case_match; try same_logs.
    eapply logs_grow_trans; [|apply push_Executed_grows]. apply upd_grows.
  - unfold execute_STORE.
    eapply logs_grow_trans; [apply (compute_address_grows k s)|].
    repeat case_match; try same_logs;
      (eapply logs_grow_trans; [|apply complete_grows]); same_logs.
  - unfold execute_BEQ.
    repeat case_match; try same_logs;
      (eapply logs_grow_trans; [|apply complete_grows]); same_logs.
  - unfold execute_CALL.
    destruct (RS s !! k) as [element|]; [|same_logs].
    case_match; [|same_logs].
    eapply logs_grow_trans; [|apply complete_grows].
    repeat case_match; same_logs.
  - unfold execute_ALU. repeat case_match; try same_logs.
    eapply logs_grow_trans; [|apply push_Executed_grows]. apply upd_grows.
  - unfold execute_ALU. repeat case_match; try same_logs.
    eapply logs_grow_trans; [|apply push_Executed_grows]. apply upd_grows.
  - unfold execute_ALU. repeat case_match; try same_logs.
    eapply logs_grow_trans; [|apply push_Executed_grows]. apply upd_grows.
Qed.

Lemma execute_grows s : logs_grow s (execute s).
Proof.
  unfold execute. generalize (seq 0 (length (RS s))). intros l.
  assert (H : ∀ s', logs_grow s s' →
                logs_grow s (foldl (fun s k => execute_station k s) s' l)).
  { induction l as [|k l IH]; intros s' Hs'; simpl; [exact Hs'|].
    apply IH. eapply logs_grow_trans; [exact Hs'|].
    apply execute_station_grows. }
  apply H, logs_grow_refl.
Qed.

Lemma Issue_grows s : logs_grow s (Issue s).
Proof.
  apply (Issue_elim (fun s' => logs_grow s s'));
    [same_logs|..]; intros instr _;
    unfold Issue_LOAD, Issue_STORE, Issue_ALU, Issue_BEQ, Issue_CALL_RET,
      count_after_branch, push_Issued;
    repeat case_match; same_logs.
Qed.

Lemma broadcast_grows element k rs cdb s :
  logs_grow s (broadcast element k rs cdb s).
Proof.
  unfold broadcast, upd.
  repeat case_match; (split; [reflexivity|]); (split; [apply appended_refl|]);
    apply appended_one; reflexivity.
Qed.

Lemma WriteBack_grows s : logs_grow s (WriteBack s).
Proof.
  destruct (WriteBack_cases s) as [-> | (e & rs & cdb & _ & _ & _ & _ & _ & _ & ->)];
    [same_logs | apply broadcast_grows].
Qed.

Lemma step_grows s :
  appended (clock s) (clock s + 1) (ExecutedTracker s) (ExecutedTracker (step s))
  ∧ appended (clock s) (clock s + 1)
      (WriteBackTracker s) (WriteBackTracker (step s)).
Proof.
  rewrite step_unfold.
  change (appended (clock s) (clock s + 1) (ExecutedTracker s)
            (ExecutedTracker
               (WriteBack (execute (Issue (incrementCyclesPassed s)))))
          ∧ appended (clock s) (clock s + 1) (WriteBackTracker s)
              (WriteBackTracker
                 (WriteBack (execute (Issue (incrementCyclesPassed s)))))).
  assert (H : logs_grow s (WriteBack (execute (Issue (incrementCyclesPassed s))))).
  { eapply logs_grow_trans; [|apply WriteBack_grows].
    eapply logs_grow_trans; [|apply execute_grows].
    eapply logs_grow_trans; [|apply Issue_grows].
    same_logs. }
  exact (proj2 H).
Qed.

End Ordering.

(** X24: the memory-ordering stall.  When a LOAD or STORE station is
    due to access memory (busy, counter at its latency, address already
    computed, no branch pending) and another busy station that was issued
    earlier holds the same [A] (a STORE, or for a STORE also a LOAD), the
    Execute iteration performs no access: it only sets the station's
    counter back to one below its latency, so that the access is tried
    again in the next cycle.  Memory and the two completion trackers are
    unchanged. *)
Theorem memory_hazard_stalls (s : Tomasulo) (k j : nat)
    (element element2 : ReservationStation) (c2 : Z) :
  RS s !! k = Some element →
  unit element = LOAD ∨ unit element = STORE →
  busy element = true →
  cycles_passed element = cycles_needed element →
  cycles_needed_to_compute_address element ≠ cycles_needed element →
  isBranchPending s = false →
  RS s !! j = Some element2 →
  busy element2 = true →
  unit element2 = STORE ∨ (unit element = STORE ∧ unit element2 = LOAD) →
  A element2 = A element →
  Tomasulo.getLatestIssueClock s j = Some c2 →
  (∀ c, Tomasulo.getLatestIssueClock s k = Some c → c2 < c) →
  let s' := Tomasulo.execute_station k s in
  Memory s' = Memory s
  ∧ RS s' = <[k := ReservationStation.set_cycles_passed (cycles_needed element - 1) element]> (RS s)
  ∧ ExecutedTracker s' = ExecutedTracker s
  ∧ WriteBackTracker s' = WriteBackTracker s.
Proof.
  intros Hk Hu Hb Hc Hca Hbp Hj Hb2 Hu2 HA Hc2 Hlt s'. subst s'.
  assert (Hskip : Tomasulo.compute_address k s = s)
    by (apply (compute_address_skip k s element Hk); lia).
  assert (Hinf : JS.lt_inf (Tomasulo.getLatestIssueClock s j)
                   (Tomasulo.getLatestIssueClock s k) = true).
  { rewrite Hc2. destruct (Tomasulo.getLatestIssueClock s k) as [c|];
      [|reflexivity]. simpl. apply Z.ltb_lt, Hlt. reflexivity. }
  assert (Hins : alter (ReservationStation.set_cycles_passed (cycles_needed element - 1)) k (RS s)
                 = <[k := ReservationStation.set_cycles_passed (cycles_needed element - 1) element]>
                     (RS s)).
  { apply list_eq. intros i. destruct (decide (k = i)) as [<- | Hne].
    - rewrite list_lookup_alter_eq, Hk. simpl. symmetry.
      apply list_lookup_insert_eq. eapply lookup_lt_Some, Hk.
    - rewrite list_lookup_alter_ne, list_lookup_insert_ne by auto. reflexivity. }
  unfold Tomasulo.execute_station. rewrite Hk. simpl.
  destruct Hu as [Hu | Hu]; rewrite Hu.
  - assert (Hh : Tomasulo.hazard_LOAD k element s = true).
    { destruct Hu2 as [Hu2 | [Hu' _]]; [|congruence].
      unfold Tomasulo.hazard_LOAD.
      apply (any_station_intro _ s j element2 Hj).
      rewrite Hb2, Hinf. rewrite !bool_decide_eq_true_2 by assumption.
      reflexivity. }
    unfold Tomasulo.execute_LOAD.
    rewrite Hskip, Hk, Hb, Hc, Z.eqb_refl, Hbp, Hh.
    unfold Tomasulo.upd. simpl. rewrite Hins. repeat split.
  - assert (Hh : Tomasulo.hazard_STORE k element s = true).
    { unfold Tomasulo.hazard_STORE.
      apply (any_station_intro _ s j element2 Hj).
      rewrite Hb2, Hinf. rewrite (bool_decide_eq_true_2 _ HA).
      destruct Hu2 as [Hu2 | [_ Hu2]]; rewrite Hu2; reflexivity. }
    unfold Tomasulo.execute_STORE.
    rewrite Hskip, Hk, Hb, Hc, Z.eqb_refl, Hbp, Hh.
    unfold Tomasulo.upd. simpl. rewrite Hins. repeat split.
Qed.

Lemma memory_hazard_stalls_witness :
  let s := load_behind_store in
  (∃ element element2,
     RS s !! 1%nat = Some element ∧ RS s !! 0%nat = Some element2
     ∧ unit element = LOAD ∧ unit element2 = STORE
     ∧ busy element = true ∧ busy element2 = true
     ∧ cycles_passed element = cycles_needed element
     ∧ A element = Some 101 ∧ A element2 = Some 101)
  ∧ Tomasulo.getLatestIssueClock s 0 = Some 0
  ∧ Tomasulo.getLatestIssueClock s 1 = Some 1
  ∧ Memory (Tomasulo.execute_station 1 s) = Memory s.
Proof.
  intros s.
  destruct (RS s !! 1%nat) as [element|] eqn:Hk; [|vm_compute in Hk; discriminate].
  destruct (RS s !! 0%nat) as [element2|] eqn:Hj; [|vm_compute in Hj; discriminate].
  assert (He : element
               = mkRS "LOAD1" LOAD true (Some "LOAD"%string) (Some 100) None
                   None None
                   (Some (mkInstruction 0 (Some 1) (Some 7) None (Some 1) None))
                   None (Some 1) (Some 101) 2 2 1 1).
  { vm_compute in Hk. injection Hk as <-. reflexivity. }
  assert (He2 : element2
               = mkRS "STORE1" STORE true (Some "STORE"%string) (Some 100)
                   (Some 1) None None
                   (Some (mkInstruction 1 (Some 5) (Some 7) None (Some 1) None))
                   None (Some 0) (Some 101) 5 3 1 4).
  { vm_compute in Hj. injection Hj as <-. reflexivity. }
  assert (H0 : Tomasulo.getLatestIssueClock s 0 = Some 0)
    by (vm_compute; reflexivity).
  assert (H1 : Tomasulo.getLatestIssueClock s 1 = Some 1)
    by (vm_compute; reflexivity).
  assert (Hbp : isBranchPending s = false) by (vm_compute; reflexivity).
  pose proof (memory_hazard_stalls s 1 0 element element2 0 Hk
                ltac:(left; rewrite He; reflexivity)
                ltac:(rewrite He; reflexivity)
                ltac:(rewrite He; reflexivity)
                ltac:(rewrite He; discriminate)
                Hbp Hj
                ltac:(rewrite He2; reflexivity)
                ltac:(left; rewrite He2; reflexivity)
                ltac:(rewrite He, He2; reflexivity)
                H0
                ltac:(intros c Hc; rewrite H1 in Hc; injection Hc as <-; lia))
    as (Hm & _).
  split.
  { exists element, element2. rewrite He, He2. repeat split. }
  split; [exact H0|]. split; [exact H1 | exact Hm].
Defined.

(** X25: the commit half of a write-back.  When [WriteBack] broadcasts
    the result of a station, the lowest-numbered register whose status
    entry names that station receives the value reduced to 16 bits (0 for
    register 0) and its status entry is cleared; no other register and no
    other status entry changes, also when further registers name the same
    station.  When no status entry names the station, the register file
    and the table are unchanged.  The bus is free again afterwards, and
    memory and [PC] are not touched. *)
Theorem broadcast_commits (s : Tomasulo) (b : Tomasulo.Broadcast) :
  b ∈ (Tomasulo.WriteBack_log s).1 →
  let s' := Tomasulo.WriteBack s in
  CDB s' = None ∧ Memory s' = Memory s ∧ PC s' = PC s
  ∧ (∀ i, RegisterStatus s !! i = Some (Some (Tomasulo.b_name b)) →
       (∀ j, (j < i)%nat →
          RegisterStatus s !! j ≠ Some (Some (Tomasulo.b_name b))) →
       Registers s'
       = <[i := if bool_decide (i = 0%nat) then 0
                else Tomasulo.b_value b mod 65536]> (Registers s)
       ∧ RegisterStatus s' = <[i := None]> (RegisterStatus s))
  ∧ ((∀ i, RegisterStatus s !! i ≠ Some (Some (Tomasulo.b_name b))) →
       Registers s' = Registers s ∧ RegisterStatus s' = RegisterStatus s).
Proof.
  unfold Tomasulo.WriteBack, Tomasulo.WriteBack_log.
  destruct (WriteBack_loop_cases (IssuedTracker s) s)
    as [H | (e & rs & cdb & _ & _ & _ & _ & _ & _ & H)];
    rewrite H; cbn [fst snd]; intros Hb; [inversion Hb|].
  apply list_elem_of_singleton in Hb as ->.
  cbn [Tomasulo.b_name Tomasulo.b_station Tomasulo.b_value].
  unfold Tomasulo.broadcast, Tomasulo.upd.
  destruct (list_find (fun e0 => e0 = Some (name rs))
              (RegisterStatus (Tomasulo.set_CDB (Some cdb) s)))
    as [[i x]|] eqn:Hf.
  - apply list_find_Some in Hf as (Hi & -> & Hfirst). simpl in Hi, Hfirst.
    simpl. split; [reflexivity|]. split; [reflexivity|]. split; [reflexivity|].
    split.
    + intros i' Hi' Hfirst'.
      assert (i' = i) as ->.
      { destruct (Nat.lt_trichotomy i' i) as [Hlt | [Heq | Hgt]]; [|exact Heq|].
        - exfalso. apply (Hfirst i' _ Hi' Hlt). reflexivity.
        - exfalso. apply (Hfirst' i Hgt). exact Hi. }
      unfold Tomasulo.reg_put, JS.ToUint16.
      destruct (bool_decide (i = 0%nat)); split; reflexivity.
    + intros Hno. exfalso. apply (Hno i). exact Hi.
  - simpl. split; [reflexivity|]. split; [reflexivity|]. split; [reflexivity|].
    split.
    + intros i Hi _. exfalso.
      apply list_find_None in Hf. simpl in Hf.
      apply (proj1 (Forall_lookup _ _) Hf i _ Hi). reflexivity.
    + intros _. split; reflexivity.
Qed.

Lemma broadcast_commits_witness :
  let s := Tomasulo.execute (Tomasulo.Issue (Tomasulo.incrementCyclesPassed
             (Tomasulo.steps 3 (Driver.initial 77)))) in
  Tomasulo.mkBroadcast 3 "LOAD1" 42 ∈ (Tomasulo.WriteBack_log s).1
  ∧ CDB (Tomasulo.WriteBack s) = None
  ∧ Memory (Tomasulo.WriteBack s) = Memory s.
Proof.
  intros s.
  assert (Hl : (Tomasulo.WriteBack_log s).1 = [Tomasulo.mkBroadcast 3 "LOAD1" 42])
    by (vm_compute; reflexivity).
  assert (H : Tomasulo.mkBroadcast 3 "LOAD1" 42 ∈ (Tomasulo.WriteBack_log s).1)
    by (rewrite Hl; apply list_elem_of_singleton; reflexivity).
  pose proof (broadcast_commits s (Tomasulo.mkBroadcast 3 "LOAD1" 42) H)
    as (H1 & H2 & _).
  split; [exact H|]. split; [exact H1 | exact H2].
Defined.

(** X27: the completion history is append-only.  Over any number of
    cycles the Executed tracker and the WriteBack tracker only grow at
    their end: the entries present before are kept, in order, and each
    entry added carries the clock of the cycle that added it, between the
    clock at the start and the clock at the end. *)
Theorem history_append_only (s : Tomasulo) (n : nat) :
  appended (clock s) (clock s + Z.of_nat n)
    (ExecutedTracker s) (ExecutedTracker (Tomasulo.steps n s))
  ∧ appended (clock s) (clock s + Z.of_nat n)
      (WriteBackTracker s) (WriteBackTracker (Tomasulo.steps n s)).
Proof.
  induction n as [|n [IH1 IH2]].
  - simpl. split; exists []; rewrite app_nil_r; (split; [reflexivity | constructor]).
  - change (Tomasulo.steps (S n) s) with (Tomasulo.step (Tomasulo.steps n s)).
    destruct (step_grows (Tomasulo.steps n s)) as [H1 H2].
    assert (Hc : clock (Tomasulo.steps n s) = clock s + Z.of_nat n).
    { clear. induction n as [|n IH]; [simpl; lia|].
      change (Tomasulo.steps (S n) s) with (Tomasulo.step (Tomasulo.steps n s)).
      rewrite step_clock, IH. lia. }
    rewrite Hc in H1, H2.
    replace (clock s + Z.of_nat (S n)) with (clock s + Z.of_nat n + 1) by lia.
    split; [apply (appended_trans _ _ _ _ _ _ _ IH1 H1)
           | apply (appended_trans _ _ _ _ _ _ _ IH2 H2)]; lia.
Qed.

(** ** A missed execution window *)

Section Missed.

Import Tomasulo ReservationStation.

Lemma stays_missed_refl rs : stays_missed rs rs.
Proof. split; [reflexivity|]. intros [_ H]. split; [exact H | reflexivity]. Qed.

Lemma stays_missed_trans a b c :
  stays_missed a b → stays_missed b c → stays_missed a c.
Proof.
  intros [Hc1 H1] [Hc2 H2]. split; [eapply same_config_trans; eassumption|].
  intros Hm. destruct (H1 Hm) as [Hr Hp].
  assert (Hmb : missed b).
  { destruct Hm as [Hlt _]. split; [|exact Hr].
    unfold same_config, station_config in Hc1.
    assert (cycles_needed b = cycles_needed a) by congruence. lia. }
  destruct (H2 Hmb) as [Hr2 Hp2]. split; [exact Hr2 | congruence].
Qed.

Lemma stays_missed_vacuous rs rs' :
  same_config rs rs' → cycles_passed rs = cycles_needed rs →
  stays_missed rs rs'.
Proof. intros Hc Hp. split; [exact Hc|]. intros [Hlt _]. lia. Qed.

Lemma stays_missed_tick rs : stays_missed rs (tick rs).
Proof.
  split; [apply same_config_tick|]. intros [Hlt Hr]. unfold tick.
  destruct (negb (busy rs)); [split; [exact Hr | reflexivity]|].
  rewrite (bool_decide_eq_false_2 (result rs ≠ None)) by auto. simpl.
  replace (cycles_passed rs >? cycles_needed rs) with true by lia.
  split; [exact Hr | reflexivity].
Qed.

Lemma wake_result nm v rs :
  result (wake nm v rs) = result rs
  ∧ cycles_passed (wake nm v rs) = cycles_passed rs.
Proof. unfold wake. repeat case_match; split; reflexivity. Qed.

Lemma stays_missed_wake nm v rs : stays_missed rs (wake nm v rs).
Proof.
  split; [apply same_config_wake|]. intros [_ Hr].
  destruct (wake_result nm v rs) as [-> ->]. split; [exact Hr | reflexivity].
Qed.

Lemma stays_missed_phases s :
  Forall2 stays_missed (RS s) (RS (execute (Issue (incrementCyclesPassed s)))).
Proof.
  apply (related_trans stays_missed stays_missed_trans _
           (RS (incrementCyclesPassed s))).
  { unfold incrementCyclesPassed. simpl. apply related_map.
    apply stays_missed_tick. }
  apply (related_trans stays_missed stays_missed_trans _
           (RS (Issue (incrementCyclesPassed s)))).
  - apply Issue_related; [apply stays_missed_refl|].
    intros rs rs' (Hc & Hr & Hp). split; [exact Hc|].
    intros [_ Hn]. split; congruence.
  - apply execute_related.
    + apply stays_missed_refl.
    + apply stays_missed_trans.
    + intros v rs. split; [reflexivity|]. intros [_ H]. split; [exact H | reflexivity].
    + intros rs H. apply stays_missed_vacuous; [reflexivity | exact H].
    + intros v rs H. apply stays_missed_vacuous; [reflexivity | exact H].
    + intros rs H. apply stays_missed_vacuous; [reflexivity | exact H].
    + intros rs. split; [reflexivity|]. intros _. split; reflexivity.
Qed.

Lemma stays_missed_step s : Forall2 stays_missed (RS s) (RS (step s)).
Proof.
  rewrite step_unfold.
  change (Forall2 stays_missed (RS s)
            (RS (WriteBack (execute (Issue (incrementCyclesPassed s)))))).
  apply (related_trans stays_missed stays_missed_trans _
           (RS (execute (Issue (incrementCyclesPassed s)))));
    [apply stays_missed_phases|].
  destruct (WriteBack_cases (execute (Issue (incrementCyclesPassed s))))
    as [-> | (e & rs & cdb & _ & Hk & Hr & _ & _ & _ & ->)].
  - apply related_refl, stays_missed_refl.
  - rewrite broadcast_RS.
    apply (related_trans stays_missed stays_missed_trans _
             (map (wake (name rs) cdb)
                (RS (execute (Issue (incrementCyclesPassed s)))))).
    + apply related_map. apply stays_missed_wake.
    + apply related_alter; [apply stays_missed_refl|].
      intros e' He'. rewrite lookup_map, Hk in He'. simpl in He'.
      injection He' as <-. split; [reflexivity|].
      intros [_ Hn]. destruct (wake_result (name rs) cdb rs) as [Hw _].
      congruence.
Qed.

Lemma missed_related a b :
  stays_missed a b → missed a →
  missed b ∧ cycles_passed b = cycles_passed a
  ∧ cycles_needed b = cycles_needed a.
Proof.
  intros [Hc H] Hm. destruct (H Hm) as [Hr Hp].
  assert (Hn : cycles_needed b = cycles_needed a)
    by (unfold same_config, station_config in Hc; congruence).
  destruct Hm as [Hlt _]. split; [split; [lia | exact Hr]|]. split; assumption.
Qed.

Lemma missed_steps s k rs n :
  RS s !! k = Some rs → missed rs →
  ∃ rs', RS (steps n s) !! k = Some rs' ∧ missed rs'
    ∧ cycles_passed rs' = cycles_passed rs
    ∧ cycles_needed rs' = cycles_needed rs.
Proof.
  intros Hk Hm. induction n as [|n (rs1 & Hk1 & Hm1 & Hp1 & Hn1)].
  - exists rs. repeat split; try assumption; apply Hm.
  - change (steps (S n) s) with (step (steps n s)).
    destruct (Forall2_lookup_l _ _ _ _ _ (stays_missed_step (steps n s)) Hk1)
      as (rs2 & Hk2 & Hs).
    destruct (missed_related _ _ Hs Hm1) as (Hm2 & Hp2 & Hn2).
    exists rs2. split; [exact Hk2|]. split; [exact Hm2|]. split; congruence.
Qed.

End Missed.

(** X28: a missed execution window is permanent.  Execute acts on a
    station only in a cycle in which its counter equals its latency, and
    the counter of a busy station with ready operands advances also while
    a pending branch holds Execute back.  Once a station's counter exceeds
    its latency while the station holds no result, no number of cycles
    changes that: the station keeps its counter, never obtains a result,
    and no cycle broadcasts from it. *)
Theorem missed_window_is_permanent (s : Tomasulo) (k : nat)
    (rs : ReservationStation) (n : nat) :
  RS s !! k = Some rs →
  cycles_needed rs < cycles_passed rs →
  result rs = None →
  (∃ rs', RS (Tomasulo.steps n s) !! k = Some rs'
     ∧ result rs' = None
     ∧ cycles_passed rs' = cycles_passed rs
     ∧ cycles_needed rs' = cycles_needed rs)
  ∧ (∀ b, b ∈ (Tomasulo.step_log (Tomasulo.steps n s)).1 →
       Tomasulo.b_station b ≠ k).
Proof.
  intros Hk Hlt Hr.
  destruct (missed_steps s k rs n Hk (conj Hlt Hr))
    as (rs1 & Hk1 & Hm1 & Hp1 & Hn1).
  split.
  - exists rs1. split; [exact Hk1|]. split; [apply Hm1|]. split; assumption.
  - intros b. rewrite step_log_WriteBack. unfold Tomasulo.WriteBack_log.
    set (s3 := Tomasulo.execute
                 (Tomasulo.Issue
                    (Tomasulo.incrementCyclesPassed (Tomasulo.steps n s)))).
    destruct (WriteBack_loop_cases (IssuedTracker s3) s3)
      as [H | (e & rs3 & cdb & _ & Hk3 & Hr3 & _ & _ & _ & H)];
      rewrite H; cbn [fst snd]; intros Hb; [inversion Hb|].
    apply list_elem_of_singleton in Hb as ->.
    cbn [Tomasulo.b_station]. intros Heq. rewrite Heq in Hk3.
    destruct (Forall2_lookup_l _ _ _ _ _
                (stays_missed_phases (Tomasulo.steps n s)) Hk1)
      as (rs3' & Hk3' & Hs).
    fold s3 in Hk3'. rewrite Hk3 in Hk3'. injection Hk3' as <-.
    destruct (missed_related _ _ Hs Hm1) as ([_ Hnone] & _). congruence.
Qed.

Lemma missed_window_is_permanent_witness :
  let s := Tomasulo.steps 5 slow_branch in
  (∃ rs, RS s !! 1%nat = Some rs ∧ busy rs = true
     ∧ cycles_needed rs < cycles_passed rs ∧ result rs = None)
  ∧ ∃ rs', RS (Tomasulo.steps 40 s) !! 1%nat = Some rs' ∧ result rs' = None.
Proof.
  intros s.
  destruct (RS s !! 1%nat) as [rs|] eqn:Hk; [|vm_compute in Hk; discriminate].
  assert (He : rs
               = mkRS "ADD1" ADD true (Some "ADD"%string) (Some 2) (Some 1)
                   None None
                   (Some (mkInstruction 5 (Some 3) (Some 4) (Some 5) None None))
                   None (Some 1) None 2 3 0 0).
  { vm_compute in Hk. injection Hk as <-. reflexivity. }
  assert (Hlt : cycles_needed rs < cycles_passed rs) by (rewrite He; simpl; lia).
  assert (Hr : result rs = None) by (rewrite He; reflexivity).
  destruct (missed_window_is_permanent s 1 rs 40 Hk Hlt Hr)
    as ((rs' & Hk' & Hr' & _) & _).
  split.
  - exists rs. split; [reflexivity|]. split; [rewrite He; reflexivity|].
    split; assumption.
  - exists rs'. split; assumption.
Defined.

(** ** Quiescence and the instruction of a busy station *)

(** X29: an idle engine has halted.  When no station is in flight, no
    jump is pending and the word at [PC] is 0, any number of further
    cycles changes nothing but the clock. *)
Theorem idle_engine_halts (s : Tomasulo) (n : nat) :
  idle s →
  Tomasulo.steps n s = Tomasulo.set_clock (clock s + Z.of_nat n) s.
Proof.
  intros H. induction n as [|n IH].
  - destruct s. simpl. unfold Tomasulo.set_clock. simpl. f_equal. lia.
  - change (Tomasulo.steps (S n) s) with (Tomasulo.step (Tomasulo.steps n s)).
    destruct (steps_idle n s H) as (Hi & _).
    destruct (step_idle _ Hi) as [-> _]. rewrite IH.
    destruct s. unfold Tomasulo.set_clock. simpl. f_equal. lia.
Qed.

Lemma idle_engine_halts_witness :
  let s := Tomasulo.steps 13 (Driver.initial 77) in
  idle s ∧ Tomasulo.steps 5 s = Tomasulo.set_clock (clock s + 5) s.
Proof.
  intros s.
  destruct (driver_after_13 77) as (Hrs & _ & _ & Hj & Hpc).
  assert (H : idle s).
  { split; [|split; assumption]. unfold s. rewrite Hrs. repeat constructor. }
  split; [exact H|]. exact (idle_engine_halts s 5 H).
Defined.

(** X30: a busy station holds its instruction.  In every state reached
    by stepping a configured engine, each busy station has a non-null
    [instruction]: the dereference [element.instruction!] of the Execute
    phase never meets [null]. *)
Theorem busy_station_holds_instruction (s : Tomasulo) (k : nat)
    (rs : ReservationStation) :
  reachable s → RS s !! k = Some rs → busy rs = true →
  ∃ instr, instruction rs = Some instr.
Proof.
  intros Hr Hk Hb. destruct (reachable_stations s Hr) as [_ H].
  pose proof (Forall_lookup_1 _ _ _ _ H Hk Hb) as Hi.
  destruct (instruction rs); [eauto | contradiction].
Qed.

Lemma busy_station_holds_instruction_witness :
  let s := Tomasulo.steps 2 (Driver.initial 77) in
  reachable s
  ∧ ∃ rs, RS s !! 3%nat = Some rs ∧ busy rs = true
      ∧ ∃ instr, instruction rs = Some instr.
Proof.
  intros s.
  assert (Hr : reachable s) by (apply steps_reachable, driver_configured).
  destruct (RS s !! 3%nat) as [rs|] eqn:Hk; [|vm_compute in Hk; discriminate].
  assert (Hb : busy rs = true).
  { vm_compute in Hk. injection Hk as <-. reflexivity. }
  split; [exact Hr|]. exists rs. split; [reflexivity|]. split; [exact Hb|].
  exact (busy_station_holds_instruction s 3 rs Hr Hk Hb).
Defined.
